(** * Identity and authorization core of the Fastify/GraphQL backend

    A shallow embedding of the token codec ([jwt-identity]), the identity
    loader, the [onRequest] identity hook, the [@auth] / [@guest] schema
    directives and the password-reset token check of the user security
    trait, followed by the properties established about them.

    Conventions.  JavaScript exceptions are the [Throw] case of [result];
    objects mutated in place (the data loader cache, [fastify.user]) are
    fields of an explicit [Server] state that every operation threads;
    numbers that the code treats as integers (ids, roles, statuses, unix
    seconds) are [Z]. *)

From Stdlib Require Import ZArith QArith Qcanon Lia Bool List Ascii String.
From stdpp Require Import base option countable gmap strings list.

Local Open Scope string_scope.
Local Open Scope Z_scope.

(* ===================================================================== *)
(** * Errors and results *)
(* ===================================================================== *)

(** The error objects of the code base.  [RequestError msg code] is the
    GraphQL error of [graphql/components/RequestError]; [AuthError] is the
    [Error] decorated by [jwt-identity.AuthError] with [statusCode] and
    [statusText]; [TypeError] is the language's own exception (reading a
    property of [null], destructuring a non-iterable); [OtherError] is any
    other [Error], by its name and message, such as the error of a store
    that cannot be reached. *)
Inductive exn : Type :=
| RequestError (message : string) (code : string)
| AuthError (message : string) (statusCode : Z) (statusText : string)
| TypeError (message : string)
| OtherError (name : string) (message : string).

Inductive result (A : Type) : Type :=
| Ok (a : A)
| Throw (e : exn).
Arguments Ok {A} a.
Arguments Throw {A} e.

(** Sequencing: a thrown exception skips the rest.  With these instances
    [x ← r; k] and [r ;; k] are stdpp's monadic notations. *)
#[global] Instance result_bind : MBind result := fun A B k r =>
  match r with
  | Ok a => k a
  | Throw e => Throw e
  end.
#[global] Instance result_ret : MRet result := fun A a => Ok a.

(** [xs.forEach(f)] where [f] may throw: the first exception aborts the loop. *)
Fixpoint forEach {A} (f : A -> result unit) (xs : list A) : result unit :=
  match xs with
  | [] => Ok tt
  | x :: rest => f x ;; forEach f rest
  end.

(* ===================================================================== *)
(** * The user model ([sequelize/definition/user/User.js]) *)
(* ===================================================================== *)

Module User.

(** The attributes of a [User] row that the identity core reads.
    [token_invalidate] is the truthiness of
    [getJsonValue('security.token.invalidate')] on the [meta] column. *)
Record t : Type := mk {
  id : Z;
  email : string;
  authorization_key : string;
  role : Z;
  status : Z;
  token_invalidate : bool;
}.

Definition STATUS_ACTIVE : Z := 10.
Definition STATUS_INACTIVE : Z := 2.
Definition STATUS_DELETED : Z := 0.
Definition STATUS_BLOCKED : Z := 3.
Definition STATUS_DISABLED : Z := 4.

Definition TYPE_CUSTOMER : Z := 3.
Definition ROLE_CUSTOMER : string := "CUSTOMER".

(** [User.validateStatusOnLogin]: [+User.STATUS_ACTIVE === +status]. *)
Definition validateStatusOnLogin (status : Z) : bool :=
  STATUS_ACTIVE =? status.

(** [User.typeToRole]: the only entry is [TYPE_CUSTOMER -> ROLE_CUSTOMER]. *)
Definition typeToRole (type : Z) : option string :=
  if type =? TYPE_CUSTOMER then Some ROLE_CUSTOMER else None.

(** The name under which each [User.STATUS_*] constant is declared; this is
    the vocabulary of the [UserStatus] values that [@auth(status: ...)]
    rules are written in. *)
Definition statusName (status : Z) : option string :=
  if status =? STATUS_ACTIVE then Some "ACTIVE"
  else if status =? STATUS_INACTIVE then Some "INACTIVE"
  else if status =? STATUS_DELETED then Some "DELETED"
  else if status =? STATUS_BLOCKED then Some "BLOCKED"
  else if status =? STATUS_DISABLED then Some "DISABLED"
  else None.

End User.

(** [fastify.user], the decorator installed by [fastify-auth-decorator]. *)
Record FastifyIdentity : Type := mkIdentity {
  isGuest : bool;
  identity : option User.t;
  user_id : option Z;
}.

(** The value the decorator is created with. *)
Definition guest_user : FastifyIdentity :=
  {| isGuest := true; identity := None; user_id := None |}.

(* ===================================================================== *)
(** * The GraphQL directives ([graphql/directives]) *)
(* ===================================================================== *)

(** [object._authData], written by [AuthDirective.initRequiredParams]. *)
Record AuthData : Type := mkAuthData {
  ad_role : list string;
  ad_status : list string;
  ad_id : list Z;
}.

(** A schema element that directives decorate: a field argument, a field or
    an object type.  [_authData] is [None] when the element has no such own
    property; [_guestOnly] is [true] when the element has that own property
    (it is only ever set to [true]). *)
Record Decorated : Type := mkDecorated {
  name : string;
  _authData : option AuthData;
  _guestOnly : bool;
}.

(** The per-request GraphQL context built in [fastify-apollo-server]:
    [ctx.app = fastify], so [ctx.app.user] is the decorator; [request.t] is
    the translation function.  [reply.request] is the same request. *)
Record GraphQLContext : Type := mkContext {
  app_user : FastifyIdentity;
  request_t : string -> list string -> string;
}.

(** An operation handler: the original [field.resolve].  It may change the
    world [W] (the store, the reply) and returns a value or throws. *)
Definition Resolver (W V : Type) : Type := W -> W * result V.

Module AuthDirective.

(** [rolesMap] and [statusesMap] of [auth-directive.js]; a missing key
    reads as [undefined], here [None]. *)
Definition rolesMap (role : Z) : option string :=
  if role =? 3 then Some "CUSTOMER" else None.

Definition statusesMap (status : Z) : option string :=
  if status =? 1 then Some "ACTIVE"
  else if status =? 2 then Some "INACTIVE"
  else if status =? 0 then Some "DELETED"
  else if status =? 3 then Some "BLOCKED"
  else if status =? 4 then Some "DISABLED"
  else None.

(** [xs.includes(v)] for an array of enum names and a looked-up name that
    may be [undefined]: no array of names contains [undefined]. *)
Definition includes_name (xs : list string) (v : option string) : bool :=
  match v with
  | Some n => bool_decide (n ∈ xs)
  | None => false
  end.

(** [id.includes(user.id)]: [user.id] is a number or [null]. *)
Definition includes_id (xs : list Z) (v : option Z) : bool :=
  match v with
  | Some n => bool_decide (n ∈ xs)
  | None => false
  end.

(** [xs.length] used as a condition. *)
Definition nonempty {A} (xs : list A) : bool :=
  match xs with [] => false | _ :: _ => true end.

(** [user.identity.role] / [user.identity.status]: reading through a
    [null] identity is a [TypeError]. *)
Definition identity_field (u : FastifyIdentity) (f : User.t -> Z) : result Z :=
  match identity u with
  | Some m => Ok (f m)
  | None => Throw (TypeError "Cannot read properties of null")
  end.

(** [AuthDirective.checkPermission(context, {role, status, id})]. *)
Definition checkPermission (ctx : GraphQLContext) (r : AuthData) : result unit :=
  let t := request_t ctx in
  let user := app_user ctx in
  if isGuest user then
    Throw (RequestError (t "Not Authorized" []) "UNAUTHORIZED")
  else
    (if nonempty (ad_role r) then
       role ← identity_field user User.role;
       if negb (includes_name (ad_role r) (rolesMap role))
       then Throw (RequestError (t "Bad user role" []) "BAD_ROLE")
       else Ok tt
     else Ok tt) ;;
    (if nonempty (ad_status r) then
       status ← identity_field user User.status;
       if negb (includes_name (ad_status r) (statusesMap status))
       then Throw (RequestError (t "Bad account status" []) "BAD_STATUS")
       else Ok tt
     else Ok tt) ;;
    (if nonempty (ad_id r) && negb (includes_id (ad_id r) (user_id user))
     then Throw (RequestError (t "Only specific users are allowed" []) "NOT_ALLOWED")
     else Ok tt).

(** [getAuthProp(obj, name) || []]: an array is truthy even when empty, so
    the fallback is taken exactly when [obj] has no [_authData]. *)
Definition getAuthProp {A} (obj : Decorated) (prop : AuthData -> list A)
  : option (list A) :=
  prop <$> _authData obj.

Definition rule_of_argument (arg : Decorated) : AuthData :=
  {| ad_role := default [] (getAuthProp arg ad_role);
     ad_status := default [] (getAuthProp arg ad_status);
     ad_id := default [] (getAuthProp arg ad_id) |}.

(** [AuthDirective.validateArguments(args, context, details)]; [details]
    maps the name of each provided argument to its value. *)
Definition validateArguments {V} (args : list Decorated) (ctx : GraphQLContext)
    (details : gmap string V) : result unit :=
  forEach (fun arg =>
    if bool_decide (is_Some (_authData arg)) && bool_decide (is_Some (details !! name arg))
    then checkPermission ctx (rule_of_argument arg)
    else Ok tt) args.

(** The [funcArg] of the wrapper: on each axis the field's own list, else
    the object type's, else the empty list. *)
Definition funcArg (objectType field : Decorated) : AuthData :=
  let pick {A} (prop : AuthData -> list A) : list A :=
    match getAuthProp field prop with
    | Some xs => xs
    | None => default [] (getAuthProp objectType prop)
    end in
  {| ad_role := pick ad_role; ad_status := pick ad_status; ad_id := pick ad_id |}.

(** The function that [ensureFieldsWrapped] installs as [field.resolve]. *)
Definition wrapped_resolve {W V A} (objectType field : Decorated)
    (fieldArgs : list Decorated) (resolve : Resolver W V)
    (details : gmap string A) (ctx : GraphQLContext) : Resolver W V :=
  fun w =>
    let checks :=
      (if nonempty fieldArgs
       then validateArguments fieldArgs ctx details else Ok tt) ;;
      (if bool_decide (is_Some (_authData objectType))
          || bool_decide (is_Some (_authData field))
       then checkPermission ctx (funcArg objectType field) else Ok tt) in
    match checks with
    | Ok _ => resolve w
    | Throw e => (w, Throw e)
    end.

End AuthDirective.

Module GuestDirective.

(** [GuestDirective.checkPermission(context)]. *)
Definition checkPermission (ctx : GraphQLContext) : result unit :=
  if negb (isGuest (app_user ctx)) then
    Throw (RequestError
             (request_t ctx "This can only access by non-authenticated users" [])
             "NOT_ALLOWED")
  else Ok tt.

(** [GuestDirective.validateArguments(args, ctx, details)]. *)
Definition validateArguments {V} (args : list Decorated) (ctx : GraphQLContext)
    (details : gmap string V) : result unit :=
  forEach (fun arg =>
    if (_guestOnly arg && bool_decide (is_Some (details !! name arg)))
       && negb (isGuest (app_user ctx))
    then Throw (RequestError
           (request_t ctx
              "Argument `%s` can only access by non-authenticated user(s)."
              [name arg])
           "NOT_ALLOWED")
    else Ok tt) args.

(** The function that [ensureFieldsWrapped] installs as [field.resolve]. *)
Definition wrapped_resolve {W V A} (objectType field : Decorated)
    (fieldArgs : list Decorated) (resolve : Resolver W V)
    (details : gmap string A) (ctx : GraphQLContext) : Resolver W V :=
  fun w =>
    let checks :=
      (if AuthDirective.nonempty fieldArgs
       then validateArguments fieldArgs ctx details else Ok tt) ;;
      (if _guestOnly field || _guestOnly objectType
       then checkPermission ctx else Ok tt) in
    match checks with
    | Ok _ => resolve w
    | Throw e => (w, Throw e)
    end.

End GuestDirective.

(* ===================================================================== *)
(** * The arguments of a field call ([graphql]) *)
(* ===================================================================== *)

Module GraphQL.

(** An argument of a field in the schema: the element that the directives
    decorate, and its default value where the schema declares one (as in
    [cookie: Boolean = false]). *)
Record Argument (V : Type) : Type := mkArgument {
  decorated : Decorated;
  defaultValue : option V;
}.
Arguments mkArgument {V}.
Arguments decorated {V}.
Arguments defaultValue {V}.

(** [getArgumentValues(fieldDef, fieldNode, variableValues)] of the
    executor, which builds the arguments object passed to [field.resolve]
    as [details]: for each argument of the field in turn, the value that
    the caller wrote in the call, else the default value of the schema,
    else no property.  [written] maps the name of each argument that the
    call gives a value to that value.  A call that leaves out a required
    argument without a default is refused before any resolver runs. *)
Definition getArgumentValues {V} (argDefs : list (Argument V)) (written : gmap string V)
    : gmap string V :=
  fold_left (fun coercedValues argDef =>
               let n := name (decorated argDef) in
               match written !! n with
               | Some value => <[n := value]> coercedValues
               | None =>
                   match defaultValue argDef with
                   | Some value => <[n := value]> coercedValues
                   | None => coercedValues
                   end
               end)
            argDefs ∅.

End GraphQL.

(* ===================================================================== *)
(** * JavaScript strings and numbers *)
(* ===================================================================== *)

Module JS.

(** A string is a sequence of UTF-16 code units.  This development covers
    the strings whose code units are below 256, one [ascii] for each code
    unit (the value of an HTTP header is such a string: Node reads header
    bytes as Latin-1); strings with other code units are outside it.

    White space and line terminators that [String.prototype.trim] and the
    string-to-number conversion strip: of ECMAScript's [WhiteSpace] and
    [LineTerminator], the code units below 256 are TAB, LF, VT, FF, CR, SP
    and the no-break space U+00A0. *)
Definition is_space (c : ascii) : bool :=
  let n := nat_of_ascii c in
  ((9 <=? n)%nat && (n <=? 13)%nat) || (n =? 32)%nat || (n =? 160)%nat.

Fixpoint trimStart (s : string) : string :=
  match s with
  | EmptyString => EmptyString
  | String c rest => if is_space c then trimStart rest else s
  end.

Fixpoint trimEnd (s : string) : string :=
  match s with
  | EmptyString => EmptyString
  | String c rest =>
      match trimEnd rest with
      | EmptyString => if is_space c then EmptyString else String c EmptyString
      | rest' => String c rest'
      end
  end.

(** [s.trim()]. *)
Definition trim (s : string) : string := trimEnd (trimStart s).

(** [s.split(sep)] for a separator of one character: never empty. *)
Fixpoint split (sep : ascii) (s : string) : list string :=
  match s with
  | EmptyString => [EmptyString]
  | String c rest =>
      if Ascii.eqb c sep then EmptyString :: split sep rest
      else match split sep rest with
           | seg :: segs => String c seg :: segs
           | [] => [String c EmptyString]
           end
  end.

(** The last element of an array: [R.last(xs)], or the only element of
    [xs.slice(-1)]; [None] is [undefined]. *)
Definition lastItem (xs : list string) : option string := last xs.

(** [s.toLowerCase()] on code units below 256: the letters A to Z, and the
    Latin-1 capitals U+00C0 to U+00DE other than the multiplication sign
    U+00D7. *)
Definition lower (c : ascii) : ascii :=
  let n := nat_of_ascii c in
  if ((65 <=? n)%nat && (n <=? 90)%nat)
     || (((192 <=? n)%nat && (n <=? 222)%nat) && negb (n =? 215)%nat)
  then ascii_of_nat (n + 32) else c.

Fixpoint toLowerCase (s : string) : string :=
  match s with
  | EmptyString => EmptyString
  | String c rest => String (lower c) (toLowerCase rest)
  end.

(** ** Numbers

    A Number is an IEEE 754 double.  [Finite v] is a finite double, the
    rational [v] in lowest terms; the two zeros are one value here, since
    the code only tests and compares.  [round] is rounding to the nearest
    double, ties to even: the significand has 53 bits, the least exponent
    of the unit in the last place is -1074, and a result of [2^1024] or
    more is an infinity. *)
Inductive number : Type :=
| NaN
| Infinity (negative : bool)
| Finite (value : Q).

(** A value used as a condition: [NaN] and zero are falsy. *)
Definition truthy (x : number) : bool :=
  match x with
  | NaN => false
  | Infinity _ => true
  | Finite v => negb (Qnum v =? 0)
  end.

Definition isNaN (x : number) : bool :=
  match x with NaN => true | _ => false end.

(** The integer nearest to [n / d], for [d > 0]; a tie goes to the even one. *)
Definition round_half_even (n d : Z) : Z :=
  let q := n / d in
  let r := n mod d in
  if 2 * r <? d then q
  else if d <? 2 * r then q + 1
  else if Z.even q then q else q + 1.

(** The integer part of the binary logarithm of [n / d], for [n, d > 0]. *)
Definition floor_log2 (n d : Z) : Z :=
  let e := Z.log2 n - Z.log2 d in
  if (if 0 <=? e then n <? d * 2 ^ e else n * 2 ^ (- e) <? d) then e - 1 else e.

(** [m * 2^p]. *)
Definition dyadic (m p : Z) : Q :=
  if 0 <=? p then inject_Z (m * 2 ^ p) else m # Z.to_pos (2 ^ (- p)).

(** The double nearest to [n / d], for [n, d > 0]: a multiple of the unit
    in the last place [2^p]. *)
Definition round_positive (n d : Z) : number :=
  let p := Z.max (floor_log2 n d - 52) (-1074) in
  let m := if 0 <=? p then round_half_even n (d * 2 ^ p)
           else round_half_even (n * 2 ^ (- p)) d in
  if (0 <=? p) && (2 ^ 1024 <=? m * 2 ^ p) then Infinity false
  else Finite (Qred (dyadic m p)).

Definition negate (x : number) : number :=
  match x with
  | NaN => NaN
  | Infinity negative => Infinity (negb negative)
  | Finite v => Finite (- v)
  end.

(** The double nearest to a rational. *)
Definition round (q : Q) : number :=
  match Qnum q with
  | 0 => Finite 0
  | Zpos n => round_positive (Zpos n) (Zpos (Qden q))
  | Zneg n => negate (round_positive (Zpos n) (Zpos (Qden q)))
  end.

(** [x + k] for a Number [k] that holds an integer: the exact sum, rounded. *)
Definition add_int (x : number) (k : Z) : number :=
  match x with
  | Finite v => round (v + inject_Z k)
  | other => other
  end.

(** [x > k] for a Number [k] that holds an integer; every comparison with
    [NaN] is false. *)
Definition gt_int (x : number) (k : Z) : bool :=
  match x with
  | NaN => false
  | Infinity negative => negb negative
  | Finite v => negb (Qle_bool v (inject_Z k))
  end.

(** The rational number that a finite value is. *)
Definition to_Q (x : number) : option Q :=
  match x with
  | Finite v => Some v
  | _ => None
  end.

(** What a string spells as a [StringNumericLiteral], before rounding:
    not a literal, an infinity, or the exact value [mantissa * 10^exp10]
    (for a literal in another radix, [exp10] is 0). *)
Inductive literal : Type :=
| NotNumeric
| InfinityLiteral (negative : bool)
| Exact (mantissa : Z) (exp10 : Z).

(** [m * 10^e]. *)
Definition mathematical_value (m e : Z) : Q :=
  if 0 <=? e then inject_Z (m * 10 ^ e) else m # Z.to_pos (10 ^ (- e)).

(** The Number value of a literal. *)
Definition to_number (l : literal) : number :=
  match l with
  | NotNumeric => NaN
  | InfinityLiteral negative => Infinity negative
  | Exact m e => round (mathematical_value m e)
  end.

(** The digit denoted by a character in the given radix. *)
Definition digit_of (radix : nat) (c : ascii) : option Z :=
  let n := nat_of_ascii c in
  let d :=
    if ((48 <=? n)%nat && (n <=? 57)%nat) then Some (n - 48)%nat
    else if ((97 <=? n)%nat && (n <=? 102)%nat) then Some (n - 87)%nat
    else if ((65 <=? n)%nat && (n <=? 70)%nat) then Some (n - 55)%nat
    else None in
  match d with
  | Some v => if (v <? radix)%nat then Some (Z.of_nat v) else None
  | None => None
  end.

(** The longest prefix of digits, most significant first, and the rest. *)
Fixpoint span_digits (radix : nat) (s : string) : list Z * string :=
  match s with
  | EmptyString => ([], EmptyString)
  | String c rest =>
      match digit_of radix c with
      | Some d => let '(ds, r) := span_digits radix rest in (d :: ds, r)
      | None => ([], s)
      end
  end.

Definition digits_value (radix : Z) (ds : list Z) : Z :=
  fold_left (fun acc d => radix * acc + d) ds 0.

(** [0x..], [0o..], [0b..] bodies: one digit at least, nothing after. *)
Definition parse_radix (radix : nat) (body : string) : literal :=
  match span_digits radix body with
  | (d :: ds, EmptyString) => Exact (digits_value (Z.of_nat radix) (d :: ds)) 0
  | _ => NotNumeric
  end.

(** An optional sign. *)
Definition take_sign (s : string) : bool * string :=
  match s with
  | String "-" rest => (true, rest)
  | String "+" rest => (false, rest)
  | _ => (false, s)
  end.

Definition signed (negative : bool) (v : Z) : Z :=
  if negative then - v else v.

(** The exponent part after the mantissa: absent, or [e]/[E], an optional
    sign and one digit at least, up to the end of the string. *)
Definition parse_exponent (s : string) : option Z :=
  match s with
  | EmptyString => Some 0
  | String c rest =>
      if Ascii.eqb c "e" || Ascii.eqb c "E" then
        let '(negative, body) := take_sign rest in
        match span_digits 10 body with
        | (d :: ds, EmptyString) => Some (signed negative (digits_value 10 (d :: ds)))
        | _ => None
        end
      else None
  end.

(** An unsigned decimal literal: digits, an optional fraction, an
    optional exponent; a digit is required before or after the point. *)
Definition parse_decimal (negative : bool) (s : string) : literal :=
  let '(ip, r1) := span_digits 10 s in
  let '(fp, r2) :=
    match r1 with
    | String "." rest => span_digits 10 rest
    | _ => ([], r1)
    end in
  match (ip ++ fp)%list with
  | [] => NotNumeric
  | ds =>
      match parse_exponent r2 with
      | Some e => Exact (signed negative (digits_value 10 ds))
                        (e - Z.of_nat (length fp))
      | None => NotNumeric
      end
  end.

(** The prefix of a hexadecimal, octal or binary integer literal: the
    radix and the body after the prefix. *)
Definition radix_prefix (t : string) : option (nat * string) :=
  match t with
  | String "0" (String c body) =>
      if Ascii.eqb c "x" || Ascii.eqb c "X" then Some (16%nat, body)
      else if Ascii.eqb c "o" || Ascii.eqb c "O" then Some (8%nat, body)
      else if Ascii.eqb c "b" || Ascii.eqb c "B" then Some (2%nat, body)
      else None
  | _ => None
  end.

(** The [StringNumericLiteral] grammar: what the string [s] spells. *)
Definition StringNumericLiteral (s : string) : literal :=
  let t := trim s in
  if String.eqb t "" then Exact 0 0
  else match radix_prefix t with
  | Some (radix, body) => parse_radix radix body
  | None =>
      let '(negative, body) := take_sign t in
      if String.eqb body "Infinity" then InfinityLiteral negative
      else parse_decimal negative body
  end.

(** [Number(s)] for a string [s]: the value that [s] spells, rounded to a
    double. *)
Definition Number (s : string) : number :=
  to_number (StringNumericLiteral s).

(** The decimal spelling of a sequence of digits. *)
Definition digit_char (d : nat) : ascii := ascii_of_nat (48 + d).
Arguments digit_char : simpl never.

Fixpoint digit_string (ds : list nat) : string :=
  match ds with
  | [] => EmptyString
  | d :: rest => String (digit_char d) (digit_string rest)
  end.

(** A string of white space only: what [trim] empties. *)
Fixpoint blank (s : string) : bool :=
  match s with
  | EmptyString => true
  | String c rest => is_space c && blank rest
  end.

(** A string without any white space. *)
Fixpoint no_space (s : string) : bool :=
  match s with
  | EmptyString => true
  | String c rest => negb (is_space c) && no_space rest
  end.

(** The decimal digits of a non-negative integer, most significant first;
    [fuel] bounds the number of digits. *)
Fixpoint decimal_fuel (fuel : nat) (n : Z) (acc : list nat) : list nat :=
  match fuel with
  | O => acc
  | S fuel' =>
      let acc' := Z.to_nat (n mod 10) :: acc in
      if n <? 10 then acc' else decimal_fuel fuel' (n / 10) acc'
  end.

Definition decimal (n : Z) : list nat :=
  decimal_fuel (S (Z.to_nat (Z.log2 n))) n [].

(** [String(n)], or [n] in a template literal, for an integer [n] (below
    [10^21] in absolute value, where the spelling is positional). *)
Definition toString_int (n : Z) : string :=
  if n <? 0 then String "-" (digit_string (decimal (- n)))
  else digit_string (decimal n).

End JS.

(* ===================================================================== *)
(** * The user security trait: password reset tokens *)
(* ===================================================================== *)

Module UserSecurityTrait.

(** [params.passwordResetTokenExpire]. *)
Definition passwordResetTokenExpire : Z := 3600.

(** [IsPasswordResetTokenValidOptions]; [None] is an omitted [expire]. *)
Record Options : Type := mkOptions { expire : option Z }.

(** [const [timestamp] = theToken.split('_').slice(-1)]. *)
Definition timestamp_of (theToken : string) : string :=
  default "" (JS.lastItem (JS.split "_" theToken)).

(** [model.isPasswordResetTokenValid(token, options)]; [now] is the value
    of [time()], the current unix time in seconds. *)
Definition isPasswordResetTokenValid (now : Z) (token : string) (options : Options)
  : bool :=
  let expire := default passwordResetTokenExpire (expire options) in
  let theToken := JS.trim token in
  if String.eqb theToken "" then false
  else
    let timestamp := timestamp_of theToken in
    if String.eqb timestamp ""
       || negb (JS.truthy (JS.Number timestamp))
       || JS.isNaN (JS.Number timestamp)
    then false
    else JS.gt_int (JS.add_int (JS.Number timestamp) expire) now.

(** [generatePasswordResetToken]: [`${code}_${time()}`], the timestamp
    written with the decimal digits [ds]. *)
Definition reset_token (code : string) (ds : list nat) : string :=
  code ++ "_" ++ JS.digit_string ds.

(** The number that the decimal digits [ds] spell. *)
Definition timestamp_value (ds : list nat) : Z :=
  JS.digits_value 10 (Z.of_nat <$> ds).

(** [model.generatePasswordResetToken()]: [`${code}_${time()}`], where
    [code] is the identifier drawn by [nanoid] and [now] the value of
    [time()]. *)
Definition generatePasswordResetToken (code : string) (now : Z) : string :=
  code ++ "_" ++ JS.toString_int now.

End UserSecurityTrait.

(* ===================================================================== *)
(** * Platform primitives *)
(* ===================================================================== *)

Module Jwt.

(** The claims of a token, as [createToken] writes them.  A claim whose
    value is [null] or [undefined] is [None]. *)
Record Payload : Type := mkPayload {
  iss : option string;
  aud : option string;
  jti : option string;
  sub : option string;
  iat : Z;
  nbf : Z;
  exp : Z;
  idt : string;
  rol : Z;
}.

(** A signed token, symbolically: the algorithm of its header, the key its
    signature verifies under, and its claims. *)
Record Jws : Type := mkJws {
  alg : string;
  signed_with : string;
  payload : Payload;
}.

(** The options [decodeToken] passes to [fastify.jwt.verify].  The library
    reads the expected subject from [subject]; the code passes [sub],
    which the library does not read. *)
Record VerifyOptions : Type := mkVerifyOptions {
  algorithms : list string;
  issuer : option string;
  audience : option string;
  jwtid : option string;
  sub_option : option string;
}.

End Jwt.

(** What the embedding takes from outside the code base: the compact
    serialisation of signed tokens (the JWT library), the cookie header
    parser (the [cookie] package) and the status label of the status trait
    ([model.toStatus()], whose file is not part of this tree). *)
Class Platform : Type := mkPlatform {
  jws_encode : Jwt.Jws -> string;
  jws_decode : string -> option Jwt.Jws;
  cookie_parse : string -> gmap string string;
  toStatus : Z -> string;
}.

(** The compact serialisation can be read back, and is never empty. *)
Class PlatformLaws (P : Platform) : Prop := {
  jws_decode_encode : forall j, jws_decode (jws_encode j) = Some j;
  jws_encode_nonempty : forall j, jws_encode j <> "";
}.

(** The configuration entries the token codec reads through
    [fastify.config.get]; an absent entry is [None].  [jwt_secret] is the
    key the JWT plugin is registered with. *)
Record Config : Type := mkConfig {
  uri_url : option string;
  uri_baseUrl : option string;
  auth_jwt_claims_jti : option string;
  auth_jwt_claims_sub : option string;
  session_jwt_claims_jti : option string;
  session_jwt_claims_sub : option string;
  session_jwt_expireAfterDays : option Z;
  session_jwt_notBeforeSeconds : option Z;
  jwt_secret : string;
}.

Module JwtLib.
Import Jwt.

Section Verify.
Context `{Platform}.

(** An option used as a condition: present and not the empty string. *)
Definition given (o : option string) : bool :=
  match o with
  | Some s => negb (String.eqb s "")
  | None => false
  end.

(** The message for a string that is not a token: the library splits it
    at the dots and answers "jwt malformed" unless there are three parts,
    and "invalid token" when the three parts cannot be decoded. *)
Definition not_a_token (token : string) : string :=
  if (length (JS.split "." token) =? 3)%nat then "invalid token" else "jwt malformed".

(** [fastify.jwt.verify(token, options)] at clock [now] (unix seconds):
    the plugin asserts that a token is given ("missing token") and calls
    [verify(token, secret, options)] of the JWT library with its defaults:
    no clock tolerance, and neither [ignoreExpiration] nor
    [ignoreNotBefore], which the code never passes.  The checks run in the
    library's order: the token can be decoded, it carries a signature,
    algorithm, signature, not-before, expiry, then audience, issuer and
    token id where the option is given.  The result is the payload or the
    message of the error thrown.

    A token of algorithm [none] is the unsecured token, which carries an
    empty signature ("jwt signature is required"); a forged token that
    names [none] and yet carries a signature, or one that names another
    algorithm and carries none, gets another of the two messages in the
    library, a difference that the symbolic tokens do not record and that
    no statement below depends on. *)
Definition verify (secret : string) (now : Z) (token : string)
    (o : VerifyOptions) : string + Payload :=
  if String.eqb token "" then inl "missing token"
  else match jws_decode token with
  | None => inl (not_a_token token)
  | Some j =>
      let p := payload j in
      if String.eqb (alg j) "none" then inl "jwt signature is required"
      else if negb (bool_decide (alg j ∈ algorithms o)) then inl "invalid algorithm"
      else if negb (String.eqb (signed_with j) secret) then inl "invalid signature"
      else if now <? nbf p then inl "jwt not active"
      else if exp p <=? now then inl "jwt expired"
      else if given (audience o) && negb (bool_decide (aud p = audience o))
        then inl ("jwt audience invalid. expected: " ++ default "" (audience o))
      else if given (issuer o) && negb (bool_decide (iss p = issuer o))
        then inl ("jwt issuer invalid. expected: " ++ default "" (issuer o))
      else if given (jwtid o) && negb (bool_decide (jti p = jwtid o))
        then inl ("jwt jwtid invalid. expected: " ++ default "" (jwtid o))
      else inr p
  end.

(** [sign(payload, secret, {algorithm})]. *)
Definition sign (secret : string) (algorithm : string) (p : Payload) : string :=
  jws_encode {| alg := algorithm; signed_with := secret; payload := p |}.

End Verify.
End JwtLib.

Module DataLoader.

(** What a cached promise resolves to: whatever was loaded or primed. *)
Inductive value : Type :=
| VNull
| VModel (u : User.t)
| VArray (items : list (option User.t)).

(** What the promise returned by the batch function resolves to.  The
    loader's cache maps each key to the value of its settled promise. *)
Inductive batch_result : Type :=
| BatchArray (values : list value)
| BatchNotArray.

Definition bad_batch : exn :=
  TypeError "DataLoader must be constructed with a function which accepts Array<key> and returns Promise<Array<value>>".

(** [loader.load(key)], awaited: a cached promise is returned as it is;
    otherwise the batch function is called with the key, and when it does
    not return an array of one value per key the key is cleared and the
    promise rejected. *)
Definition load (batchLoadFn : list string -> batch_result)
    (c : gmap string value) (key : string) : gmap string value * result value :=
  match c !! key with
  | Some v => (c, Ok v)
  | None =>
      match batchLoadFn [key] with
      | BatchArray [v] => (<[key:=v]> c, Ok v)
      | _ => (delete key c, Throw bad_batch)
      end
  end.

(** [loader.prime(key, value)]: no effect when the key is cached. *)
Definition prime (c : gmap string value) (key : string) (v : value)
  : gmap string value :=
  match c !! key with
  | Some _ => c
  | None => <[key:=v]> c
  end.

(** [loader.clear(key)]. *)
Definition clear (c : gmap string value) (key : string) : gmap string value :=
  delete key c.

(** The batch function of [loaders.authUsers]: [async keys => { return {}; }]. *)
Definition authUsers_batch (keys : list string) : batch_result := BatchNotArray.

(** The array pattern [[model] = v]: on an array, its first element or
    [undefined]; anything else is not iterable and the pattern throws. *)
Definition destructure_first (v : value) : result (option User.t) :=
  match v with
  | VArray items => Ok (mjoin (head items))
  | VModel _ | VNull => Throw (TypeError "object is not iterable")
  end.

(** A model or [null], as a loader value. *)
Definition of_model (m : option User.t) : value :=
  match m with
  | Some u => VModel u
  | None => VNull
  end.

End DataLoader.

(* ===================================================================== *)
(** * The server state *)
(* ===================================================================== *)

(** One Fastify instance.  [db] is the [users] table; [authUsers] the cache
    of [fastify.dataLoaders.authUsers], created once when the data loader
    plugin is registered; [user] the [fastify.user] decorator; [fetches]
    records the keys of the [User.findByAuthKey] queries issued, newest
    first. *)
Record Server : Type := mkServer {
  db : list User.t;
  authUsers : gmap string DataLoader.value;
  user : FastifyIdentity;
  fetches : list string;
}.

(** The instance after all plugins are registered. *)
Definition boot (db : list User.t) : Server :=
  {| db := db; authUsers := ∅; user := guest_user; fetches := [] |}.

(** A request: the two headers the identity core reads. *)
Record Request : Type := mkRequest {
  authorization : option string;
  cookie : option string;
}.

(* ===================================================================== *)
(** * Token codec and identity resolver ([jwt-identity]) *)
(* ===================================================================== *)

Module JwtIdentity.
Import Jwt.

(** What the token getters return: a token, or an [Error] object that is
    returned, not thrown. *)
Inductive extracted : Type :=
| Token (token : string)
| ErrorValue (e : exn).

(** The token data [createToken] resolves to; each of the two dates, a
    text in the [DATE_ATOM] format, is kept as the unix time it denotes. *)
Record TokenData : Type := mkTokenData {
  auth_token : string;
  issued_at : Z;
  expires_at : Z;
}.

(** The unix times that [DATE_ATOM] writes with a year of four digits: from
    0000-01-01T00:00:00+00:00 to 9999-12-31T23:59:59+00:00. *)
Definition ATOM_FIRST : Z := -62167219200.
Definition ATOM_END : Z := 253402300800.

(** [moment(text).utc().unix()] for the text that [format(DATE_ATOM)] wrote
    of the time [t]: the same time when the year has four digits.  A year
    past 9999 is written with five digits or more and a year before 0000
    with a sign, and [moment] reads neither as a date: the moment is
    invalid, it formats as "Invalid date" and its [unix()] is [NaN]; that
    is [None]. *)
Definition read_atom (t : Z) : option Z :=
  if (ATOM_FIRST <=? t) && (t <? ATOM_END) then Some t else None.

Section WithPlatform.
Context `{Platform}.

(** [getTokenFromCookie(request)]. *)
Definition getTokenFromCookie (request : Request) : extracted :=
  match cookie request with
  | None => ErrorValue (AuthError "Authorization required" 401 "Unauthorized")
  | Some header =>
      match cookie_parse header !! "auth_token" with
      | None => ErrorValue (AuthError "Token was empty" 400 "Bad Request")
      | Some raw =>
          let token := JS.trim raw in
          if String.eqb token ""
          then ErrorValue (AuthError "Token was empty" 400 "Bad Request")
          else Token token
      end
  end.

(** [getTokenFromAuthBearer(request)]. *)
Definition getTokenFromAuthBearer (request : Request) : extracted :=
  match authorization request with
  | None => ErrorValue (AuthError "Missing authorization header" 401 "Unauthorized")
  | Some raw =>
      let header := JS.trim raw in
      if String.eqb header ""
      then ErrorValue (AuthError "Token was empty" 400 "Bad Request")
      else Token (JS.trim (default "undefined" (JS.lastItem (JS.split " " header))))
  end.

(** [getTokenFromAll(request)]. *)
Definition getTokenFromAll (request : Request) : extracted :=
  match getTokenFromAuthBearer request with
  | ErrorValue _ => getTokenFromCookie request
  | token => token
  end.

(** [getConfig(path, defaultValue)] reads below [session.jwt]. *)
Definition getConfig {A} (entry : option A) (defaultValue : A) : A :=
  default defaultValue entry.

(** The options of the [verify] call in [decodeToken]. *)
Definition decode_options (cfg : Config) : VerifyOptions :=
  {| algorithms := ["HS512"];
     issuer := uri_url cfg;
     audience := uri_baseUrl cfg;
     jwtid := auth_jwt_claims_jti cfg;
     sub_option := auth_jwt_claims_sub cfg |}.

(** [decodeToken(token)].  An [Error] object passed as the token makes
    the library throw as well. *)
Definition decodeToken (cfg : Config) (now : Z) (token : extracted)
    : result Payload :=
  let verified :=
    match token with
    | Token t => JwtLib.verify (jwt_secret cfg) now t (decode_options cfg)
    | ErrorValue _ => inl "jwt must be a string"
    end in
  match verified with
  | inr decoded => Ok decoded
  | inl message => Throw (AuthError message 400 "Bad Request")
  end.

(** [getNotBeforeDateTime(issuedAt)] and [getExpirationDateTime(issuedAt)]:
    [moment(issuedAt).utc().add(n, unit).format(DATE_ATOM)], as the time
    that the resulting text denotes; [issuedAt] is the time that the text
    of the issue date denotes. *)
Definition getNotBeforeDateTime (cfg : Config) (issuedAt : Z) : option Z :=
  t ← read_atom issuedAt;
  Some (t + getConfig (session_jwt_notBeforeSeconds cfg) 0).

Definition getExpirationDateTime (cfg : Config) (issuedAt : Z) : option Z :=
  t ← read_atom issuedAt;
  Some (t + getConfig (session_jwt_expireAfterDays cfg) 15 * 86400).

(** [createToken(authKey, role)] at clock [now] (unix seconds).  Each time
    claim is [moment(date).utc().unix()] of a formatted date.  When one of
    the three is [NaN], the token is issued with [null] for that claim, and
    the verifier refuses it at every time ("invalid nbf value", "invalid
    exp value"); the claims of such a token are not a [Payload], and the
    result is [None] here. *)
Definition createToken (cfg : Config) (now : Z) (authKey : string) (role : Z)
    : option TokenData :=
  let issuedAt := now in
  issued ← read_atom issuedAt;
  notBefore ← getNotBeforeDateTime cfg issuedAt ≫= read_atom;
  expireOn ← getExpirationDateTime cfg issuedAt ≫= read_atom;
  let token :=
    JwtLib.sign (jwt_secret cfg) "HS512"
      {| iss := uri_url cfg;
         aud := uri_baseUrl cfg;
         jti := session_jwt_claims_jti cfg;
         sub := Some (getConfig (session_jwt_claims_sub cfg) "auth");
         iat := issued;
         nbf := notBefore;
         exp := expireOn;
         idt := authKey;
         rol := role |} in
  Some {| auth_token := token; issued_at := issuedAt; expires_at := expireOn |}.

(** [User.findByAuthKey(key)]: the first row with that key. *)
Definition findByAuthKey (rows : list User.t) (key : string) : option User.t :=
  List.find (fun u => String.eqb (User.authorization_key u) key) rows.

(** [userFromDataLoader(authKey)]. *)
Definition userFromDataLoader (s : Server) (authKey : string)
    : Server * option User.t :=
  let '(cache, loaded) :=
    DataLoader.load DataLoader.authUsers_batch (authUsers s) authKey in
  let model :=
    match loaded ≫= DataLoader.destructure_first with
    | Ok (Some m) => if User.token_invalidate m then None else Some m
    | Ok None => None
    | Throw _ => None
    end in
  match model with
  | Some m =>
      ({| db := db s; authUsers := cache; user := user s; fetches := fetches s |},
       Some m)
  | None =>
      let found := findByAuthKey (db s) authKey in
      ({| db := db s;
          authUsers := DataLoader.prime cache authKey (DataLoader.of_model found);
          user := user s;
          fetches := authKey :: fetches s |},
       found)
  end.

(** The three checks of [findIdentityByToken] on a model that was found. *)
Definition validate (model : User.t) (decoded : Payload)
    : result (User.t * Payload) :=
  if negb (User.validateStatusOnLogin (User.status model)) then
    Throw (AuthError
             ("Your account has been " ++ JS.toLowerCase (toStatus (User.status model)))
             401 "Unauthorized")
  else if User.token_invalidate model then
    Throw (AuthError
             "Access token is expired, disabled, or deleted, or the user has globally signed out"
             400 "Bad Request")
  else if negb (rol decoded =? User.role model) then
    Throw (AuthError "Ineligible user role" 401 "Unauthorized")
  else Ok (model, decoded).

(** [findIdentityByToken(token)] at clock [now]. *)
Definition findIdentityByToken (cfg : Config) (now : Z) (s : Server)
    (token : extracted) : Server * result (User.t * Payload) :=
  match decodeToken cfg now token with
  | Throw e => (s, Throw e)
  | Ok decoded =>
      let authKey := idt decoded in
      let '(s', model) := userFromDataLoader s authKey in
      match model with
      | None =>
          (s', Throw (AuthError "Token may invalidated or user not found"
                                404 "Not found"))
      | Some m => (s', validate m decoded)
      end
  end.

(** The store as the resolver uses it: what [await User.findByAuthKey(key)]
    settles to.  The table of the server answers every query; a store that
    cannot be reached throws. *)
Definition Store : Type := string -> result (option User.t).

Definition table_store (rows : list User.t) : Store :=
  fun key => Ok (findByAuthKey rows key).

(** [userFromDataLoader(authKey)] over a store whose query may throw: the
    query stands outside the [try], so its exception leaves the function,
    and nothing is primed. *)
Definition userFromDataLoader_over (query : Store) (s : Server) (authKey : string)
    : Server * result (option User.t) :=
  let '(cache, loaded) :=
    DataLoader.load DataLoader.authUsers_batch (authUsers s) authKey in
  let model :=
    match loaded ≫= DataLoader.destructure_first with
    | Ok (Some m) => if User.token_invalidate m then None else Some m
    | Ok None => None
    | Throw _ => None
    end in
  match model with
  | Some m =>
      ({| db := db s; authUsers := cache; user := user s; fetches := fetches s |},
       Ok (Some m))
  | None =>
      match query authKey with
      | Ok found =>
          ({| db := db s;
              authUsers := DataLoader.prime cache authKey (DataLoader.of_model found);
              user := user s;
              fetches := authKey :: fetches s |},
           Ok found)
      | Throw e =>
          ({| db := db s; authUsers := cache; user := user s;
              fetches := authKey :: fetches s |},
           Throw e)
      end
  end.

(** [findIdentityByToken(token)] over such a store. *)
Definition findIdentityByToken_over (query : Store) (cfg : Config) (now : Z)
    (s : Server) (token : extracted) : Server * result (User.t * Payload) :=
  match decodeToken cfg now token with
  | Throw e => (s, Throw e)
  | Ok decoded =>
      match userFromDataLoader_over query s (idt decoded) with
      | (s', Throw e) => (s', Throw e)
      | (s', Ok None) =>
          (s', Throw (AuthError "Token may invalidated or user not found"
                                404 "Not found"))
      | (s', Ok (Some m)) => (s', validate m decoded)
      end
  end.

End WithPlatform.
End JwtIdentity.

(* ===================================================================== *)
(** * The identity hook ([fastify-auth-decorator]) *)
(* ===================================================================== *)

Module AuthDecorator.
Import JwtIdentity.

Section WithPlatform.
Context `{Platform}.

Definition set_user (s : Server) (u : FastifyIdentity) : Server :=
  {| db := db s; authUsers := authUsers s; user := u; fetches := fetches s |}.

(** The [onRequest] hook: the server after it, and what the hook's
    promise settles to. *)
Definition onRequest (cfg : Config) (now : Z) (s : Server) (req : Request)
    : Server * result unit :=
  match findIdentityByToken cfg now s (getTokenFromAll req) with
  | (s', Ok (model, _)) =>
      (set_user s' {| isGuest := false;
                      identity := Some model;
                      user_id := Some (User.id model) |},
       Ok tt)
  | (s', Throw _) =>
      (set_user s' {| isGuest := true; identity := None; user_id := None |},
       Ok tt)
  end.

(** The [onRequest] hook over a store whose query may throw. *)
Definition onRequest_over (query : Store) (cfg : Config) (now : Z) (s : Server)
    (req : Request) : Server * result unit :=
  match findIdentityByToken_over query cfg now s (getTokenFromAll req) with
  | (s', Ok (model, _)) =>
      (set_user s' {| isGuest := false;
                      identity := Some model;
                      user_id := Some (User.id model) |},
       Ok tt)
  | (s', Throw _) =>
      (set_user s' {| isGuest := true; identity := None; user_id := None |},
       Ok tt)
  end.

(** The server after handling the requests of a list in turn, each one
    only through the identity hook. *)
Definition serve (cfg : Config) (s : Server) (reqs : list (Z * Request)) : Server :=
  fold_left (fun st '(now, req) => fst (onRequest cfg now st req)) reqs s.

End WithPlatform.
End AuthDecorator.

(* ===================================================================== *)
(** * The logout mutation ([graphql/resolvers/authenticate/mutation/logout]) *)
(* ===================================================================== *)

Module Logout.

(** [identity.setJsonValue('security.token.invalidate', true)]. *)
Definition invalidated (m : User.t) : User.t :=
  {| User.id := User.id m; User.email := User.email m;
     User.authorization_key := User.authorization_key m;
     User.role := User.role m; User.status := User.status m;
     User.token_invalidate := true |}.

(** [identity.save()]: the row with the model's primary key is replaced. *)
Definition save (m : User.t) (rows : list User.t) : list User.t :=
  (fun u => if User.id u =? User.id m then m else u) <$> rows.

(** [Mutation.logout]: the loader entry of the current identity is cleared,
    its invalidation flag set and saved.  The flag is set on the object that
    [fastify.user.identity] refers to.  Cookies and the publication of the
    logout event are left out. *)
Definition logout (s : Server) : Server * result bool :=
  match identity (user s) with
  | None => (s, Throw (TypeError "Cannot read properties of null"))
  | Some m =>
      ({| db := save (invalidated m) (db s);
          authUsers := DataLoader.clear (authUsers s) (User.authorization_key m);
          user := {| isGuest := isGuest (user s);
                     identity := Some (invalidated m);
                     user_id := user_id (user s) |};
          fetches := fetches s |},
       Ok true)
  end.

End Logout.

(* ===================================================================== *)
(** * A reference platform *)
(* ===================================================================== *)

(** A concrete instance of the platform primitives, used to run the model on
    examples: tokens are serialised through the countable encoding of their
    three components, written in binary. *)
Module Reference.
Import Jwt.

#[global] Instance payload_eq_dec : EqDecision Payload.
Proof. solve_decision. Defined.
#[global] Instance jws_eq_dec : EqDecision Jws.
Proof. solve_decision. Defined.

(** A token as the flat list of its components. *)
Definition jws_to_list (j : Jws) : list (option string + Z) :=
  let p := payload j in
  [inl (Some (alg j)); inl (Some (signed_with j));
   inl (iss p); inl (aud p); inl (jti p); inl (sub p);
   inr (iat p); inr (nbf p); inr (exp p); inl (Some (idt p)); inr (rol p)].

Definition jws_of_list (l : list (option string + Z)) : option Jws :=
  match l with
  | [inl (Some a); inl (Some k); inl i; inl u; inl j; inl s;
     inr t1; inr t2; inr t3; inl (Some key); inr r] =>
      Some (mkJws a k (mkPayload i u j s t1 t2 t3 key r))
  | _ => None
  end.

#[global] Instance jws_countable : Countable Jws.
Proof.
  apply (inj_countable jws_to_list jws_of_list).
  intros [a k []]; reflexivity.
Defined.

(** A positive number in binary, least significant bit first, without
    its leading one. *)
Fixpoint bits_of_pos (p : positive) : string :=
  match p with
  | xH => EmptyString
  | xO q => String "0" (bits_of_pos q)
  | xI q => String "1" (bits_of_pos q)
  end.

Fixpoint pos_of_bits (s : string) : option positive :=
  match s with
  | EmptyString => Some xH
  | String c rest =>
      if Ascii.eqb c "0" then xO <$> pos_of_bits rest
      else if Ascii.eqb c "1" then xI <$> pos_of_bits rest
      else None
  end.

Definition encode_jws (j : Jws) : string :=
  String "J" (bits_of_pos (encode j)).

Definition decode_jws (s : string) : option Jws :=
  match s with
  | String "J" bits => pos_of_bits bits ≫= decode
  | _ => None
  end.

(** [cookie.parse] on headers of the shape [name=value; name=value]: the
    first occurrence of a name wins. *)
Definition parse_pair (pair : string) : option (string * string) :=
  match JS.split "=" pair with
  | key :: value :: _ => Some (JS.trim key, JS.trim value)
  | _ => None
  end.

Definition parse_cookie (header : string) : gmap string string :=
  fold_right (fun pair acc =>
                match parse_pair pair with
                | Some (k, v) => <[k:=v]> acc
                | None => acc
                end) ∅ (JS.split ";" header).

(** The labels of the status trait. *)
Definition status_label (status : Z) : string :=
  if status =? User.STATUS_ACTIVE then "Active"
  else if status =? User.STATUS_INACTIVE then "Inactive"
  else if status =? User.STATUS_DELETED then "Deleted"
  else if status =? User.STATUS_BLOCKED then "Blocked"
  else if status =? User.STATUS_DISABLED then "Disabled"
  else "Unknown".

#[global] Instance platform : Platform :=
  {| jws_encode := encode_jws;
     jws_decode := decode_jws;
     cookie_parse := parse_cookie;
     toStatus := status_label |}.

(** A configuration, a table and tokens to run the examples on. *)
Definition cfg : Config :=
  {| uri_url := Some "https://api.example.test";
     uri_baseUrl := Some "example.test";
     auth_jwt_claims_jti := None;
     auth_jwt_claims_sub := None;
     session_jwt_claims_jti := Some "login";
     session_jwt_claims_sub := Some "auth";
     session_jwt_expireAfterDays := Some 15;
     session_jwt_notBeforeSeconds := Some 0;
     jwt_secret := "s3cret" |}.

Definition alice : User.t :=
  {| User.id := 1; User.email := "alice@example.test";
     User.authorization_key := "key-alice"; User.role := 3;
     User.status := 10; User.token_invalidate := false |}.

Definition bob_blocked : User.t :=
  {| User.id := 2; User.email := "bob@example.test";
     User.authorization_key := "key-bob"; User.role := 3;
     User.status := 3; User.token_invalidate := false |}.

Definition carol_signed_out : User.t :=
  {| User.id := 3; User.email := "carol@example.test";
     User.authorization_key := "key-carol"; User.role := 3;
     User.status := 10; User.token_invalidate := true |}.

Definition table : list User.t := [alice; bob_blocked; carol_signed_out].

Definition issued_on : Z := 1700000000.

Definition token_for (u : User.t) (role : Z) : string :=
  default ""
    (JwtIdentity.auth_token
       <$> JwtIdentity.createToken cfg issued_on (User.authorization_key u) role).

Definition bearer (token : string) : Request :=
  {| authorization := Some ("Bearer " ++ token); cookie := None |}.

End Reference.


(* ===================================================================== *)
(** * Further methods of the user model ([User.js]) *)
(* ===================================================================== *)

Module UserMethods.

(** [User.roleToAccountType(role)]: the only entry is
    [ROLE_CUSTOMER -> TYPE_CUSTOMER]; [None] is [null]. *)
Definition roleToAccountType (role : string) : option Z :=
  if String.eqb role User.ROLE_CUSTOMER then Some User.TYPE_CUSTOMER else None.

(** [model.isRole(role)]: [User.typeToRole(+this.get('role')) === role]. *)
Definition isRole (m : User.t) (role : string) : bool :=
  bool_decide (User.typeToRole (User.role m) = Some role).

(** [User.getProperId(userId, allowGuest)], read on the [fastify.user] it
    consults; [userId] is a number or [null].  The left case is the message
    of the [Error] thrown. *)
Definition getProperId (u : FastifyIdentity) (userId : option Z) (allowGuest : bool)
  : string + option Z :=
  if isGuest u && bool_decide (userId = None) then
    if allowGuest then inr None
    else inl "Guest user is not allowed"
  else
    match userId with
    | None | Some 0 => inr (user_id u)
    | Some n => inr (Some n)
    end.

End UserMethods.

(* ===================================================================== *)
(** * The owner users loader ([loaders.ownerUsers]) *)
(* ===================================================================== *)

Module UsersDataLoader.

(** [User.findAll({where: {id: ids, status: User.STATUS_ACTIVE}})]. *)
Definition findAll_active (rows : list User.t) (ids : list Z) : list User.t :=
  List.filter (fun u => bool_decide (User.id u ∈ ids)
                        && (User.status u =? User.STATUS_ACTIVE)) rows.

(** The batch function of [loaders.ownerUsers]:
    [ids.map(id => rows.filter(x => Number(x.id) === Number(id)))]. *)
Definition ownerUsers_batch (table : list User.t) (ids : list Z) : list (list User.t) :=
  let rows := findAll_active table ids in
  (fun id => List.filter (fun x => User.id x =? id) rows) <$> ids.

(** The same, as what the batch promise resolves to. *)
Definition ownerUsers_result (table : list User.t) (ids : list Z)
  : DataLoader.batch_result :=
  DataLoader.BatchArray
    ((fun entry => DataLoader.VArray (Some <$> entry)) <$> ownerUsers_batch table ids).

End UsersDataLoader.

(* ===================================================================== *)
(** * The login mutation ([graphql/resolvers/authenticate/mutation/login]) *)
(* ===================================================================== *)

Module Login.

(** The [input] argument of the mutation. *)
Record Input : Type := mkInput {
  input_email : string;
  input_password : string;
}.

(** [User.findByEmail(email)]: the first row with that address. *)
Definition findByEmail (rows : list User.t) (email : string) : option User.t :=
  List.find (fun u => String.eqb (User.email u) email) rows.

(** [model.setJsonValue('security.token.invalidate', false)]. *)
Definition validated (m : User.t) : User.t :=
  {| User.id := User.id m; User.email := User.email m;
     User.authorization_key := User.authorization_key m;
     User.role := User.role m; User.status := User.status m;
     User.token_invalidate := false |}.

Section WithPlatform.
Context `{Platform}.

(** What [findIdentity] reads of a row beyond the attributes of [User.t]:
    [model.validatePassword(password)], a comparison with the stored hash,
    and [model.getJsonValue('activation.pending', false)]. *)
Variable validatePassword : User.t -> string -> bool.
Variable activation_pending : User.t -> bool.

(** [findIdentity(input, ctx)]; [t] is [request.t].  The field errors that
    a [RequestError] also carries, and the counter of failed logins kept in
    the [meta] column, are left out. *)
Definition findIdentity (t : string -> list string -> string) (rows : list User.t)
    (input : Input) : result User.t :=
  match findByEmail rows (input_email input) with
  | None => Throw (RequestError (t "Unknown email address." []) "UNKNOWN_EMAIL")
  | Some model =>
      if User.status model =? User.STATUS_INACTIVE then
        Throw (RequestError
                 (t "Your account has pending activation."
                    [t (toStatus (User.status model)) []])
                 "PENDING_ACTIVATION")
      else if negb (User.validateStatusOnLogin (User.status model)) then
        Throw (RequestError
                 (t "Your account has been {{status}}."
                    [t (toStatus (User.status model)) []])
                 "ACCESS_REVOKED")
      else if negb (validatePassword model (input_password input)) then
        Throw (RequestError (t "Incorrect email address or password." [])
                 "INVALID_PASSWORD")
      else if activation_pending model then
        Throw (RequestError (t "Your account is not activated." []) "NOT_ACTIVATED")
      else Ok model
  end.

(** [Mutation.login] at clock [now]: the invalidation flag of the identity
    is reset and saved, a token is issued for its authorization key and
    role, and the loader entry of the key is replaced by the model.  The
    login history, the cookie and the [me] object of the answer are left
    out; [fastify.user] is not touched.  The answer carries the token data
    of [createToken]. *)
Definition login (cfg : Config) (now : Z) (t : string -> list string -> string)
    (s : Server) (input : Input) : Server * result (option JwtIdentity.TokenData) :=
  match findIdentity t (db s) input with
  | Throw e => (s, Throw e)
  | Ok found =>
      let model := validated found in
      let authKey := User.authorization_key model in
      let data := JwtIdentity.createToken cfg now authKey (User.role model) in
      ({| db := Logout.save model (db s);
          authUsers := DataLoader.prime (DataLoader.clear (authUsers s) authKey)
                         authKey (DataLoader.VModel model);
          user := user s;
          fetches := fetches s |},
       Ok data)
  end.

End WithPlatform.
End Login.

(* ===================================================================== *)
(** * Visiting the schema ([SchemaDirectiveVisitor] methods of the directives) *)
(* ===================================================================== *)

Module SchemaVisitor.

(** The wrappers put around [field.resolve], the outermost first. *)
Inductive layer : Type := AuthLayer | GuestLayer.

#[global] Instance layer_eq_dec : EqDecision layer.
Proof. solve_decision. Defined.

(** A field of an object type: the field object with the properties the
    directives add, its arguments, and the wrappers around its resolver. *)
Record Field : Type := mkField {
  field_object : Decorated;
  field_args : list Decorated;
  layers : list layer;
}.

(** An object type (or input object type): the type object with the
    properties the directives add, the two marks against re-wrapping, and
    [getFields()]. *)
Record ObjectType : Type := mkObjectType {
  type_object : Decorated;
  _authFieldsWrapped : bool;
  _guestFieldsWrapped : bool;
  getFields : list Field;
}.

(** [this.args] of an [@auth] directive; [None] is an argument left out. *)
Record AuthArgs : Type := mkAuthArgs {
  args_role : option (list string);
  args_status : option (list string);
  args_id : option (list Z);
}.

Inductive directive : Type :=
| Auth (args : AuthArgs)
| Guest.

(** [initRequiredParams(object)] of either directive. *)
Definition initRequiredParams (d : directive) (object : Decorated) : Decorated :=
  match d with
  | Auth args =>
      {| name := name object;
         _authData := Some {| ad_role := default [] (args_role args);
                              ad_status := default [] (args_status args);
                              ad_id := default [] (args_id args) |};
         _guestOnly := _guestOnly object |}
  | Guest =>
      {| name := name object; _authData := _authData object; _guestOnly := true |}
  end.

Definition layer_of (d : directive) : layer :=
  match d with Auth _ => AuthLayer | Guest => GuestLayer end.

(** [field.resolve = async function (...args) { ... }] around the current
    resolver. *)
Definition wrap (l : layer) (f : Field) : Field :=
  {| field_object := field_object f; field_args := field_args f;
     layers := l :: layers f |}.

(** [ensureFieldsWrapped(objectType)] of either directive. *)
Definition ensureFieldsWrapped (d : directive) (o : ObjectType) : ObjectType :=
  match d with
  | Auth _ =>
      if _authFieldsWrapped o then o
      else {| type_object := type_object o;
              _authFieldsWrapped := true;
              _guestFieldsWrapped := _guestFieldsWrapped o;
              getFields := wrap AuthLayer <$> getFields o |}
  | Guest =>
      if _guestFieldsWrapped o then o
      else {| type_object := type_object o;
              _authFieldsWrapped := _authFieldsWrapped o;
              _guestFieldsWrapped := true;
              getFields := wrap GuestLayer <$> getFields o |}
  end.

(** One call of a visitor method on a type: [visitObject] (and
    [visitInputObject]) for a directive on the type, [visitFieldDefinition]
    (and [visitInputFieldDefinition]) for one on its field number [field],
    [visitArgumentDefinition] for one on an argument of that field. *)
Inductive visit : Type :=
| VisitObject (d : directive)
| VisitFieldDefinition (d : directive) (field : nat)
| VisitArgumentDefinition (d : directive) (field argument : nat).

Definition directive_of (v : visit) : directive :=
  match v with
  | VisitObject d | VisitFieldDefinition d _ | VisitArgumentDefinition d _ _ => d
  end.

Definition on_field (g : Decorated -> Decorated) (f : Field) : Field :=
  {| field_object := g (field_object f); field_args := field_args f;
     layers := layers f |}.

Definition on_argument (argument : nat) (g : Decorated -> Decorated) (f : Field) : Field :=
  {| field_object := field_object f; field_args := alter g argument (field_args f);
     layers := layers f |}.

Definition with_fields (o : ObjectType) (fields : list Field) : ObjectType :=
  {| type_object := type_object o;
     _authFieldsWrapped := _authFieldsWrapped o;
     _guestFieldsWrapped := _guestFieldsWrapped o;
     getFields := fields |}.

(** The visitor methods: the fields of the type are wrapped, then the
    visited element is given the directive's properties. *)
Definition apply_visit (o : ObjectType) (v : visit) : ObjectType :=
  let o' := ensureFieldsWrapped (directive_of v) o in
  match v with
  | VisitObject d =>
      {| type_object := initRequiredParams d (type_object o');
         _authFieldsWrapped := _authFieldsWrapped o';
         _guestFieldsWrapped := _guestFieldsWrapped o';
         getFields := getFields o' |}
  | VisitFieldDefinition d field =>
      with_fields o' (alter (on_field (initRequiredParams d)) field (getFields o'))
  | VisitArgumentDefinition d field argument =>
      with_fields o'
        (alter (on_argument argument (initRequiredParams d)) field (getFields o'))
  end.

(** The directives of a schema applied to a type, in the order the
    visitor meets them. *)
Definition visitSchema (o : ObjectType) (visits : list visit) : ObjectType :=
  fold_left apply_visit visits o.

(** [field.resolve] after the visits: the wrappers read the properties of
    the field and of the type when they are called. *)
Fixpoint run_layers {W V A} (objectType field : Decorated) (fieldArgs : list Decorated)
    (ls : list layer) (resolve : Resolver W V) (details : gmap string A)
    (ctx : GraphQLContext) : Resolver W V :=
  match ls with
  | [] => resolve
  | AuthLayer :: rest =>
      AuthDirective.wrapped_resolve objectType field fieldArgs
        (run_layers objectType field fieldArgs rest resolve details ctx) details ctx
  | GuestLayer :: rest =>
      GuestDirective.wrapped_resolve objectType field fieldArgs
        (run_layers objectType field fieldArgs rest resolve details ctx) details ctx
  end.

Definition resolve_field {W V A} (o : ObjectType) (f : Field) (resolve : Resolver W V)
    (details : gmap string A) (ctx : GraphQLContext) : Resolver W V :=
  run_layers (type_object o) (field_object f) (field_args f) (layers f)
    resolve details ctx.

(** A type before any directive has visited it. *)
Definition unvisited (o : ObjectType) : Prop :=
  _authFieldsWrapped o = false /\ _guestFieldsWrapped o = false
  /\ forall f, f ∈ getFields o -> layers f = [].

(** The marks and the wrappers agree, and no wrapper is installed twice. *)
Definition marks_agree (o : ObjectType) : Prop :=
  forall f, f ∈ getFields o ->
    NoDup (layers f)
    /\ (AuthLayer ∈ layers f <-> _authFieldsWrapped o = true)
    /\ (GuestLayer ∈ layers f <-> _guestFieldsWrapped o = true).

(** The mark that [ensureFieldsWrapped] sets for a wrapper. *)
Definition wrapped_by (l : layer) (o : ObjectType) : bool :=
  match l with
  | AuthLayer => _authFieldsWrapped o
  | GuestLayer => _guestFieldsWrapped o
  end.

End SchemaVisitor.

(* ===================================================================== *)
(** * Vocabulary of the statements *)
(* ===================================================================== *)

(** The argument was provided in the current call: it is an own property
    of the arguments object that the resolver receives. *)
Definition supplied {V} (details : gmap string V) (arg : Decorated) : bool :=
  bool_decide (is_Some (details !! name arg)).

(** The argument named [n] reaches the resolver: the field has an argument
    of that name which the caller wrote in the call, or for which the schema
    declares a default value. *)
Definition passed {V} (argDefs : list (GraphQL.Argument V)) (written : gmap string V)
    (n : string) : Prop :=
  exists d, d ∈ argDefs /\ name (GraphQL.decorated d) = n
            /\ (is_Some (written !! n) \/ is_Some (GraphQL.defaultValue d)).

(** The context of a request made by user [m] after the identity hook
    accepted the token. *)
Definition signed_in (m : User.t) : GraphQLContext :=
  {| app_user := {| isGuest := false; identity := Some m;
                    user_id := Some (User.id m) |};
     request_t := fun msg _ => msg |}.

Definition guest_context : GraphQLContext :=
  {| app_user := guest_user; request_t := fun msg _ => msg |}.

(** Every cached value is a model or [null], never an array. *)
Definition plain_cache (c : gmap string DataLoader.value) : Prop :=
  forall k v, c !! k = Some v -> DataLoader.destructure_first v
                                 = Throw (TypeError "object is not iterable").

(** The states of a server: booted on a table, then any sequence of
    requests through the identity hook and of logouts. *)
Inductive reachable `{Platform} (cfg : Config) (rows : list User.t) : Server -> Prop :=
| reach_boot : reachable cfg rows (boot rows)
| reach_request s now req :
    reachable cfg rows s ->
    reachable cfg rows (fst (AuthDecorator.onRequest cfg now s req))
| reach_logout s :
    reachable cfg rows s -> reachable cfg rows (fst (Logout.logout s)).

(** What [decodeToken] requires of a token [j] at clock [now]. *)
Definition acceptable (cfg : Config) (now : Z) (j : Jwt.Jws) : Prop :=
  Jwt.alg j = "HS512"
  /\ Jwt.signed_with j = jwt_secret cfg
  /\ Jwt.nbf (Jwt.payload j) <= now < Jwt.exp (Jwt.payload j)
  /\ (JwtLib.given (uri_baseUrl cfg) = true -> Jwt.aud (Jwt.payload j) = uri_baseUrl cfg)
  /\ (JwtLib.given (uri_url cfg) = true -> Jwt.iss (Jwt.payload j) = uri_url cfg)
  /\ (JwtLib.given (auth_jwt_claims_jti cfg) = true ->
      Jwt.jti (Jwt.payload j) = auth_jwt_claims_jti cfg).

(** The token id the verifier expects, when it expects one, is the one the
    issuer writes. *)
Definition jti_agree (cfg : Config) : Prop :=
  JwtLib.given (auth_jwt_claims_jti cfg) = true ->
  session_jwt_claims_jti cfg = auth_jwt_claims_jti cfg.

(** A time that the [DATE_ATOM] text round-trips: its year has four
    digits. *)
Definition atom_date (t : Z) : Prop :=
  JwtIdentity.ATOM_FIRST <= t < JwtIdentity.ATOM_END.

(** The claims of the token built by [createToken], where the three times
    are dates that round-trip. *)
Definition issued_claims (cfg : Config) (now : Z) (authKey : string) (role : Z)
    : Jwt.Payload :=
  {| Jwt.iss := uri_url cfg;
     Jwt.aud := uri_baseUrl cfg;
     Jwt.jti := session_jwt_claims_jti cfg;
     Jwt.sub := Some (JwtIdentity.getConfig (session_jwt_claims_sub cfg) "auth");
     Jwt.iat := now;
     Jwt.nbf := now + JwtIdentity.getConfig (session_jwt_notBeforeSeconds cfg) 0;
     Jwt.exp := now + JwtIdentity.getConfig (session_jwt_expireAfterDays cfg) 15 * 86400;
     Jwt.idt := authKey;
     Jwt.rol := role |}.

(** The errors of the resolver: the three kinds thrown by
    [findIdentityByToken]. *)
Definition resolver_error (e : exn) : Prop :=
  exists message,
    e = AuthError message 400 "Bad Request"
    \/ e = AuthError message 401 "Unauthorized"
    \/ e = AuthError message 404 "Not found".

(** What the hook and the logout leave in [fastify.user]: the guest
    identity, or an active user whose row is the one the table gives for
    their authorization key. *)
Definition identity_in_table (s : Server) : Prop :=
  user s = guest_user
  \/ exists m,
       user s = {| isGuest := false; identity := Some m; user_id := Some (User.id m) |}
       /\ JwtIdentity.findByAuthKey (db s) (User.authorization_key m) = Some m
       /\ User.status m = User.STATUS_ACTIVE.

(** The GraphQL context of a request handled on server state [s]:
    [ctx.app] is the Fastify instance, so [ctx.app.user] is [fastify.user]. *)
Definition context_of (s : Server) (t : string -> list string -> string)
    : GraphQLContext :=
  {| app_user := user s; request_t := t |}.

(** The error codes of the [@auth] rule. *)
Definition auth_codes : list string :=
  ["UNAUTHORIZED"; "BAD_ROLE"; "BAD_STATUS"; "NOT_ALLOWED"].

(* ===================================================================== *)
(** * Properties of the rule engine *)
(* ===================================================================== *)

Section RuleEngine.

Lemma forEach_all_ok {A} (f : A -> result unit) (xs : list A) :
  (forall x, x ∈ xs -> f x = Ok tt) -> forEach f xs = Ok tt.
Proof.
  induction xs as [|x xs IH]; intros Hall; simpl; [reflexivity|].
  rewrite (Hall x) by (left; reflexivity). simpl.
  apply IH. intros y Hy. apply Hall. right. exact Hy.
Qed.

Lemma forEach_filter {A} (f : A -> result unit) (keep : A -> bool) (xs : list A) :
  (forall x, keep x = false -> f x = Ok tt) ->
  forEach f xs = forEach f (List.filter keep xs).
Proof.
  intros Hskip. induction xs as [|x xs IH]; simpl; [reflexivity|].
  destruct (keep x) eqn:Hk; simpl.
  - rewrite IH. reflexivity.
  - rewrite (Hskip x Hk). simpl. exact IH.
Qed.

Lemma forEach_throw {A} (f : A -> result unit) (xs : list A) (P : exn -> Prop) e :
  (forall x e', f x = Throw e' -> P e') ->
  forEach f xs = Throw e -> P e.
Proof.
  intros Hf. induction xs as [|x xs IH]; simpl; [discriminate|].
  destruct (f x) as [[]|e'] eqn:Hx; simpl.
  - exact IH.
  - intros [= <-]. eapply Hf. exact Hx.
Qed.

(** [checkPermission] step by step, in the code's own vocabulary: the
    user's role and status are looked up in [rolesMap] and [statusesMap]. *)
Lemma auth_checkPermission_steps ctx r m :
  identity (app_user ctx) = Some m ->
  AuthDirective.checkPermission ctx r =
    if isGuest (app_user ctx) then
      Throw (RequestError (request_t ctx "Not Authorized" []) "UNAUTHORIZED")
    else if AuthDirective.nonempty (ad_role r)
            && negb (AuthDirective.includes_name (ad_role r)
                       (AuthDirective.rolesMap (User.role m))) then
      Throw (RequestError (request_t ctx "Bad user role" []) "BAD_ROLE")
    else if AuthDirective.nonempty (ad_status r)
            && negb (AuthDirective.includes_name (ad_status r)
                       (AuthDirective.statusesMap (User.status m))) then
      Throw (RequestError (request_t ctx "Bad account status" []) "BAD_STATUS")
    else if AuthDirective.nonempty (ad_id r)
            && negb (AuthDirective.includes_id (ad_id r) (user_id (app_user ctx))) then
      Throw (RequestError (request_t ctx "Only specific users are allowed" [])
               "NOT_ALLOWED")
    else Ok tt.
Proof.
  intros Hm. unfold AuthDirective.checkPermission, AuthDirective.identity_field.
  rewrite Hm.
  destruct (isGuest (app_user ctx)); [reflexivity|].
  destruct (AuthDirective.nonempty (ad_role r)); simpl;
    [destruct (AuthDirective.includes_name (ad_role r) _); simpl; [|reflexivity]|];
    (destruct (AuthDirective.nonempty (ad_status r)); simpl;
     [destruct (AuthDirective.includes_name (ad_status r) _); simpl; [|reflexivity]|]);
    destruct (AuthDirective.nonempty (ad_id r)); simpl;
    try destruct (AuthDirective.includes_id _ _); reflexivity.
Qed.

(** A guest is turned away first, whatever the rule. *)
Lemma auth_checkPermission_guest ctx r :
  isGuest (app_user ctx) = true ->
  AuthDirective.checkPermission ctx r =
    Throw (RequestError (request_t ctx "Not Authorized" []) "UNAUTHORIZED").
Proof. intros Hg. unfold AuthDirective.checkPermission. rewrite Hg. reflexivity. Qed.

(** A rule with three empty sets lets every signed-in user through. *)
Lemma auth_checkPermission_unrestricted ctx :
  isGuest (app_user ctx) = false ->
  AuthDirective.checkPermission ctx (mkAuthData [] [] []) = Ok tt.
Proof. intros Hg. unfold AuthDirective.checkPermission. rewrite Hg. reflexivity. Qed.

(** No status accepted at sign-in has a name in [statusesMap]: a signed-in
    user whose account is active fails every rule that restricts the
    status, whichever names the rule lists. *)
Lemma active_user_fails_status_rules ctx r m :
  isGuest (app_user ctx) = false ->
  identity (app_user ctx) = Some m ->
  User.validateStatusOnLogin (User.status m) = true ->
  ad_role r = [] ->
  ad_status r <> [] ->
  AuthDirective.checkPermission ctx r =
    Throw (RequestError (request_t ctx "Bad account status" []) "BAD_STATUS").
Proof.
  intros Hg Hm Hact Hrole Hst.
  rewrite (auth_checkPermission_steps ctx r m Hm), Hg, Hrole. simpl.
  unfold User.validateStatusOnLogin, User.STATUS_ACTIVE in Hact.
  apply Z.eqb_eq in Hact. rewrite <- Hact.
  destruct (ad_status r); [contradiction|]. reflexivity.
Qed.

(** The role table of the directive is that of the user model; its status
    table differs from the model's constants on the active status only. *)
Lemma rolesMap_is_typeToRole role :
  AuthDirective.rolesMap role = User.typeToRole role.
Proof. reflexivity. Qed.

Lemma statusesMap_is_statusName status :
  status <> 1 -> status <> User.STATUS_ACTIVE ->
  AuthDirective.statusesMap status = User.statusName status.
Proof.
  unfold AuthDirective.statusesMap, User.statusName, User.STATUS_ACTIVE,
    User.STATUS_INACTIVE, User.STATUS_DELETED, User.STATUS_BLOCKED, User.STATUS_DISABLED.
  intros H1 H10.
  destruct (Z.eqb_spec status 1); [contradiction|].
  destruct (Z.eqb_spec status 10); [contradiction|]. reflexivity.
Qed.

Lemma statusesMap_active :
  AuthDirective.statusesMap User.STATUS_ACTIVE = None
  /\ User.statusName User.STATUS_ACTIVE = Some "ACTIVE".
Proof. split; reflexivity. Qed.

End RuleEngine.

(** C2 (evaluation at the failing input).  The user [alice] is signed in,
    her account status is [User.STATUS_ACTIVE], and the rule restricts the
    status axis to ACTIVE only; the status of the user is in the rule's set,
    yet [checkPermission] throws BAD_STATUS, because [statusesMap] names
    status 1, not [User.STATUS_ACTIVE] = 10, as ACTIVE.  On the role axis the
    same user passes a CUSTOMER rule and fails an ADMIN rule with BAD_ROLE. *)
Theorem C2_active_status_rule_rejects_active_user :
  User.status Reference.alice = User.STATUS_ACTIVE
  /\ User.statusName (User.status Reference.alice) = Some "ACTIVE"
  /\ AuthDirective.checkPermission (signed_in Reference.alice)
       {| ad_role := []; ad_status := ["ACTIVE"]; ad_id := [] |}
     = Throw (RequestError "Bad account status" "BAD_STATUS")
  /\ AuthDirective.checkPermission (signed_in Reference.alice)
       {| ad_role := ["CUSTOMER"]; ad_status := []; ad_id := [] |}
     = Ok tt
  /\ AuthDirective.checkPermission (signed_in Reference.alice)
       {| ad_role := ["ADMIN"]; ad_status := []; ad_id := [] |}
     = Throw (RequestError "Bad user role" "BAD_ROLE").
Proof. repeat split; vm_compute; reflexivity. Qed.

Section GuestRules.

Lemma guest_validateArguments_code {V} args ctx (details : gmap string V) e :
  GuestDirective.validateArguments args ctx details = Throw e ->
  exists msg, e = RequestError msg "NOT_ALLOWED".
Proof.
  unfold GuestDirective.validateArguments.
  apply (forEach_throw _ _ (fun e => exists msg, e = RequestError msg "NOT_ALLOWED")).
  intros arg e'.
  destruct (_ && _); [|discriminate]. intros [= <-]. eexists. reflexivity.
Qed.

Lemma guest_checkPermission_eq ctx :
  GuestDirective.checkPermission ctx =
    if isGuest (app_user ctx) then Ok tt
    else Throw (RequestError
                  (request_t ctx "This can only access by non-authenticated users" [])
                  "NOT_ALLOWED").
Proof.
  unfold GuestDirective.checkPermission. destruct (isGuest (app_user ctx)); reflexivity.
Qed.

End GuestRules.

(** C8.  A guest-only rule passes exactly for a guest: [checkPermission]
    returns normally if and only if [isGuest] holds, and throws NOT_ALLOWED
    for a signed-in caller.  A field that carries the rule (itself or through
    its object type) then fails with NOT_ALLOWED without running the real
    handler: the world [w] is returned unchanged, whatever the handler is. *)
Theorem C8_guest_rule_passes_iff_guest (ctx : GraphQLContext) :
  (GuestDirective.checkPermission ctx = Ok tt <-> isGuest (app_user ctx) = true)
  /\ (isGuest (app_user ctx) = false ->
      GuestDirective.checkPermission ctx =
        Throw (RequestError
                 (request_t ctx "This can only access by non-authenticated users" [])
                 "NOT_ALLOWED"))
  /\ (forall (W V A : Type) (objectType field : Decorated) (fieldArgs : list Decorated)
             (resolve : Resolver W V) (details : gmap string A) (w : W),
        _guestOnly field || _guestOnly objectType = true ->
        isGuest (app_user ctx) = false ->
        exists msg,
          GuestDirective.wrapped_resolve objectType field fieldArgs resolve details ctx w
          = (w, Throw (RequestError msg "NOT_ALLOWED")))
  /\ (forall (W V A : Type) (objectType field : Decorated) (fieldArgs : list Decorated)
             (resolve : Resolver W V) (details : gmap string A) (w : W),
        isGuest (app_user ctx) = true ->
        GuestDirective.wrapped_resolve objectType field fieldArgs resolve details ctx w
        = resolve w).
Proof.
  rewrite guest_checkPermission_eq.
  repeat split.
  - destruct (isGuest (app_user ctx)); [reflexivity|discriminate].
  - intros ->. reflexivity.
  - intros ->. reflexivity.
  - intros W V A objectType field fieldArgs resolve details w Hrule Hg.
    unfold GuestDirective.wrapped_resolve. rewrite Hrule.
    destruct (if AuthDirective.nonempty fieldArgs
              then GuestDirective.validateArguments fieldArgs ctx details
              else Ok tt) as [[]|e] eqn:Hargs; simpl.
    + rewrite guest_checkPermission_eq, Hg. eexists. reflexivity.
    + destruct (AuthDirective.nonempty fieldArgs); [|discriminate].
      destruct (guest_validateArguments_code _ _ _ _ Hargs) as [msg ->].
      eexists. reflexivity.
  - intros W V A objectType field fieldArgs resolve details w Hg.
    unfold GuestDirective.wrapped_resolve.
    assert (GuestDirective.validateArguments fieldArgs ctx details = Ok tt) as ->.
    { apply forEach_all_ok. intros arg _. rewrite Hg, andb_false_r. reflexivity. }
    rewrite guest_checkPermission_eq, Hg.
    destruct (AuthDirective.nonempty fieldArgs), (_guestOnly field || _guestOnly objectType);
      reflexivity.
Qed.

(** C8, run: a guest passes the rule of the [login] field and a signed-in
    user does not. *)
Lemma C8_guest_rule_witness :
  GuestDirective.checkPermission guest_context = Ok tt
  /\ GuestDirective.checkPermission (signed_in Reference.alice)
     = Throw (RequestError "This can only access by non-authenticated users" "NOT_ALLOWED")
  /\ exists msg,
       GuestDirective.wrapped_resolve (W:=nat) (V:=bool) (A:=bool)
         (mkDecorated "Mutation" None false) (mkDecorated "login" None true)
         [mkDecorated "input" None false; mkDecorated "cookie" None false]
         (fun w => (S w, Ok true)) {["cookie" := true]} (signed_in Reference.alice) 0%nat
       = (0%nat, Throw (RequestError msg "NOT_ALLOWED")).
Proof.
  pose proof (C8_guest_rule_passes_iff_guest (signed_in Reference.alice))
    as (_ & Hthrow & Hwrap & _).
  split; [reflexivity|]. split; [apply Hthrow; reflexivity|].
  apply Hwrap; reflexivity.
Defined.

Lemma forEach_some_throw {A} (f : A -> result unit) (xs : list A) x e :
  x ∈ xs -> f x = Throw e -> exists e', forEach f xs = Throw e'.
Proof.
  intros Hx Hf. induction xs as [|y xs IH]; [apply elem_of_nil in Hx; contradiction|].
  cbn [forEach]. destruct (f y) as [[]|e'] eqn:Hy; [|eexists; reflexivity].
  apply elem_of_cons in Hx as [->|Hx]; [congruence|].
  cbn [mbind result_bind]. apply IH, Hx.
Qed.

(** The own properties of the arguments object of a call. *)
Lemma getArgumentValues_lookup {V} (argDefs : list (GraphQL.Argument V)) written n :
  is_Some (GraphQL.getArgumentValues argDefs written !! n) <-> passed argDefs written n.
Proof.
  unfold GraphQL.getArgumentValues, passed.
  assert (forall acc : gmap string V,
            is_Some (fold_left
                       (fun coercedValues argDef =>
                          let n := name (GraphQL.decorated argDef) in
                          match written !! n with
                          | Some value => <[n := value]> coercedValues
                          | None =>
                              match GraphQL.defaultValue argDef with
                              | Some value => <[n := value]> coercedValues
                              | None => coercedValues
                              end
                          end) argDefs acc !! n)
            <-> is_Some (acc !! n)
                \/ exists d, d ∈ argDefs /\ name (GraphQL.decorated d) = n
                             /\ (is_Some (written !! n)
                                 \/ is_Some (GraphQL.defaultValue d))) as Hgen.
  { induction argDefs as [|d ds IH]; intros acc.
    - cbn [fold_left]. split; [auto|].
      intros [Hacc|(d & Hd & _)]; [exact Hacc|]. apply elem_of_nil in Hd. contradiction.
    - cbn [fold_left]. cbv zeta. rewrite IH. clear IH.
      assert (is_Some ((match written !! name (GraphQL.decorated d) with
                        | Some value => <[name (GraphQL.decorated d) := value]> acc
                        | None =>
                            match GraphQL.defaultValue d with
                            | Some value => <[name (GraphQL.decorated d) := value]> acc
                            | None => acc
                            end
                        end) !! n)
              <-> is_Some (acc !! n)
                  \/ (name (GraphQL.decorated d) = n
                      /\ (is_Some (written !! n) \/ is_Some (GraphQL.defaultValue d))))
        as Hstep.
      { destruct (decide (name (GraphQL.decorated d) = n)) as [Hn|Hn].
        - rewrite Hn.
          destruct (written !! n) as [v|] eqn:Hw;
            [|destruct (GraphQL.defaultValue d) as [v|] eqn:Hdef].
          + rewrite lookup_insert_eq. split; [intros _|eauto]. right. eauto.
          + rewrite lookup_insert_eq. split; [intros _|eauto]. right. eauto.
          + split; [auto|]. intros [Hacc|(_ & [[? ?]|[? ?]])]; [exact Hacc|discriminate..].
        - assert (forall v, <[name (GraphQL.decorated d) := v]> acc !! n = acc !! n) as Hne
            by (intros v; apply lookup_insert_ne, Hn).
          destruct (written !! name (GraphQL.decorated d));
            [|destruct (GraphQL.defaultValue d)]; rewrite ?Hne;
            (split; [auto|]; intros [Hacc|[? _]]; [exact Hacc|contradiction]). }
      rewrite Hstep. split.
      + intros [[Hacc|(Hn & Hp)]|(d' & Hd' & Hn & Hp)]; [auto|right..].
        * exists d. split; [left|auto].
        * exists d'. split; [right; exact Hd'|auto].
      + intros [Hacc|(d' & Hd' & Hn & Hp)]; [auto|].
        apply elem_of_cons in Hd' as [->|Hd']; [auto|]. right. eauto. }
  rewrite Hgen. rewrite lookup_empty. split; [|auto].
  intros [[? ?]|Hp]; [discriminate|exact Hp].
Qed.




(* ===================================================================== *)
(** * Properties of the identity loader *)
(* ===================================================================== *)

Section Loader.
Context `{Platform}.
Import JwtIdentity.

Lemma load_authUsers (c : gmap string DataLoader.value) k :
  DataLoader.load DataLoader.authUsers_batch c k =
    match c !! k with
    | Some v => (c, Ok v)
    | None => (c, Throw DataLoader.bad_batch)
    end.
Proof.
  unfold DataLoader.load, DataLoader.authUsers_batch.
  destruct (c !! k) eqn:Hk; [reflexivity|].
  rewrite delete_id by exact Hk. reflexivity.
Qed.

Lemma plain_empty : plain_cache ∅.
Proof. intros k v Hk. rewrite lookup_empty in Hk. discriminate. Qed.

Lemma plain_prime c k m :
  plain_cache c -> plain_cache (DataLoader.prime c k (DataLoader.of_model m)).
Proof.
  intros Hc k' v. unfold DataLoader.prime.
  destruct (c !! k) eqn:Hk; [apply Hc|].
  rewrite lookup_insert. case_decide.
  - intros [= <-]. destruct m; reflexivity.
  - apply Hc.
Qed.

(** With only models and [null] in the cache, the loader never answers:
    a miss rejects, a hit cannot be destructured; so every call queries
    the store, and primes the cache with what the store returned. *)
Lemma userFromDataLoader_plain s k :
  plain_cache (authUsers s) ->
  userFromDataLoader s k =
    ({| db := db s;
        authUsers := DataLoader.prime (authUsers s) k
                       (DataLoader.of_model (findByAuthKey (db s) k));
        user := user s;
        fetches := k :: fetches s |},
     findByAuthKey (db s) k).
Proof.
  intros Hplain. unfold userFromDataLoader. rewrite load_authUsers.
  destruct (authUsers s !! k) as [v|] eqn:Hk; simpl; [|reflexivity].
  rewrite (Hplain k v Hk). reflexivity.
Qed.

Lemma userFromDataLoader_keeps_plain s k :
  plain_cache (authUsers s) -> plain_cache (authUsers (fst (userFromDataLoader s k))).
Proof.
  intros Hplain. rewrite (userFromDataLoader_plain s k Hplain). simpl.
  apply plain_prime. exact Hplain.
Qed.

Lemma userFromDataLoader_fetches s k :
  plain_cache (authUsers s) ->
  fetches (fst (userFromDataLoader s k)) = k :: fetches s.
Proof. intros Hplain. rewrite (userFromDataLoader_plain s k Hplain). reflexivity. Qed.

(** Whatever the cache holds, the loader only adds to it. *)
Lemma userFromDataLoader_cache_grows s k k' v :
  authUsers s !! k' = Some v ->
  authUsers (fst (userFromDataLoader s k)) !! k' = Some v.
Proof.
  intros Hk'. unfold userFromDataLoader. rewrite load_authUsers.
  destruct (authUsers s !! k) as [v0|] eqn:Hk; simpl.
  - destruct (DataLoader.destructure_first v0) as [[m|]|e]; simpl;
      try destruct (User.token_invalidate m); simpl; try exact Hk';
      unfold DataLoader.prime; rewrite Hk; exact Hk'.
  - unfold DataLoader.prime. rewrite Hk.
    rewrite lookup_insert_ne; [exact Hk'|]. intros ->. congruence.
Qed.

Lemma userFromDataLoader_caches_key s k :
  is_Some (authUsers (fst (userFromDataLoader s k)) !! k).
Proof.
  unfold userFromDataLoader. rewrite load_authUsers.
  destruct (authUsers s !! k) as [v0|] eqn:Hk; simpl.
  - destruct (DataLoader.destructure_first v0) as [[m|]|e]; simpl;
      try destruct (User.token_invalidate m); simpl;
      unfold DataLoader.prime; rewrite ?Hk; eauto.
  - unfold DataLoader.prime. rewrite Hk, lookup_insert_eq. eauto.
Qed.

Lemma userFromDataLoader_db s k : db (fst (userFromDataLoader s k)) = db s.
Proof.
  unfold userFromDataLoader.
  destruct (DataLoader.load _ _ _) as [c r].
  destruct (r ≫= _) as [[m|]|e]; try destruct (User.token_invalidate m); reflexivity.
Qed.

Lemma userFromDataLoader_user s k : user (fst (userFromDataLoader s k)) = user s.
Proof.
  unfold userFromDataLoader.
  destruct (DataLoader.load _ _ _) as [c r].
  destruct (r ≫= _) as [[m|]|e]; try destruct (User.token_invalidate m); reflexivity.
Qed.

End Loader.

(** C5 (evaluation at the failing input).  On a freshly booted server whose
    table holds [alice], two calls of [userFromDataLoader] for her key in a
    row both return her record and issue two store queries, not one: the
    value primed after the first call is the model itself, which the array
    pattern of the second call cannot destructure.  Clearing the key and
    loading again issues one more query. *)
Theorem C5_second_load_queries_store_again :
  let s0 := boot Reference.table in
  let '(s1, first) := JwtIdentity.userFromDataLoader s0 "key-alice" in
  let '(s2, second) := JwtIdentity.userFromDataLoader s1 "key-alice" in
  let s3 := mkServer (db s2) (DataLoader.clear (authUsers s2) "key-alice")
                     (user s2) (fetches s2) in
  let '(s4, third) := JwtIdentity.userFromDataLoader s3 "key-alice" in
  first = Some Reference.alice
  /\ second = Some Reference.alice
  /\ authUsers s1 !! "key-alice" = Some (DataLoader.VModel Reference.alice)
  /\ fetches s1 = ["key-alice"]
  /\ fetches s2 = ["key-alice"; "key-alice"]
  /\ fetches s4 = "key-alice" :: fetches s3.
Proof. vm_compute. repeat split; reflexivity. Qed.

(* ===================================================================== *)
(** * Properties of the token codec *)
(* ===================================================================== *)

Section Codec.
Context `{Platform}.
Import Jwt JwtIdentity.

Lemma decodeToken_failure cfg now token e :
  decodeToken cfg now token = Throw e ->
  exists message, e = AuthError message 400 "Bad Request".
Proof.
  unfold decodeToken.
  destruct (match token with Token _ => _ | ErrorValue _ => _ end) as [m|p];
    [|discriminate].
  intros [= <-]. eexists. reflexivity.
Qed.

Lemma verify_accepts cfg now t j :
  t <> "" -> jws_decode t = Some j -> acceptable cfg now j ->
  JwtLib.verify (jwt_secret cfg) now t (decode_options cfg) = inr (payload j).
Proof.
  intros Ht Hj (Halg & Hkey & [Hnbf Hexp] & Haud & Hiss & Hjti).
  unfold JwtLib.verify. apply String.eqb_neq in Ht. rewrite Ht, Hj. cbv zeta.
  rewrite Halg, Hkey, String.eqb_refl. simpl.
  destruct (Z.ltb_spec now (nbf (payload j))); [lia|].
  destruct (Z.leb_spec (exp (payload j)) now); [lia|].
  destruct (JwtLib.given (uri_baseUrl cfg));
    [rewrite bool_decide_eq_true_2 by auto|]; simpl;
    (destruct (JwtLib.given (uri_url cfg));
     [rewrite bool_decide_eq_true_2 by auto|]); simpl;
    (destruct (JwtLib.given (auth_jwt_claims_jti cfg));
     [rewrite bool_decide_eq_true_2 by auto|]); reflexivity.
Qed.

Lemma verify_sound cfg now t p :
  JwtLib.verify (jwt_secret cfg) now t (decode_options cfg) = inr p ->
  t <> "" /\ exists j, jws_decode t = Some j /\ payload j = p /\ acceptable cfg now j.
Proof.
  unfold JwtLib.verify.
  destruct (String.eqb_spec t ""); [discriminate|].
  destruct (jws_decode t) as [j|]; [|discriminate]. simpl.
  destruct (String.eqb (alg j) "none"); [discriminate|].
  destruct (bool_decide (alg j ∈ ["HS512"])) eqn:Halg; [|discriminate].
  destruct (String.eqb_spec (signed_with j) (jwt_secret cfg)); [|discriminate].
  simpl.
  destruct (Z.ltb_spec now (nbf (payload j))); [discriminate|].
  destruct (Z.leb_spec (exp (payload j)) now); [discriminate|].
  destruct (JwtLib.given (uri_baseUrl cfg) && _) eqn:Haud; [discriminate|].
  destruct (JwtLib.given (uri_url cfg) && _) eqn:Hiss; [discriminate|].
  destruct (JwtLib.given (auth_jwt_claims_jti cfg) && _) eqn:Hjti; [discriminate|].
  intros [= <-]. split; [assumption|]. exists j. split; [reflexivity|].
  split; [reflexivity|].
  apply bool_decide_eq_true in Halg. apply list_elem_of_singleton in Halg.
  repeat split; try assumption; try lia.
  - intros Hg. rewrite Hg in Haud. simpl in Haud.
    apply negb_false_iff, bool_decide_eq_true in Haud. exact Haud.
  - intros Hg. rewrite Hg in Hiss. simpl in Hiss.
    apply negb_false_iff, bool_decide_eq_true in Hiss. exact Hiss.
  - intros Hg. rewrite Hg in Hjti. simpl in Hjti.
    apply negb_false_iff, bool_decide_eq_true in Hjti. exact Hjti.
Qed.

(** An expired token, or one that is not active yet, is refused by the
    codec itself, whatever else holds of it. *)
Lemma decodeToken_refuses_outside_window cfg now t j :
  jws_decode t = Some j ->
  now < nbf (payload j) \/ exp (payload j) <= now ->
  exists message, decodeToken cfg now (Token t) = Throw (AuthError message 400 "Bad Request").
Proof.
  intros Hj Hwin.
  destruct (decodeToken cfg now (Token t)) as [p|e] eqn:Hd.
  - exfalso. unfold decodeToken in Hd.
    destruct (JwtLib.verify _ _ _ _) as [m|p'] eqn:Hv; [discriminate|].
    apply verify_sound in Hv. destruct Hv as (_ & j' & Hj' & _ & Hacc).
    rewrite Hj in Hj'. injection Hj' as <-.
    destruct Hacc as (_ & _ & Hw & _). lia.
  - destruct (decodeToken_failure _ _ _ _ Hd) as [m ->]. eauto.
Qed.

Lemma read_atom_date t : atom_date t -> read_atom t = Some t.
Proof.
  intros [Hlo Hhi]. unfold read_atom.
  apply Z.leb_le in Hlo. apply Z.ltb_lt in Hhi. rewrite Hlo, Hhi. reflexivity.
Qed.

Lemma read_atom_Some t t' : read_atom t = Some t' -> t' = t /\ atom_date t.
Proof.
  unfold read_atom, atom_date.
  destruct (Z.leb_spec ATOM_FIRST t); [|discriminate].
  destruct (Z.ltb_spec t ATOM_END); [|discriminate].
  intros [= <-]. auto.
Qed.

(** What [createToken] issues when the three times are dates: the signed
    claims of [issued_claims]. *)
Lemma createToken_dates cfg t0 authKey role :
  atom_date t0 ->
  atom_date (nbf (issued_claims cfg t0 authKey role)) ->
  atom_date (exp (issued_claims cfg t0 authKey role)) ->
  createToken cfg t0 authKey role
  = Some {| auth_token := JwtLib.sign (jwt_secret cfg) "HS512"
                            (issued_claims cfg t0 authKey role);
            issued_at := t0;
            expires_at := exp (issued_claims cfg t0 authKey role) |}.
Proof.
  intros H0 Hnbf Hexp. unfold createToken, getNotBeforeDateTime, getExpirationDateTime.
  rewrite (read_atom_date t0 H0). cbn [mbind option_bind].
  cbn [issued_claims nbf exp] in Hnbf, Hexp.
  rewrite (read_atom_date _ Hnbf), (read_atom_date _ Hexp). reflexivity.
Qed.

Lemma createToken_Some cfg t0 authKey role issued :
  createToken cfg t0 authKey role = Some issued ->
  issued = {| auth_token := JwtLib.sign (jwt_secret cfg) "HS512"
                              (issued_claims cfg t0 authKey role);
              issued_at := t0;
              expires_at := exp (issued_claims cfg t0 authKey role) |}
  /\ atom_date t0
  /\ atom_date (nbf (issued_claims cfg t0 authKey role))
  /\ atom_date (exp (issued_claims cfg t0 authKey role)).
Proof.
  unfold createToken, getNotBeforeDateTime, getExpirationDateTime.
  destruct (read_atom t0) as [t|] eqn:H0; [|discriminate].
  apply read_atom_Some in H0 as [-> H0]. cbn [mbind option_bind].
  destruct (read_atom (t0 + getConfig (session_jwt_notBeforeSeconds cfg) 0))
    as [n|] eqn:Hn; [|discriminate].
  apply read_atom_Some in Hn as [-> Hn].
  destruct (read_atom (t0 + getConfig (session_jwt_expireAfterDays cfg) 15 * 86400))
    as [x|] eqn:Hx; [|discriminate].
  apply read_atom_Some in Hx as [-> Hx].
  intros [= <-]. auto.
Qed.

(** Round trip, where the configuration is consistent: the claims issued
    at [t0], signed, decode inside their validity window to themselves. *)
Lemma roundtrip_when_jti_agree `{!PlatformLaws H} cfg t0 now authKey role :
  jti_agree cfg ->
  nbf (issued_claims cfg t0 authKey role) <= now
    < exp (issued_claims cfg t0 authKey role) ->
  decodeToken cfg now
    (Token (JwtLib.sign (jwt_secret cfg) "HS512" (issued_claims cfg t0 authKey role)))
    = Ok (issued_claims cfg t0 authKey role).
Proof.
  intros Hjti Hwin. unfold decodeToken.
  rewrite (verify_accepts cfg now _
             {| alg := "HS512"; signed_with := jwt_secret cfg;
                payload := issued_claims cfg t0 authKey role |}).
  - reflexivity.
  - apply jws_encode_nonempty.
  - apply jws_decode_encode.
  - repeat split; simpl; try tauto; try lia.
    intros Hg. apply Hjti. exact Hg.
Qed.

End Codec.

Section ReferenceLaws.
Import Reference.

Lemma pos_of_bits_of_pos p : pos_of_bits (bits_of_pos p) = Some p.
Proof. induction p as [q IH|q IH|]; simpl; rewrite ?IH; reflexivity. Qed.

Lemma decode_encode_jws j : decode_jws (encode_jws j) = Some j.
Proof.
  unfold decode_jws, encode_jws. rewrite pos_of_bits_of_pos. simpl.
  apply decode_encode.
Qed.

Lemma encode_jws_nonempty j : encode_jws j <> "".
Proof. discriminate. Qed.

#[global] Instance platform_laws : PlatformLaws platform.
Proof. constructor; [exact decode_encode_jws|exact encode_jws_nonempty]. Qed.

End ReferenceLaws.

(** C6 (counterexample).  The token issued to [alice] carries a valid
    signature, issuer, audience and token id: one hundred seconds after
    issue [decodeToken] returns its claims.  Decoded after its expiry, the
    same token is refused with Bad Request instead of being returned; so is
    a well-signed token whose not-before time is still ahead. *)
Lemma C6_expired_token_is_refused :
  let t := Reference.token_for Reference.alice 3 in
  let early :=
    JwtLib.sign (jwt_secret Reference.cfg) "HS512"
      (Jwt.mkPayload (uri_url Reference.cfg) (uri_baseUrl Reference.cfg)
         (Some "login") (Some "auth") 1700000000 1700000600 1701296000 "key-alice" 3) in
  (exists claims,
     JwtIdentity.decodeToken Reference.cfg 1700000100 (JwtIdentity.Token t) = Ok claims
     /\ Jwt.exp claims = 1701296000)
  /\ JwtIdentity.decodeToken Reference.cfg 1800000000 (JwtIdentity.Token t)
     = Throw (AuthError "jwt expired" 400 "Bad Request")
  /\ JwtIdentity.decodeToken Reference.cfg 1700000100 (JwtIdentity.Token early)
     = Throw (AuthError "jwt not active" 400 "Bad Request").
Proof.
  split; [eexists; split; vm_compute; reflexivity|].
  split; vm_compute; reflexivity.
Qed.

(** C6 (amended).  [decodeToken] returns the claims of a token exactly when
    the token is signed with HS512 under the server's key, the clock is
    inside its not-before/expiry window, and its audience, issuer and token
    id equal the configured ones wherever one is configured; every refusal
    is a 400 Bad Request, in particular that of a token outside its window.
    Role and invalidation play no part in it. *)
Theorem C6_decodeToken_checks_window `{Platform} (cfg : Config) (now : Z) (t : string) :
  (forall p, JwtIdentity.decodeToken cfg now (JwtIdentity.Token t) = Ok p <->
             t <> "" /\ exists j, jws_decode t = Some j /\ Jwt.payload j = p
                                  /\ acceptable cfg now j)
  /\ (forall e, JwtIdentity.decodeToken cfg now (JwtIdentity.Token t) = Throw e ->
                exists message, e = AuthError message 400 "Bad Request")
  /\ (forall j, jws_decode t = Some j ->
                now < Jwt.nbf (Jwt.payload j) \/ Jwt.exp (Jwt.payload j) <= now ->
                exists message,
                  JwtIdentity.decodeToken cfg now (JwtIdentity.Token t)
                  = Throw (AuthError message 400 "Bad Request")).
Proof.
  split; [|split].
  - intros p. split.
    + unfold JwtIdentity.decodeToken.
      destruct (JwtLib.verify _ _ _ _) as [m|p'] eqn:Hv; [discriminate|].
      intros [= <-]. apply verify_sound. exact Hv.
    + intros (Ht & j & Hj & <- & Hacc). unfold JwtIdentity.decodeToken.
      rewrite (verify_accepts cfg now t j Ht Hj Hacc). reflexivity.
  - intros e. apply decodeToken_failure.
  - intros j. apply decodeToken_refuses_outside_window.
Qed.

(** C6, run on the token issued to [alice]: accepted inside the window,
    refused after expiry. *)
Lemma C6_decodeToken_witness :
  let t := Reference.token_for Reference.alice 3 in
  (exists p, JwtIdentity.decodeToken Reference.cfg 1700000100 (JwtIdentity.Token t) = Ok p)
  /\ exists message,
       JwtIdentity.decodeToken Reference.cfg 1800000000 (JwtIdentity.Token t)
       = Throw (AuthError message 400 "Bad Request").
Proof.
  intros t.
  pose (j := Jwt.mkJws "HS512" (jwt_secret Reference.cfg)
               (issued_claims Reference.cfg Reference.issued_on "key-alice" 3)).
  assert (jws_decode t = Some j) as Hj by apply decode_encode_jws.
  split.
  - exists (Jwt.payload j).
    apply (proj1 (C6_decodeToken_checks_window Reference.cfg 1700000100 t)).
    split; [discriminate|]. exists j. split; [exact Hj|]. split; [reflexivity|].
    unfold acceptable. simpl. repeat split; try reflexivity; try discriminate.
  - apply (proj2 (proj2 (C6_decodeToken_checks_window Reference.cfg 1800000000 t)) j Hj).
    right. vm_compute. discriminate.
Defined.

(** C7 (counterexample).  Under a configuration whose
    [auth.jwt.claims.jti] differs from [session.jwt.claims.jti] the token that
    [createToken] has just issued is refused by [decodeToken] inside its
    validity window: the issuer writes the token id of one entry and the
    verifier expects that of the other. *)
Lemma C7_issued_token_refused_when_jti_entries_differ :
  let split_cfg :=
    mkConfig (uri_url Reference.cfg) (uri_baseUrl Reference.cfg)
      (Some "api") None (Some "login") (Some "auth") (Some 15) (Some 0)
      (jwt_secret Reference.cfg) in
  exists issued,
    JwtIdentity.createToken split_cfg 1700000000 "key-alice" 3 = Some issued
    /\ JwtIdentity.issued_at issued <= 1700000100 < JwtIdentity.expires_at issued
    /\ JwtIdentity.decodeToken split_cfg 1700000100
         (JwtIdentity.Token (JwtIdentity.auth_token issued))
       = Throw (AuthError "jwt jwtid invalid. expected: api" 400 "Bad Request").
Proof.
  eexists. split; [vm_compute; reflexivity|].
  split; [vm_compute; split; [discriminate|reflexivity]|].
  vm_compute. reflexivity.
Qed.

(** C7 (amended).  Round trip: where the token id that the verifier
    expects ([auth.jwt.claims.jti]) is unset or equal to the one the issuer
    writes ([session.jwt.claims.jti]), and the issue time, the not-before
    time and the expiry time are dates with a year of four digits (the
    dates that the issuer's [DATE_ATOM] texts round-trip), [createToken] at
    [t0] issues for a key and a role a token that decodes, at any clock from
    its not-before time up to but excluding its expiry, to claims whose
    [idt] is the key and whose [rol] is the role, and whose times are the
    issued ones. *)
Theorem C7_roundtrip_when_token_ids_agree `{Platform} `{!PlatformLaws H}
    (cfg : Config) (t0 now : Z) (authKey : string) (role : Z) :
  let notBefore := t0 + JwtIdentity.getConfig (session_jwt_notBeforeSeconds cfg) 0 in
  let expireOn := t0 + JwtIdentity.getConfig (session_jwt_expireAfterDays cfg) 15 * 86400 in
  jti_agree cfg ->
  atom_date t0 -> atom_date notBefore -> atom_date expireOn ->
  notBefore <= now < expireOn ->
  exists issued claims,
    JwtIdentity.createToken cfg t0 authKey role = Some issued
    /\ JwtIdentity.issued_at issued = t0
    /\ JwtIdentity.expires_at issued = expireOn
    /\ JwtIdentity.decodeToken cfg now
         (JwtIdentity.Token (JwtIdentity.auth_token issued)) = Ok claims
    /\ Jwt.idt claims = authKey /\ Jwt.rol claims = role
    /\ Jwt.iat claims = t0 /\ Jwt.nbf claims = notBefore /\ Jwt.exp claims = expireOn.
Proof.
  intros notBefore expireOn Hjti H0 Hnbf Hexp Hwin.
  eexists _, (issued_claims cfg t0 authKey role).
  split; [apply (createToken_dates cfg t0 authKey role H0 Hnbf Hexp)|].
  cbn [JwtIdentity.issued_at JwtIdentity.expires_at JwtIdentity.auth_token].
  split; [reflexivity|]. split; [reflexivity|].
  split; [apply roundtrip_when_jti_agree; assumption|].
  repeat split; reflexivity.
Qed.

(** C7, run: the token issued to key [key-alice] with role 3 under the
    reference configuration, decoded one hundred seconds later. *)
Lemma C7_roundtrip_witness :
  exists issued claims,
    JwtIdentity.createToken Reference.cfg 1700000000 "key-alice" 3 = Some issued
    /\ JwtIdentity.issued_at issued = 1700000000
    /\ JwtIdentity.expires_at issued = 1700000000 + 15 * 86400
    /\ JwtIdentity.decodeToken Reference.cfg 1700000100
         (JwtIdentity.Token (JwtIdentity.auth_token issued)) = Ok claims
    /\ Jwt.idt claims = "key-alice" /\ Jwt.rol claims = 3
    /\ Jwt.iat claims = 1700000000 /\ Jwt.nbf claims = 1700000000 + 0
    /\ Jwt.exp claims = 1700000000 + 15 * 86400.
Proof.
  apply (C7_roundtrip_when_token_ids_agree Reference.cfg 1700000000 1700000100 "key-alice" 3).
  - intros Hgiven. vm_compute in Hgiven. discriminate Hgiven.
  - vm_compute. split; [discriminate|reflexivity].
  - vm_compute. split; [discriminate|reflexivity].
  - vm_compute. split; [discriminate|reflexivity].
  - vm_compute. split; [discriminate|reflexivity].
Defined.

(** A lifetime that carries the expiry past the year 9999: the expiry
    date is not read back, and the token is issued without a numeric
    expiry. *)
Example long_lifetime_example :
  let long_cfg :=
    mkConfig (uri_url Reference.cfg) (uri_baseUrl Reference.cfg)
      None None (Some "login") (Some "auth") (Some 3000000) (Some 0)
      (jwt_secret Reference.cfg) in
  JwtIdentity.getExpirationDateTime long_cfg 1700000000 = Some 260900000000
  /\ JwtIdentity.read_atom 260900000000 = None
  /\ JwtIdentity.createToken long_cfg 1700000000 "key-alice" 3 = None.
Proof. repeat split; vm_compute; reflexivity. Qed.

(* ===================================================================== *)
(** * Properties of the identity resolver and of the hook *)
(* ===================================================================== *)

Section Resolver.
Context `{Platform}.
Import Jwt JwtIdentity AuthDecorator.

Lemma validate_failure model decoded e :
  validate model decoded = Throw e -> resolver_error e.
Proof.
  unfold validate, resolver_error.
  destruct (negb (User.validateStatusOnLogin _)); [intros [= <-]; eauto|].
  destruct (User.token_invalidate model); [intros [= <-]; eauto|].
  destruct (negb (rol decoded =? User.role model)); [intros [= <-]; eauto|].
  discriminate.
Qed.

Lemma findIdentityByToken_failure cfg now s token e :
  snd (findIdentityByToken cfg now s token) = Throw e -> resolver_error e.
Proof.
  unfold findIdentityByToken.
  destruct (decodeToken cfg now token) as [decoded|e'] eqn:Hd; simpl.
  - destruct (userFromDataLoader s (idt decoded)) as [s' [m|]]; simpl.
    + apply validate_failure.
    + intros [= <-]. unfold resolver_error. eauto.
  - intros [= <-]. destruct (decodeToken_failure _ _ _ _ Hd) as [m ->].
    unfold resolver_error. eauto.
Qed.

Lemma findIdentityByToken_found cfg now s token decoded s' model :
  decodeToken cfg now token = Ok decoded ->
  userFromDataLoader s (idt decoded) = (s', Some model) ->
  findIdentityByToken cfg now s token = (s', validate model decoded).
Proof.
  intros Hd Hu. unfold findIdentityByToken. rewrite Hd, Hu. reflexivity.
Qed.

(** The hook never fails, and leaves a guest behind whenever the
    resolution failed. *)
Lemma onRequest_settles cfg now s req : snd (onRequest cfg now s req) = Ok tt.
Proof.
  unfold onRequest.
  destruct (findIdentityByToken _ _ _ _) as [s' [[m d]|e]]; reflexivity.
Qed.

Lemma onRequest_failure cfg now s req e :
  snd (findIdentityByToken cfg now s (getTokenFromAll req)) = Throw e ->
  user (fst (onRequest cfg now s req)) = guest_user.
Proof.
  unfold onRequest.
  destruct (findIdentityByToken _ _ _ _) as [s' [[m d]|e']]; simpl;
    [discriminate|reflexivity].
Qed.

Lemma onRequest_success cfg now s req m d :
  snd (findIdentityByToken cfg now s (getTokenFromAll req)) = Ok (m, d) ->
  user (fst (onRequest cfg now s req))
  = {| isGuest := false; identity := Some m; user_id := Some (User.id m) |}.
Proof.
  unfold onRequest.
  destruct (findIdentityByToken _ _ _ _) as [s' [[m' d']|e']]; simpl;
    [|discriminate].
  intros [= <- <-]. reflexivity.
Qed.

Lemma findIdentityByToken_cache_grows cfg now s token k v :
  authUsers s !! k = Some v ->
  authUsers (fst (findIdentityByToken cfg now s token)) !! k = Some v.
Proof.
  intros Hk. unfold findIdentityByToken.
  destruct (decodeToken cfg now token) as [decoded|e]; [|exact Hk].
  pose proof (userFromDataLoader_cache_grows s (idt decoded) k v Hk) as Hg.
  destruct (userFromDataLoader s (idt decoded)) as [s' [m|]]; exact Hg.
Qed.

Lemma findIdentityByToken_caches_key cfg now s token decoded :
  decodeToken cfg now token = Ok decoded ->
  is_Some (authUsers (fst (findIdentityByToken cfg now s token)) !! idt decoded).
Proof.
  intros Hd. unfold findIdentityByToken. rewrite Hd.
  pose proof (userFromDataLoader_caches_key s (idt decoded)) as Hc.
  destruct (userFromDataLoader s (idt decoded)) as [s' [m|]]; exact Hc.
Qed.

Lemma onRequest_authUsers cfg now s req :
  authUsers (fst (onRequest cfg now s req))
  = authUsers (fst (findIdentityByToken cfg now s (getTokenFromAll req))).
Proof.
  unfold onRequest.
  destruct (findIdentityByToken _ _ _ _) as [s' [[m d]|e]]; reflexivity.
Qed.

Lemma findIdentityByToken_keeps_plain cfg now s token :
  plain_cache (authUsers s) ->
  plain_cache (authUsers (fst (findIdentityByToken cfg now s token))).
Proof.
  intros Hplain. unfold findIdentityByToken.
  destruct (decodeToken cfg now token) as [decoded|e]; [|exact Hplain].
  pose proof (userFromDataLoader_keeps_plain s (idt decoded) Hplain) as Hk.
  destruct (userFromDataLoader s (idt decoded)) as [s' [m|]]; exact Hk.
Qed.

(** On every reachable state the cache holds models and [null] only, so
    every lookup of the loader ends in a store query. *)
Lemma reachable_plain cfg rows s :
  reachable cfg rows s -> plain_cache (authUsers s).
Proof.
  induction 1 as [|s now req Hs IH|s Hs IH].
  - apply plain_empty.
  - rewrite onRequest_authUsers. apply findIdentityByToken_keeps_plain. exact IH.
  - unfold Logout.logout. destruct (identity (user s)) as [m|]; [|exact IH].
    intros k v. cbn [fst authUsers]. unfold DataLoader.clear.
    rewrite lookup_delete. case_decide; [discriminate|]. apply IH.
Qed.

Lemma reachable_always_fetches cfg rows s k :
  reachable cfg rows s ->
  fetches (fst (userFromDataLoader s k)) = k :: fetches s
  /\ snd (userFromDataLoader s k) = findByAuthKey (db s) k.
Proof.
  intros Hs. rewrite (userFromDataLoader_plain s k (reachable_plain cfg rows s Hs)).
  split; reflexivity.
Qed.

(** On reachable states the outcome of a resolution is a function of the
    table, the clock and the token: what earlier requests left in the cache
    plays no part in it. *)
Lemma resolution_reads_table_only cfg rows1 rows2 s1 s2 now token :
  reachable cfg rows1 s1 -> reachable cfg rows2 s2 -> db s1 = db s2 ->
  snd (findIdentityByToken cfg now s1 token) = snd (findIdentityByToken cfg now s2 token).
Proof.
  intros H1 H2 Hdb. unfold findIdentityByToken.
  destruct (decodeToken cfg now token) as [decoded|e]; [|reflexivity].
  rewrite (userFromDataLoader_plain s1 _ (reachable_plain _ _ _ H1)).
  rewrite (userFromDataLoader_plain s2 _ (reachable_plain _ _ _ H2)).
  rewrite Hdb. destruct (findByAuthKey (db s2) (idt decoded)); reflexivity.
Qed.

(** The resolution reads the table and the cache, not [fastify.user]. *)
Lemma userFromDataLoader_ignores_user s u k :
  snd (userFromDataLoader (set_user s u) k) = snd (userFromDataLoader s k).
Proof.
  unfold userFromDataLoader, set_user. simpl.
  destruct (DataLoader.load _ _ _) as [c r].
  destruct (r ≫= _) as [[m|]|e]; try destruct (User.token_invalidate m); reflexivity.
Qed.

Lemma findIdentityByToken_ignores_user cfg now s u token :
  snd (findIdentityByToken cfg now (set_user s u) token)
  = snd (findIdentityByToken cfg now s token).
Proof.
  unfold findIdentityByToken.
  destruct (decodeToken cfg now token) as [decoded|e]; [|reflexivity].
  pose proof (userFromDataLoader_ignores_user s u (idt decoded)) as Hu.
  destruct (userFromDataLoader (set_user s u) (idt decoded)) as [s1 m1].
  destruct (userFromDataLoader s (idt decoded)) as [s2 m2].
  simpl in Hu. subst m2. destruct m1; reflexivity.
Qed.

End Resolver.

(** C1.  When the token decodes to [decoded] and the loader finds [model],
    [findIdentityByToken] applies three checks in this order and stops at
    the first that fails: a status other than active is 401 Unauthorized
    ("Your account has been" and the lower-cased status), whatever the
    invalidation flag and the role claim are; then a set invalidation flag
    is 400 Bad Request, whatever the role claim is; then a role claim other
    than the model's role is 401 Unauthorized ("Ineligible user role");
    otherwise the pair of the model and the claims is returned. *)
Theorem C1_validate_checks_in_order `{Platform}
    (cfg : Config) (now : Z) (s s' : Server) (token : JwtIdentity.extracted)
    (decoded : Jwt.Payload) (model : User.t) :
  JwtIdentity.decodeToken cfg now token = Ok decoded ->
  JwtIdentity.userFromDataLoader s (Jwt.idt decoded) = (s', Some model) ->
  let outcome := snd (JwtIdentity.findIdentityByToken cfg now s token) in
  (User.status model <> User.STATUS_ACTIVE ->
   outcome = Throw (AuthError
                      ("Your account has been "
                       ++ JS.toLowerCase (toStatus (User.status model)))
                      401 "Unauthorized"))
  /\ (User.status model = User.STATUS_ACTIVE ->
      User.token_invalidate model = true ->
      outcome = Throw (AuthError
                         "Access token is expired, disabled, or deleted, or the user has globally signed out"
                         400 "Bad Request"))
  /\ (User.status model = User.STATUS_ACTIVE ->
      User.token_invalidate model = false ->
      Jwt.rol decoded <> User.role model ->
      outcome = Throw (AuthError "Ineligible user role" 401 "Unauthorized"))
  /\ (User.status model = User.STATUS_ACTIVE ->
      User.token_invalidate model = false ->
      Jwt.rol decoded = User.role model ->
      outcome = Ok (model, decoded)).
Proof.
  intros Hd Hu outcome. subst outcome.
  rewrite (findIdentityByToken_found cfg now s token decoded s' model Hd Hu). simpl.
  unfold JwtIdentity.validate, User.validateStatusOnLogin.
  repeat split.
  - intros Hst. destruct (Z.eqb_spec User.STATUS_ACTIVE (User.status model));
      [congruence|reflexivity].
  - intros -> ->. reflexivity.
  - intros -> -> Hrol. rewrite Z.eqb_refl. simpl.
    destruct (Z.eqb_spec (Jwt.rol decoded) (User.role model)); [contradiction|reflexivity].
  - intros -> -> ->. rewrite !Z.eqb_refl. reflexivity.
Qed.

(** C1, run on the reference table: [bob]'s account is blocked, [carol]
    has signed out everywhere, [alice] presents a token issued for another
    role, and then her own. *)
Lemma C1_validate_witness :
  let resolve u role :=
    snd (JwtIdentity.findIdentityByToken Reference.cfg 1700000100
           (boot Reference.table) (JwtIdentity.Token (Reference.token_for u role))) in
  resolve Reference.bob_blocked 3
    = Throw (AuthError "Your account has been blocked" 401 "Unauthorized")
  /\ resolve Reference.carol_signed_out 3
    = Throw (AuthError
               "Access token is expired, disabled, or deleted, or the user has globally signed out"
               400 "Bad Request")
  /\ resolve Reference.alice 1
    = Throw (AuthError "Ineligible user role" 401 "Unauthorized")
  /\ resolve Reference.alice 3
    = Ok (Reference.alice,
          issued_claims Reference.cfg Reference.issued_on "key-alice" 3).
Proof.
  intros resolve.
  pose (claims u role :=
          issued_claims Reference.cfg Reference.issued_on (User.authorization_key u) role).
  pose (after u := fst (JwtIdentity.userFromDataLoader (boot Reference.table)
                          (User.authorization_key u))).
  assert (forall u role,
            JwtIdentity.decodeToken Reference.cfg 1700000100
              (JwtIdentity.Token (Reference.token_for u role)) = Ok (claims u role)) as Hd.
  { intros u role.
    apply (roundtrip_when_jti_agree Reference.cfg Reference.issued_on 1700000100).
    - intros Hgiven. vm_compute in Hgiven. discriminate Hgiven.
    - vm_compute. split; [discriminate|reflexivity]. }
  split; [|split; [|split]].
  - assert (JwtIdentity.userFromDataLoader (boot Reference.table)
              (Jwt.idt (claims Reference.bob_blocked 3))
            = (after Reference.bob_blocked, Some Reference.bob_blocked)) as Hu
      by (vm_compute; reflexivity).
    apply (proj1 (C1_validate_checks_in_order _ _ _ _ _ _ _ (Hd _ 3) Hu)).
    vm_compute. discriminate.
  - assert (JwtIdentity.userFromDataLoader (boot Reference.table)
              (Jwt.idt (claims Reference.carol_signed_out 3))
            = (after Reference.carol_signed_out, Some Reference.carol_signed_out)) as Hu
      by (vm_compute; reflexivity).
    apply (proj1 (proj2 (C1_validate_checks_in_order _ _ _ _ _ _ _ (Hd _ 3) Hu)));
      reflexivity.
  - assert (JwtIdentity.userFromDataLoader (boot Reference.table)
              (Jwt.idt (claims Reference.alice 1))
            = (after Reference.alice, Some Reference.alice)) as Hu
      by (vm_compute; reflexivity).
    apply (proj1 (proj2 (proj2
             (C1_validate_checks_in_order _ _ _ _ _ _ _ (Hd _ 1) Hu))));
      try reflexivity.
    vm_compute. discriminate.
  - assert (JwtIdentity.userFromDataLoader (boot Reference.table)
              (Jwt.idt (claims Reference.alice 3))
            = (after Reference.alice, Some Reference.alice)) as Hu
      by (vm_compute; reflexivity).
    apply (proj2 (proj2 (proj2
             (C1_validate_checks_in_order _ _ _ _ _ _ _ (Hd _ 3) Hu))));
      reflexivity.
Defined.

(** C4 (counterexample).  After a first request with [alice]'s token, the
    server that the second request starts on still holds her record in the
    loader cache under her authorization key, and [fastify.user] is still
    her identity; a second loader lookup of the key reads that entry. *)
Lemma C4_cache_entry_survives_the_request :
  let s0 := boot Reference.table in
  let first := Reference.bearer (Reference.token_for Reference.alice 3) in
  let s1 := AuthDecorator.serve Reference.cfg s0 [(1700000100, first)] in
  authUsers s0 !! "key-alice" = None
  /\ authUsers s1 !! "key-alice" = Some (DataLoader.VModel Reference.alice)
  /\ fst (DataLoader.load DataLoader.authUsers_batch (authUsers s1) "key-alice")
     = authUsers s1
  /\ snd (DataLoader.load DataLoader.authUsers_batch (authUsers s1) "key-alice")
     = Ok (DataLoader.VModel Reference.alice)
  /\ user s1 = {| isGuest := false; identity := Some Reference.alice; user_id := Some 1 |}.
Proof. vm_compute. repeat split; reflexivity. Qed.

(** C4 (amended).  The loader cache belongs to the server, not to the
    request: the identity hook never removes an entry, so whatever is cached
    when a request starts is still cached when the next one starts, over any
    number of requests.  [fastify.user] is one object too, but the hook
    overwrites it on every request: the identity it leaves does not depend on
    the identity the previous request left. *)
Theorem C4_cache_is_server_scoped_identity_is_overwritten `{Platform}
    (cfg : Config) (s : Server) (reqs : list (Z * Request)) :
  (forall k v, authUsers s !! k = Some v ->
               authUsers (AuthDecorator.serve cfg s reqs) !! k = Some v)
  /\ (forall now req decoded,
        JwtIdentity.decodeToken cfg now (JwtIdentity.getTokenFromAll req) = Ok decoded ->
        is_Some (authUsers (AuthDecorator.serve cfg s ((now, req) :: reqs))
                 !! Jwt.idt decoded))
  /\ (forall now req previous,
        user (fst (AuthDecorator.onRequest cfg now (AuthDecorator.set_user s previous) req))
        = user (fst (AuthDecorator.onRequest cfg now s req))).
Proof.
  assert (forall reqs' s' k v, authUsers s' !! k = Some v ->
            authUsers (AuthDecorator.serve cfg s' reqs') !! k = Some v) as Hkeep.
  { induction reqs' as [|[now req] reqs' IH]; intros s' k v Hk; [exact Hk|].
    simpl. apply IH. rewrite onRequest_authUsers.
    apply findIdentityByToken_cache_grows. exact Hk. }
  split; [apply Hkeep|]. split.
  - intros now req decoded Hd. simpl.
    destruct (findIdentityByToken_caches_key cfg now s _ decoded Hd) as [v Hv].
    exists v. apply Hkeep. rewrite onRequest_authUsers. exact Hv.
  - intros now req previous. unfold AuthDecorator.onRequest.
    pose proof (findIdentityByToken_ignores_user cfg now s previous
                  (JwtIdentity.getTokenFromAll req)) as Hsame.
    destruct (JwtIdentity.findIdentityByToken cfg now (AuthDecorator.set_user s previous) _)
      as [s1 r1].
    destruct (JwtIdentity.findIdentityByToken cfg now s _) as [s2 r2].
    simpl in Hsame. subst r2. destruct r1 as [[m d]|e]; reflexivity.
Qed.

(** C4, run: an entry primed by the first of three requests is there after
    the third. *)
Lemma C4_cache_witness :
  let s0 := boot Reference.table in
  let alice_req := Reference.bearer (Reference.token_for Reference.alice 3) in
  let s1 := AuthDecorator.serve Reference.cfg s0 [(1700000100, alice_req)] in
  authUsers s1 !! "key-alice" = Some (DataLoader.VModel Reference.alice)
  /\ authUsers
       (AuthDecorator.serve Reference.cfg s1
          [(1700000200, Reference.bearer "garbage"); (1700000300, mkRequest None None)])
     !! "key-alice" = Some (DataLoader.VModel Reference.alice).
Proof.
  intros s0 alice_req s1.
  assert (authUsers s1 !! "key-alice" = Some (DataLoader.VModel Reference.alice)) as Hk
    by (vm_compute; reflexivity).
  split; [exact Hk|].
  exact (proj1 (C4_cache_is_server_scoped_identity_is_overwritten Reference.cfg s1 _) _ _ Hk).
Defined.
(* ===================================================================== *)
(** * The model run on examples *)
(* ===================================================================== *)

Example trim_example : JS.trim "  ab c	 " = "ab c".
Proof. reflexivity. Qed.
Example split_example : JS.split "_" "a_b__c" = ["a"; "b"; ""; "c"].
Proof. reflexivity. Qed.
Example number_examples :
  JS.Number "9999999999999" = JS.Finite (inject_Z 9999999999999)
  /\ JS.Number " 12.50e1 " = JS.Finite (inject_Z 125)
  /\ JS.Number "0x1F" = JS.Finite (inject_Z 31)
  /\ JS.Number "-Infinity" = JS.Infinity true
  /\ JS.Number "12ab" = JS.NaN
  /\ JS.Number "." = JS.NaN
  /\ JS.Number "" = JS.Finite (inject_Z 0)
  /\ JS.Number "0.1" = JS.Finite (3602879701896397 # 36028797018963968)
  /\ JS.Number "1e-400" = JS.Finite (inject_Z 0)
  /\ JS.Number "1e400" = JS.Infinity false
  /\ JS.Number "1699996400.0000001" = JS.Finite (inject_Z 1699996400)
  /\ JS.Number "9007199254740993" = JS.Finite (inject_Z 9007199254740992)
  /\ JS.add_int (JS.Number "9007199254740992") 1 = JS.Finite (inject_Z 9007199254740992).
Proof. repeat split; vm_compute; reflexivity. Qed.
Example token_getter_examples :
  JwtIdentity.getTokenFromAll (mkRequest (Some "Bearer  abc.def ") (Some "auth_token=xyz"))
    = JwtIdentity.Token "abc.def"
  /\ JwtIdentity.getTokenFromAll (mkRequest None (Some "lang=en; auth_token=xyz"))
    = JwtIdentity.Token "xyz"
  /\ JwtIdentity.getTokenFromAll (mkRequest (Some "  ") (Some "lang=en"))
    = JwtIdentity.ErrorValue (AuthError "Token was empty" 400 "Bad Request")
  /\ JwtIdentity.getTokenFromAll (mkRequest None None)
    = JwtIdentity.ErrorValue (AuthError "Authorization required" 401 "Unauthorized").
Proof. repeat split; vm_compute; reflexivity. Qed.
Example logout_scenario :
  let token := Reference.token_for Reference.alice 3 in
  let s1 := fst (AuthDecorator.onRequest Reference.cfg 1700000100
                   (boot Reference.table) (Reference.bearer token)) in
  let s2 := fst (Logout.logout s1) in
  isGuest (user s1) = false
  /\ authUsers s2 !! "key-alice" = None
  /\ snd (JwtIdentity.findIdentityByToken Reference.cfg 1700000200 s2
            (JwtIdentity.Token token))
     = Throw (AuthError
                "Access token is expired, disabled, or deleted, or the user has globally signed out"
                400 "Bad Request")
  /\ user (fst (AuthDecorator.onRequest Reference.cfg 1700000200 s2
                  (Reference.bearer token))) = guest_user.
Proof. vm_compute. repeat split; reflexivity. Qed.
Example reset_examples :
  UserSecurityTrait.isPasswordResetTokenValid 1700000000 "" (UserSecurityTrait.mkOptions (Some 3600)) = false
  /\ UserSecurityTrait.isPasswordResetTokenValid 1700000000 "abc_9999999999999" (UserSecurityTrait.mkOptions (Some 3600)) = true
  /\ UserSecurityTrait.isPasswordResetTokenValid 1700000000 "abc_1699999000" (UserSecurityTrait.mkOptions None) = true
  /\ UserSecurityTrait.isPasswordResetTokenValid 1700000000 "abc_1699990000" (UserSecurityTrait.mkOptions None) = false
  /\ UserSecurityTrait.isPasswordResetTokenValid 1700000000 "abc_0" (UserSecurityTrait.mkOptions (Some 2000000000)) = false.
Proof. repeat split; vm_compute; reflexivity. Qed.
(** A timestamp too small for a double converts to zero and is refused; a
    fraction below the precision of a double is lost before the window is
    added; a no-break space at the end of the token is trimmed; and beyond
    [2^53] the sum with the window is rounded. *)
Example reset_examples_in_doubles :
  UserSecurityTrait.isPasswordResetTokenValid 1700000000 "abc_1e-400" (UserSecurityTrait.mkOptions (Some 2000000000)) = false
  /\ UserSecurityTrait.isPasswordResetTokenValid 1700000000 "abc_1699996400.0000001" (UserSecurityTrait.mkOptions (Some 3600)) = false
  /\ UserSecurityTrait.isPasswordResetTokenValid 1700000000 "abc_1699996400.000001" (UserSecurityTrait.mkOptions (Some 3600)) = true
  /\ UserSecurityTrait.isPasswordResetTokenValid 1700000000
       ("abc_1699999000" ++ String (ascii_of_nat 160) "") (UserSecurityTrait.mkOptions None) = true
  /\ UserSecurityTrait.isPasswordResetTokenValid 9007199254740992 "abc_9007199254740992" (UserSecurityTrait.mkOptions (Some 1)) = false.
Proof. repeat split; vm_compute; reflexivity. Qed.


(* ===================================================================== *)
(** * Properties of the arithmetic of doubles *)
(* ===================================================================== *)

Section Doubles.
Import JS.

Lemma round_half_even_1 a : round_half_even a 1 = a.
Proof.
  unfold round_half_even. rewrite Z.mod_1_r, Z.div_1_r. reflexivity.
Qed.

Lemma round_half_even_le a b M : 0 < b -> a <= M * b -> round_half_even a b <= M.
Proof.
  intros Hb Ha. unfold round_half_even.
  pose proof (Z.div_mod a b ltac:(lia)) as Hdm.
  pose proof (Z.mod_pos_bound a b Hb) as Hr.
  set (q := a / b) in *. set (r := a mod b) in *.
  assert (q <= M) as Hq by nia.
  destruct (Z.ltb_spec (2 * r) b); [exact Hq|].
  assert (q < M) by nia.
  destruct (Z.ltb_spec b (2 * r)); [lia|]. destruct (Z.even q); lia.
Qed.

Lemma round_half_even_ge a b M : 0 < b -> M * b <= a -> M <= round_half_even a b.
Proof.
  intros Hb Ha. unfold round_half_even.
  pose proof (Z.div_mod a b ltac:(lia)) as Hdm.
  pose proof (Z.mod_pos_bound a b Hb) as Hr.
  set (q := a / b) in *. set (r := a mod b) in *.
  assert (M <= q) as Hq by nia.
  destruct (2 * r <? b); [exact Hq|].
  destruct (b <? 2 * r); [lia|]. destruct (Z.even q); lia.
Qed.

Lemma round_half_even_nonneg a b : 0 <= a -> 0 < b -> 0 <= round_half_even a b.
Proof.
  intros Ha Hb. unfold round_half_even.
  assert (0 <= a / b) by (apply Z.div_pos; lia).
  destruct (2 * (a mod b) <? b); [assumption|].
  destruct (b <? 2 * (a mod b)); [lia|]. destruct (Z.even (a / b)); lia.
Qed.

Lemma Qred_inject_Z z : Qred (inject_Z z) = inject_Z z.
Proof. apply Qred_identity. cbn. apply Z.gcd_1_r. Qed.

Lemma dyadic_scaled z p :
  p <= 0 -> Qred (dyadic (z * 2 ^ (- p)) p) = inject_Z z.
Proof.
  intros Hp. rewrite <- (Qred_inject_Z z). apply Qred_complete.
  unfold dyadic. destruct (Z.leb_spec 0 p).
  - replace p with 0 by lia. cbn. unfold Qeq. cbn. lia.
  - assert (0 < 2 ^ (- p)) by (apply Z.pow_pos_nonneg; lia).
    unfold Qeq, inject_Z. cbn [Qnum Qden]. rewrite Z2Pos.id by assumption. lia.
Qed.

Lemma floor_log2_lower n d :
  0 < n -> 0 < d -> 0 <= floor_log2 n d -> d * 2 ^ floor_log2 n d <= n.
Proof.
  intros Hn Hd. unfold floor_log2.
  destruct (Z.log2_spec n Hn) as [Hn1 Hn2]. destruct (Z.log2_spec d Hd) as [Hd1 Hd2].
  pose proof (Z.log2_nonneg n). pose proof (Z.log2_nonneg d).
  set (a := Z.log2 n) in *. set (b := Z.log2 d) in *.
  destruct (Z.leb_spec 0 (a - b)) as [He|He].
  - destruct (Z.ltb_spec n (d * 2 ^ (a - b))) as [Ht|Ht]; intros Hf; [|exact Ht].
    assert (2 ^ Z.succ b * 2 ^ (a - b - 1) = 2 ^ a) as Hpow
      by (rewrite <- Z.pow_add_r by lia; f_equal; lia).
    assert (0 < 2 ^ (a - b - 1)) by (apply Z.pow_pos_nonneg; lia).
    nia.
  - destruct (n * 2 ^ (- (a - b)) <? d); intros Hf; lia.
Qed.

Lemma round_positive_int z :
  0 < z < 2 ^ 53 -> round_positive z 1 = Finite (inject_Z z).
Proof.
  intros [Hz Hlt]. unfold round_positive, floor_log2.
  change (Z.log2 1) with 0. rewrite Z.sub_0_r.
  pose proof (Z.log2_nonneg z) as Hl. destruct (Z.log2_spec z Hz) as [Hlow _].
  assert (Z.log2 z < 53) as Hl53 by (apply Z.log2_lt_pow2; lia).
  destruct (Z.leb_spec 0 (Z.log2 z)); [|lia].
  rewrite Z.mul_1_l. destruct (Z.ltb_spec z (2 ^ Z.log2 z)); [lia|].
  set (p := Z.max (Z.log2 z - 52) (-1074)).
  assert (p <= 0) as Hp by lia.
  destruct (Z.leb_spec 0 p) as [Hp0|Hp0].
  - assert (p = 0) as -> by lia. cbn [andb]. change (2 ^ 0) with 1.
    rewrite Z.mul_1_r, round_half_even_1.
    destruct (Z.leb_spec (2 ^ 1024) z) as [Hbig|_].
    + exfalso. assert (2 ^ 53 < 2 ^ 1024) by reflexivity. lia.
    + f_equal. pose proof (dyadic_scaled z 0 ltac:(lia)) as Hd.
      change (2 ^ (- 0)) with 1 in Hd. rewrite Z.mul_1_r in Hd. exact Hd.
  - cbn [andb]. rewrite round_half_even_1. f_equal. apply dyadic_scaled. lia.
Qed.

(** An integer up to [2^53] in absolute value is a double. *)
Lemma round_int z :
  - 2 ^ 53 <= z <= 2 ^ 53 -> round (inject_Z z) = Finite (inject_Z z).
Proof.
  intros Hz. destruct (Z.eq_dec z (2 ^ 53)) as [->|Hhi]; [vm_compute; reflexivity|].
  destruct (Z.eq_dec z (- 2 ^ 53)) as [->|Hlo]; [vm_compute; reflexivity|].
  unfold round. cbn [inject_Z Qnum Qden]. destruct z as [|n|n]; [reflexivity| |].
  - apply round_positive_int. lia.
  - rewrite (round_positive_int (Z.pos n)) by lia. reflexivity.
Qed.

Lemma gt_int_Finite_le v N : (v <= inject_Z N)%Q -> gt_int (Finite v) N = false.
Proof.
  intros Hle. cbn [gt_int]. apply Qle_bool_iff in Hle. rewrite Hle. reflexivity.
Qed.

Lemma gt_int_Finite_lt v K : (inject_Z K < v)%Q -> gt_int (Finite v) K = true.
Proof.
  intros Hlt. cbn [gt_int]. destruct (Qle_bool v (inject_Z K)) eqn:Hle; [|reflexivity].
  apply Qle_bool_iff in Hle. exfalso. exact (Qlt_not_le _ _ Hlt Hle).
Qed.

Lemma round_positive_le n d N :
  0 < n -> 0 < d -> 0 < N <= 2 ^ 53 -> n <= N * d ->
  gt_int (round_positive n d) N = false.
Proof.
  intros Hn Hd [HN0 HN] Hle. unfold round_positive.
  set (f := floor_log2 n d).
  pose proof (floor_log2_lower n d Hn Hd) as Hlow. fold f in Hlow.
  set (p := Z.max (f - 52) (-1074)).
  destruct (Z.leb_spec 0 p) as [Hp|Hp].
  - assert (p = 0 \/ (p = 1 /\ n = 2 ^ 53 * d /\ N = 2 ^ 53)) as Hcase.
    { destruct (Z.eq_dec p 0) as [|Hne]; [left; assumption|right].
      assert (53 <= f) as Hf by lia. specialize (Hlow ltac:(lia)).
      assert (2 ^ 53 <= 2 ^ f) as Hmono by (apply Z.pow_le_mono_r; lia).
      assert (0 < 2 ^ 53) by reflexivity.
      assert (d * 2 ^ 53 <= n) by nia.
      assert (N = 2 ^ 53) as HN' by nia.
      assert (n = 2 ^ 53 * d) by nia.
      assert (2 ^ f <= 2 ^ 53) as Hup by nia.
      assert (f <= 53) by (apply (Z.pow_le_mono_r_iff 2); lia).
      lia. }
    destruct Hcase as [->|(-> & Hn' & HN')].
    + change (2 ^ 0) with 1. rewrite !Z.mul_1_r.
      pose proof (round_half_even_le n d N Hd Hle) as Hm.
      cbn [andb Z.leb Z.compare].
      destruct (Z.leb_spec (2 ^ 1024) (round_half_even n d)) as [Hbig|_].
      * exfalso. assert (2 ^ 53 < 2 ^ 1024) by reflexivity. lia.
      * apply gt_int_Finite_le. rewrite Qred_correct. unfold dyadic. cbn [Z.leb Z.compare].
        change (2 ^ 0) with 1. rewrite Z.mul_1_r. rewrite <- Zle_Qle. exact Hm.
    + change (2 ^ 1) with 2.
      pose proof (round_half_even_le n (d * 2) (2 ^ 52) ltac:(lia) ltac:(lia)) as Hm.
      cbn [andb Z.leb Z.compare].
      destruct (Z.leb_spec (2 ^ 1024) (round_half_even n (d * 2) * 2)) as [Hbig|_].
      * exfalso. assert (2 ^ 52 * 2 < 2 ^ 1024) by reflexivity. lia.
      * apply gt_int_Finite_le. rewrite Qred_correct. unfold dyadic. cbn [Z.leb Z.compare].
        change (2 ^ 1) with 2. rewrite <- Zle_Qle. subst N.
        change (2 ^ 53) with (2 ^ 52 * 2). lia.
  - destruct (0 <=? p) eqn:Hp'; [apply Z.leb_le in Hp'; lia|]. cbn [andb].
    apply gt_int_Finite_le. rewrite Qred_correct. unfold dyadic. rewrite Hp'.
    assert (0 < 2 ^ (- p)) as Hc by (apply Z.pow_pos_nonneg; lia).
    pose proof (round_half_even_le (n * 2 ^ (- p)) d (N * 2 ^ (- p)) Hd ltac:(nia)) as Hm.
    unfold Qle, inject_Z. cbn [Qnum Qden]. rewrite Z2Pos.id by exact Hc. lia.
Qed.

Lemma round_positive_ge n d N K :
  0 < n -> 0 < d -> 0 < N <= 2 ^ 53 -> N * d <= n -> K < N ->
  gt_int (round_positive n d) K = true.
Proof.
  intros Hn Hd [HN0 HN] Hge HK. unfold round_positive.
  set (f := floor_log2 n d).
  pose proof (floor_log2_lower n d Hn Hd) as Hlow. fold f in Hlow.
  set (p := Z.max (f - 52) (-1074)).
  destruct (Z.leb_spec 0 p) as [Hp|Hp].
  - cbn [andb].
    destruct (2 ^ 1024 <=? round_half_even n (d * 2 ^ p) * 2 ^ p); [reflexivity|].
    apply gt_int_Finite_lt. rewrite Qred_correct. unfold dyadic.
    destruct (Z.leb_spec 0 p); [|lia]. rewrite <- Zlt_Qlt.
    assert (0 < 2 ^ p) as Hpp by (apply Z.pow_pos_nonneg; lia).
    destruct (Z.eq_dec p 0) as [Hp0|Hp0].
    + rewrite Hp0. change (2 ^ 0) with 1. rewrite !Z.mul_1_r.
      pose proof (round_half_even_ge n d N Hd Hge). lia.
    + assert (f = 52 + p) as Hf by lia. specialize (Hlow ltac:(lia)).
      assert (2 ^ f = 2 ^ 52 * 2 ^ p) as Hpow by (rewrite Hf; apply Z.pow_add_r; lia).
      pose proof (round_half_even_ge n (d * 2 ^ p) (2 ^ 52) ltac:(nia) ltac:(nia)) as Hm.
      assert (2 <= 2 ^ p) by (change 2 with (2 ^ 1) at 1; apply Z.pow_le_mono_r; lia).
      assert (2 ^ 53 = 2 ^ 52 * 2) by reflexivity. nia.
  - destruct (0 <=? p) eqn:Hp'; [apply Z.leb_le in Hp'; lia|]. cbn [andb].
    apply gt_int_Finite_lt. rewrite Qred_correct. unfold dyadic. rewrite Hp'.
    assert (0 < 2 ^ (- p)) as Hc by (apply Z.pow_pos_nonneg; lia).
    pose proof (round_half_even_ge (n * 2 ^ (- p)) d (N * 2 ^ (- p)) Hd ltac:(nia)) as Hm.
    unfold Qlt, inject_Z. cbn [Qnum Qden]. rewrite Z2Pos.id by exact Hc. nia.
Qed.

Lemma round_positive_nonneg n d N :
  0 < n -> 0 < d -> 0 <= N -> gt_int (negate (round_positive n d)) N = false.
Proof.
  intros Hn Hd HN. unfold round_positive.
  set (p := Z.max (floor_log2 n d - 52) (-1074)).
  set (m := if 0 <=? p then _ else _).
  assert (0 <= m) as Hm.
  { subst m. destruct (Z.leb_spec 0 p).
    - apply round_half_even_nonneg; [lia|].
      assert (0 < 2 ^ p) by (apply Z.pow_pos_nonneg; lia). nia.
    - apply round_half_even_nonneg; [|lia].
      assert (0 < 2 ^ (- p)) by (apply Z.pow_pos_nonneg; lia). nia. }
  destruct ((0 <=? p) && (2 ^ 1024 <=? m * 2 ^ p)); [reflexivity|].
  cbn [negate]. apply gt_int_Finite_le.
  rewrite Qred_correct. unfold dyadic. destruct (Z.leb_spec 0 p).
  - assert (0 <= 2 ^ p) by (apply Z.pow_nonneg; lia).
    unfold Qle, Qopp, inject_Z. cbn [Qnum Qden]. nia.
  - unfold Qle, Qopp, inject_Z. cbn [Qnum Qden]. nia.
Qed.

(** Rounding never lifts a value above an integer up to [2^53]. *)
Lemma round_le q N :
  0 <= N <= 2 ^ 53 -> (q <= inject_Z N)%Q -> gt_int (round q) N = false.
Proof.
  intros [HN0 HN] Hle. unfold round. destruct q as [n d]. cbn [Qnum Qden].
  unfold Qle, inject_Z in Hle. cbn [Qnum Qden] in Hle.
  destruct n as [|n|n].
  - apply gt_int_Finite_le. unfold Qle, inject_Z. cbn [Qnum Qden]. lia.
  - apply round_positive_le; try lia.
  - apply round_positive_nonneg; lia.
Qed.

(** Rounding never takes a value below an integer up to [2^53]. *)
Lemma round_ge q N K :
  0 < N <= 2 ^ 53 -> (inject_Z N <= q)%Q -> K < N -> gt_int (round q) K = true.
Proof.
  intros [HN0 HN] Hle HK. unfold round. destruct q as [n d]. cbn [Qnum Qden].
  unfold Qle, inject_Z in Hle. cbn [Qnum Qden] in Hle.
  destruct n as [|n|n]; [lia| |lia].
  apply (round_positive_ge _ _ N); lia.
Qed.

Lemma truthy_Finite v : truthy (Finite v) = false <-> (v == 0)%Q.
Proof.
  cbn [truthy]. rewrite negb_false_iff, Z.eqb_eq.
  unfold Qeq. cbn [Qnum Qden]. lia.
Qed.

(** Where the sum of two integers is a double, the addition is exact. *)
Lemma add_int_exact z k :
  - 2 ^ 53 <= z + k <= 2 ^ 53 ->
  add_int (Finite (inject_Z z)) k = Finite (inject_Z (z + k)).
Proof.
  intros Hz. cbn [add_int]. rewrite <- (round_int (z + k) Hz).
  unfold Qplus, inject_Z. cbn [Qnum Qden]. rewrite !Z.mul_1_r. reflexivity.
Qed.

Lemma gt_int_inject v k : gt_int (Finite (inject_Z v)) k = (k <? v).
Proof.
  cbn [gt_int]. unfold Qle_bool, inject_Z. cbn [Qnum Qden]. rewrite !Z.mul_1_r.
  destruct (Z.leb_spec v k), (Z.ltb_spec k v); try reflexivity; lia.
Qed.

End Doubles.

(* ===================================================================== *)
(** * Properties of the password reset token check *)
(* ===================================================================== *)

Section ResetToken.
Import JS UserSecurityTrait.

(** Case analysis on a decimal digit. *)
Ltac each_digit d Hd :=
  do 10 (destruct d as [|d]; [try (vm_compute; reflexivity)|]);
  exfalso; lia.

Lemma digit_not_space d : (d < 10)%nat -> is_space (digit_char d) = false.
Proof. intros Hd. each_digit d Hd. Qed.

Lemma digit_not_underscore d : (d < 10)%nat -> Ascii.eqb (digit_char d) "_" = false.
Proof. intros Hd. each_digit d Hd. Qed.

Lemma digit_of_digit_char d :
  (d < 10)%nat -> digit_of 10 (digit_char d) = Some (Z.of_nat d).
Proof. intros Hd. each_digit d Hd. Qed.

Lemma digit_string_nonempty ds : ds <> [] -> digit_string ds <> "".
Proof. destruct ds; [contradiction|discriminate]. Qed.

Lemma string_app_cons c (s1 s2 : string) : String c s1 ++ s2 = String c (s1 ++ s2).
Proof. reflexivity. Qed.

Lemma string_app_assoc (a b c : string) : (a ++ b) ++ c = a ++ (b ++ c).
Proof.
  induction a as [|x a IH]; [reflexivity|].
  rewrite !string_app_cons, IH. reflexivity.
Qed.

Lemma trimEnd_digit_string ds :
  Forall (fun d => (d < 10)%nat) ds -> trimEnd (digit_string ds) = digit_string ds.
Proof.
  induction 1 as [|d ds Hd Hds IH]; [reflexivity|].
  cbn [trimEnd digit_string]. rewrite IH, (digit_not_space d Hd).
  destruct (digit_string ds); reflexivity.
Qed.

Lemma trimEnd_app s1 s2 :
  trimEnd s2 <> "" -> trimEnd (s1 ++ s2) = s1 ++ trimEnd s2.
Proof.
  intros Hne. induction s1 as [|c s1 IH]; [reflexivity|].
  rewrite !string_app_cons. cbn [trimEnd]. rewrite IH.
  destruct (s1 ++ trimEnd s2) eqn:Happ; [|reflexivity].
  destruct s1; [contradiction|discriminate].
Qed.

Lemma trimStart_before_underscore code rest :
  exists code', trimStart (code ++ String "_" rest) = code' ++ String "_" rest.
Proof.
  induction code as [|c code IH].
  - exists "". reflexivity.
  - rewrite string_app_cons. cbn [trimStart]. destruct (is_space c); [exact IH|].
    exists (String c code). reflexivity.
Qed.

(** Trimming a reset token touches the code only. *)
Lemma trim_reset_token code ds :
  ds <> [] -> Forall (fun d => (d < 10)%nat) ds ->
  exists code', trim (reset_token code ds) = code' ++ String "_" (digit_string ds).
Proof.
  intros Hne Hds. unfold trim, reset_token.
  change ("_" ++ digit_string ds) with (String "_" (digit_string ds)).
  destruct (trimStart_before_underscore code (digit_string ds)) as [code' ->].
  exists code'.
  change (String "_" (digit_string ds)) with (String "_" "" ++ digit_string ds).
  rewrite <- string_app_assoc.
  rewrite trimEnd_app; rewrite trimEnd_digit_string by exact Hds.
  - reflexivity.
  - apply digit_string_nonempty. exact Hne.
Qed.

Lemma split_no_separator sep s :
  (forall pre c post, s = pre ++ String c post -> Ascii.eqb c sep = false) ->
  split sep s = [s].
Proof.
  induction s as [|c s IH]; intros Hno; [reflexivity|].
  simpl. rewrite (Hno "" c s eq_refl).
  rewrite IH; [reflexivity|].
  intros pre c' post ->. apply (Hno (String c pre) c' post). reflexivity.
Qed.

Lemma digit_string_no_underscore ds pre c post :
  Forall (fun d => (d < 10)%nat) ds ->
  digit_string ds = pre ++ String c post -> Ascii.eqb c "_" = false.
Proof.
  intros Hds. revert pre. induction Hds as [|d ds Hd Hds IH]; intros pre Heq.
  - destruct pre; discriminate.
  - destruct pre as [|p pre]; cbn [digit_string String.append] in Heq;
      injection Heq as Hc Hrest.
    + subst c. apply digit_not_underscore. exact Hd.
    + apply (IH pre). exact Hrest.
Qed.

Lemma split_last_segment code seg :
  split "_" seg = [seg] ->
  exists front, front <> [] /\ split "_" (code ++ String "_" seg) = (front ++ [seg])%list.
Proof.
  intros Hseg. induction code as [|c code (front & Hfront & IH)].
  - exists [""]. split; [discriminate|]. simpl. rewrite Hseg. reflexivity.
  - simpl. rewrite IH. destruct (Ascii.eqb c "_").
    + exists ("" :: front). split; [discriminate|reflexivity].
    + destruct front as [|f front]; [contradiction|].
      exists (String c f :: front). split; [discriminate|reflexivity].
Qed.

(** The timestamp of a reset token is its digits. *)
Lemma timestamp_of_reset_token code ds :
  Forall (fun d => (d < 10)%nat) ds ->
  timestamp_of (code ++ String "_" (digit_string ds)) = digit_string ds.
Proof.
  intros Hds. unfold timestamp_of, lastItem.
  destruct (split_last_segment code (digit_string ds)) as (front & _ & ->).
  - apply split_no_separator. intros pre c post Heq.
    eapply digit_string_no_underscore; eassumption.
  - rewrite last_snoc. reflexivity.
Qed.

Lemma span_digits_digit_string ds :
  Forall (fun d => (d < 10)%nat) ds ->
  span_digits 10 (digit_string ds) = (Z.of_nat <$> ds, "").
Proof.
  induction 1 as [|d ds Hd Hds IH]; [reflexivity|].
  cbn [span_digits digit_string fmap list_fmap].
  rewrite (digit_of_digit_char d Hd), IH. reflexivity.
Qed.

Lemma radix_prefix_digit_string ds :
  Forall (fun d => (d < 10)%nat) ds -> radix_prefix (digit_string ds) = None.
Proof.
  intros Hds. destruct Hds as [|d ds Hd Hds]; [reflexivity|].
  destruct Hds as [|d2 ds Hd2 Hds].
  - each_digit d Hd.
  - cbn [digit_string].
    assert (radix_prefix (String "0" (String (digit_char d2) (digit_string ds))) = None)
      as Hzero by (each_digit d2 Hd2).
    do 10 (destruct d as [|d]; [first [exact Hzero|reflexivity]|]).
    exfalso; lia.
Qed.

Lemma take_sign_digit_string ds :
  Forall (fun d => (d < 10)%nat) ds ->
  take_sign (digit_string ds) = (false, digit_string ds).
Proof.
  intros Hds. destruct Hds as [|d ds Hd Hds]; [reflexivity|].
  cbn [digit_string].
  do 10 (destruct d as [|d]; [reflexivity|]). exfalso; lia.
Qed.

Lemma digit_string_not_infinity ds :
  Forall (fun d => (d < 10)%nat) ds ->
  String.eqb (digit_string ds) "Infinity" = false.
Proof.
  intros Hds. destruct Hds as [|d ds Hd Hds]; [reflexivity|].
  cbn [digit_string].
  do 10 (destruct d as [|d]; [reflexivity|]). exfalso; lia.
Qed.

(** What a string of decimal digits spells. *)
Lemma StringNumericLiteral_digit_string ds :
  ds <> [] -> Forall (fun d => (d < 10)%nat) ds ->
  StringNumericLiteral (digit_string ds) = Exact (timestamp_value ds) 0.
Proof.
  intros Hne Hds. unfold StringNumericLiteral, trim.
  assert (trimStart (digit_string ds) = digit_string ds) as ->.
  { destruct Hds as [|d ds Hd Hds]; [reflexivity|].
    cbn [trimStart digit_string]. rewrite (digit_not_space d Hd). reflexivity. }
  rewrite (trimEnd_digit_string ds Hds).
  destruct (String.eqb_spec (digit_string ds) "") as [Hempty|_].
  { exfalso. exact (digit_string_nonempty ds Hne Hempty). }
  rewrite (radix_prefix_digit_string ds Hds), (take_sign_digit_string ds Hds).
  rewrite (digit_string_not_infinity ds Hds).
  unfold parse_decimal. rewrite (span_digits_digit_string ds Hds).
  rewrite app_nil_r. unfold timestamp_value.
  destruct ds as [|d ds]; [contradiction|]. reflexivity.
Qed.

Lemma digits_value_nonneg ds acc :
  0 <= acc -> 0 <= fold_left (fun acc d => 10 * acc + d) (Z.of_nat <$> ds) acc.
Proof.
  revert acc. induction ds as [|d ds IH]; intros acc Hacc; [exact Hacc|].
  cbn [fmap list_fmap fold_left]. apply IH. lia.
Qed.

Lemma timestamp_value_nonneg ds : 0 <= timestamp_value ds.
Proof. apply digits_value_nonneg. lia. Qed.

(** The number that a string of decimal digits converts to, where the
    digits spell an integer up to [2^53]. *)
Lemma Number_digit_string ds :
  ds <> [] -> Forall (fun d => (d < 10)%nat) ds -> timestamp_value ds <= 2 ^ 53 ->
  Number (digit_string ds) = Finite (inject_Z (timestamp_value ds)).
Proof.
  intros Hne Hds Hle. unfold Number.
  rewrite (StringNumericLiteral_digit_string ds Hne Hds).
  cbn [to_number]. unfold mathematical_value. cbn [Z.leb Z.compare].
  change (10 ^ 0) with 1. rewrite Z.mul_1_r.
  apply round_int. pose proof (timestamp_value_nonneg ds).
  assert (0 < 2 ^ 53) by reflexivity. lia.
Qed.

(** The check, read on the number its timestamp converts to. *)
Lemma isPasswordResetTokenValid_number now token options :
  isPasswordResetTokenValid now token options =
    let x := Number (timestamp_of (trim token)) in
    truthy x && gt_int (add_int x (default 3600 (expire options))) now.
Proof.
  unfold isPasswordResetTokenValid, passwordResetTokenExpire.
  destruct (String.eqb_spec (trim token) "") as [->|_]; [reflexivity|].
  destruct (String.eqb_spec (timestamp_of (trim token)) "") as [->|_]; [reflexivity|].
  cbn [orb]. cbv zeta.
  destruct (Number (timestamp_of (trim token))) as [|negative|v];
    cbn [truthy isNaN negb orb andb]; try reflexivity.
  rewrite orb_false_r. destruct (Qnum v =? 0); reflexivity.
Qed.

(** The check by cases of that number. *)
Lemma isPasswordResetTokenValid_cases now token options :
  isPasswordResetTokenValid now token options =
    match Number (timestamp_of (trim token)) with
    | NaN => false
    | Infinity negative => negb negative
    | Finite v =>
        truthy (Finite v)
        && gt_int (round (v + inject_Z (default 3600 (expire options)))) now
    end.
Proof.
  rewrite isPasswordResetTokenValid_number. cbv zeta.
  destruct (Number (timestamp_of (trim token))) as [|negative|v]; reflexivity.
Qed.

End ResetToken.

(** C10 (counterexample).  The token [abc_0] has the shape code, underscore,
    timestamp; with an expiry window of 2000000000 seconds and the clock at
    1700000000 its timestamp plus the window exceeds the clock, and yet the
    token is not valid: a timestamp that converts to zero is refused like an
    unparsable one. *)
Lemma C10_zero_timestamp_is_refused :
  let now := 1700000000 in
  let window := 2000000000 in
  UserSecurityTrait.reset_token "abc" [0%nat] = "abc_0"
  /\ now < UserSecurityTrait.timestamp_value [0%nat] + window
  /\ UserSecurityTrait.isPasswordResetTokenValid now "abc_0"
       (UserSecurityTrait.mkOptions (Some window)) = false.
Proof. repeat split; vm_compute; reflexivity. Qed.

(** C10 (amended).  Numbers are doubles, and the clock is the unix time in
    seconds, a non-negative integer below [2^53].  The check fails closed:
    it is false for the empty token, for a token whose last segment does not
    convert to a number, for one whose last segment converts to zero, and
    for one whose timestamp (the number that the last segment converts to)
    plus the expiry window does not exceed the clock.  A valid token has a
    last segment that converts to plus infinity, or to a number other than
    zero whose sum with the window exceeds the clock; a last segment that
    converts to plus infinity, or to a number other than zero whose sum with
    the window reaches the clock plus one, makes the token valid.  A token
    made of a code, an underscore and a timestamp in decimal digits, where
    the timestamp and its sum with the window are at most [2^53] in absolute
    value, is valid exactly when the timestamp is not zero and timestamp
    plus window exceeds the clock.  The window is [options.expire], 3600
    when omitted. *)
Theorem C10_reset_token_fails_closed (now : Z) (options : UserSecurityTrait.Options) :
  let window := default 3600 (UserSecurityTrait.expire options) in
  let valid token := UserSecurityTrait.isPasswordResetTokenValid now token options in
  let timestamp token := JS.Number (UserSecurityTrait.timestamp_of (JS.trim token)) in
  0 <= now < 2 ^ 53 ->
  valid "" = false
  /\ (forall token, timestamp token = JS.NaN -> valid token = false)
  /\ (forall token q, JS.to_Q (timestamp token) = Some q -> (q == 0)%Q ->
                      valid token = false)
  /\ (forall token q, JS.to_Q (timestamp token) = Some q ->
                      (q + inject_Z window <= inject_Z now)%Q ->
                      valid token = false)
  /\ (forall token,
        valid token = true ->
        timestamp token = JS.Infinity false
        \/ exists q, JS.to_Q (timestamp token) = Some q
                     /\ ~ (q == 0)%Q /\ (inject_Z now < q + inject_Z window)%Q)
  /\ (forall token, timestamp token = JS.Infinity false -> valid token = true)
  /\ (forall token q, JS.to_Q (timestamp token) = Some q -> ~ (q == 0)%Q ->
                      (inject_Z (now + 1) <= q + inject_Z window)%Q ->
                      valid token = true)
  /\ (forall code ds,
        ds <> [] -> Forall (fun d => (d < 10)%nat) ds ->
        UserSecurityTrait.timestamp_value ds <= 2 ^ 53 ->
        - 2 ^ 53 <= UserSecurityTrait.timestamp_value ds + window <= 2 ^ 53 ->
        valid (UserSecurityTrait.reset_token code ds)
        = negb (UserSecurityTrait.timestamp_value ds =? 0)
          && (now <? UserSecurityTrait.timestamp_value ds + window)).
Proof.
  intros window valid timestamp Hnow. subst valid timestamp.
  split; [reflexivity|]. split; [|split; [|split; [|split; [|split; [|split]]]]].
  - intros token Hnan. rewrite isPasswordResetTokenValid_cases, Hnan. reflexivity.
  - intros token q Hq Hz. rewrite isPasswordResetTokenValid_cases.
    destruct (JS.Number _) as [|negative|v]; try discriminate.
    injection Hq as ->. apply truthy_Finite in Hz. rewrite Hz. reflexivity.
  - intros token q Hq Hle. rewrite isPasswordResetTokenValid_cases.
    destruct (JS.Number _) as [|negative|v]; try discriminate.
    injection Hq as ->. fold window. rewrite (round_le _ now) by (exact Hle || lia).
    apply andb_false_r.
  - intros token. rewrite isPasswordResetTokenValid_cases.
    destruct (JS.Number _) as [|negative|v]; [discriminate| |].
    + destruct negative; [discriminate|]. left. reflexivity.
    + fold window. intros Hv. apply andb_true_iff in Hv as [Ht Hgt].
      right. exists v. split; [reflexivity|]. split.
      * intros Hz. apply truthy_Finite in Hz. congruence.
      * destruct (Qlt_le_dec (inject_Z now) (v + inject_Z window)) as [Hlt|Hle];
          [exact Hlt|].
        rewrite (round_le _ now) in Hgt by (exact Hle || lia). discriminate.
  - intros token Hinf. rewrite isPasswordResetTokenValid_cases, Hinf. reflexivity.
  - intros token q Hq Hnz Hge. rewrite isPasswordResetTokenValid_cases.
    destruct (JS.Number _) as [|negative|v]; try discriminate.
    injection Hq as ->. fold window.
    rewrite (round_ge _ (now + 1) now) by (exact Hge || lia).
    rewrite andb_true_r. destruct (JS.truthy (JS.Finite q)) eqn:Ht; [reflexivity|].
    exfalso. apply Hnz. apply truthy_Finite. exact Ht.
  - intros code ds Hne Hds Hts Hsum. rewrite isPasswordResetTokenValid_number. cbv zeta.
    destruct (trim_reset_token code ds Hne Hds) as [code' ->].
    rewrite (timestamp_of_reset_token code' ds Hds).
    rewrite (Number_digit_string ds Hne Hds Hts). fold window.
    rewrite (add_int_exact _ _ Hsum), gt_int_inject. reflexivity.
Qed.

(** C10, run: the token [abc_9999999999999] with a window of 3600 seconds
    is valid at clock 1700000000, and no longer when the clock reaches
    9999999999999 + 3600; a token without a numeric timestamp is not. *)
Lemma C10_reset_token_witness :
  UserSecurityTrait.reset_token "abc" [9;9;9;9;9;9;9;9;9;9;9;9;9]%nat = "abc_9999999999999"
  /\ UserSecurityTrait.isPasswordResetTokenValid 1700000000 "abc_9999999999999"
       (UserSecurityTrait.mkOptions (Some 3600)) = true
  /\ UserSecurityTrait.isPasswordResetTokenValid (9999999999999 + 3600) "abc_9999999999999"
       (UserSecurityTrait.mkOptions (Some 3600)) = false
  /\ UserSecurityTrait.isPasswordResetTokenValid 1700000000 "abc_soon"
       (UserSecurityTrait.mkOptions None) = false.
Proof.
  split; [reflexivity|].
  assert ([9;9;9;9;9;9;9;9;9;9;9;9;9]%nat <> []) as Hne by discriminate.
  assert (Forall (fun d => (d < 10)%nat) [9;9;9;9;9;9;9;9;9;9;9;9;9]%nat) as Hds
    by (repeat constructor).
  assert (0 <= 1700000000 < 2 ^ 53) as Hnow
    by (vm_compute; split; [discriminate|reflexivity]).
  assert (0 <= 9999999999999 + 3600 < 2 ^ 53) as Hlater
    by (vm_compute; split; [discriminate|reflexivity]).
  assert (UserSecurityTrait.timestamp_value [9;9;9;9;9;9;9;9;9;9;9;9;9]%nat <= 2 ^ 53)
    as Hts by (vm_compute; discriminate).
  assert (- 2 ^ 53 <= UserSecurityTrait.timestamp_value [9;9;9;9;9;9;9;9;9;9;9;9;9]%nat
                      + 3600 <= 2 ^ 53)
    as Hsum by (vm_compute; split; discriminate).
  split; [|split].
  - exact (proj2 (proj2 (proj2 (proj2 (proj2 (proj2 (proj2
      (C10_reset_token_fails_closed 1700000000 (UserSecurityTrait.mkOptions (Some 3600))
         Hnow)))))))
      "abc" _ Hne Hds Hts Hsum).
  - exact (proj2 (proj2 (proj2 (proj2 (proj2 (proj2 (proj2
      (C10_reset_token_fails_closed (9999999999999 + 3600)
         (UserSecurityTrait.mkOptions (Some 3600)) Hlater)))))))
      "abc" _ Hne Hds Hts Hsum).
  - apply (proj1 (proj2
      (C10_reset_token_fails_closed 1700000000 (UserSecurityTrait.mkOptions None) Hnow))).
    reflexivity.
Defined.

(* ===================================================================== *)
(** * Further properties: strings *)
(* ===================================================================== *)

Section Strings.
Import JS.

Lemma space_is_space c : Ascii.eqb c " " = true -> is_space c = true.
Proof. intros Hc. apply Ascii.eqb_eq in Hc. subst c. reflexivity. Qed.

Lemma not_space_not_blank c : is_space c = false -> Ascii.eqb c " " = false.
Proof.
  intros Hc. destruct (Ascii.eqb c " ") eqn:He; [|reflexivity].
  rewrite (space_is_space c He) in Hc. discriminate.
Qed.

Lemma trimStart_empty_iff s : trimStart s = "" <-> blank s = true.
Proof.
  induction s as [|c s IH]; cbn [trimStart blank]; [tauto|].
  destruct (is_space c); cbn [andb]; [exact IH|]. split; discriminate.
Qed.

Lemma trimEnd_empty_iff s : trimEnd s = "" <-> blank s = true.
Proof.
  induction s as [|c s IH]; cbn [trimEnd blank]; [tauto|].
  destruct (trimEnd s) eqn:Hs.
  - destruct (is_space c); cbn [andb].
    + split; [intros _; apply IH; reflexivity|reflexivity].
    + split; discriminate.
  - split; [discriminate|]. intros Hb. apply andb_true_iff in Hb.
    destruct Hb as [_ Hb]. apply IH in Hb. discriminate.
Qed.

Lemma blank_trimStart s : blank (trimStart s) = blank s.
Proof.
  induction s as [|c s IH]; cbn [trimStart blank]; [reflexivity|].
  destruct (is_space c) eqn:Hc; cbn [andb]; [exact IH|].
  cbn [blank]. rewrite Hc. reflexivity.
Qed.

(** [trim] empties exactly the strings of white space. *)
Lemma trim_empty_iff s : trim s = "" <-> blank s = true.
Proof. unfold trim. rewrite trimEnd_empty_iff, blank_trimStart. reflexivity. Qed.

Lemma trimStart_head s c r : trimStart s = String c r -> is_space c = false.
Proof.
  induction s as [|a s IH]; cbn [trimStart]; [discriminate|].
  destruct (is_space a) eqn:Ha; [exact IH|]. intros [= <- _]. exact Ha.
Qed.

Lemma trimEnd_cons c s :
  trimEnd (String c s) = "" \/ exists r, trimEnd (String c s) = String c r.
Proof.
  cbn [trimEnd]. destruct (trimEnd s); [destruct (is_space c)|]; eauto.
Qed.

Lemma trimEnd_idem s : trimEnd (trimEnd s) = trimEnd s.
Proof.
  induction s as [|c s IH]; [reflexivity|].
  cbn [trimEnd]. destruct (trimEnd s) as [|a r] eqn:Hs.
  - destruct (is_space c) eqn:Hc; [reflexivity|]. cbn [trimEnd]. rewrite Hc. reflexivity.
  - change (trimEnd (String c (String a r))) with
      (match trimEnd (String a r) with
       | "" => if is_space c then "" else String c ""
       | rest' => String c rest'
       end).
    rewrite IH. reflexivity.
Qed.

(** [trim] is idempotent. *)
Lemma trim_idem s : trim (trim s) = trim s.
Proof.
  unfold trim.
  assert (trimStart (trimEnd (trimStart s)) = trimEnd (trimStart s)) as ->.
  { destruct (trimStart s) as [|c r] eqn:Hs; [reflexivity|].
    pose proof (trimStart_head s c r Hs) as Hc.
    destruct (trimEnd_cons c r) as [->|[r' ->]]; [reflexivity|].
    cbn [trimStart]. rewrite Hc. reflexivity. }
  apply trimEnd_idem.
Qed.

Lemma no_space_trimEnd t : no_space t = true -> trimEnd t = t.
Proof.
  induction t as [|c t IH]; [reflexivity|]. cbn [no_space trimEnd].
  intros Hn. apply andb_true_iff in Hn. destruct Hn as [Hc Ht].
  apply negb_true_iff in Hc. rewrite (IH Ht), Hc. destruct t; reflexivity.
Qed.

Lemma no_space_trimStart t : no_space t = true -> trimStart t = t.
Proof.
  destruct t as [|c t]; [reflexivity|]. cbn [no_space trimStart].
  intros Hn. apply andb_true_iff in Hn. destruct Hn as [Hc _].
  apply negb_true_iff in Hc. rewrite Hc. reflexivity.
Qed.

Lemma no_space_trim t : no_space t = true -> trim t = t.
Proof.
  intros Hn. unfold trim. rewrite (no_space_trimStart t Hn). apply no_space_trimEnd, Hn.
Qed.

Lemma no_space_split t : no_space t = true -> split " " t = [t].
Proof.
  induction t as [|c t IH]; [reflexivity|]. cbn [no_space split].
  intros Hn. apply andb_true_iff in Hn. destruct Hn as [Hc Ht].
  apply negb_true_iff in Hc. rewrite (not_space_not_blank c Hc), (IH Ht). reflexivity.
Qed.

Lemma split_snoc_segment sep a seg :
  split sep seg = [seg] ->
  exists f front, split sep (a ++ String sep seg) = (f :: front ++ [seg])%list.
Proof.
  intros Hseg. induction a as [|c a (f & front & IH)].
  - exists "", []. change ("" ++ String sep seg) with (String sep seg).
    cbn [split]. rewrite Ascii.eqb_refl, Hseg. reflexivity.
  - rewrite string_app_cons. cbn [split]. rewrite IH. destruct (Ascii.eqb c sep).
    + exists "", (f :: front). reflexivity.
    + exists (String c f), front. reflexivity.
Qed.

Lemma split_last_char sep s c :
  Ascii.eqb c sep = false ->
  exists (front : list string) (body : string),
    split sep (s ++ String c "") = (front ++ [(body ++ String c "")%string])%list.
Proof.
  intros Hc. induction s as [|a s (front & body & IH)].
  - exists [], "". change ("" ++ String c "") with (String c "").
    cbn [split]. rewrite Hc. reflexivity.
  - rewrite string_app_cons. cbn [split]. rewrite IH. destruct (Ascii.eqb a sep).
    + exists ("" :: front), body. reflexivity.
    + destruct front as [|f front].
      * exists [], (String a body). reflexivity.
      * exists (String a f :: front), body. reflexivity.
Qed.

Lemma nonempty_snoc s : s <> "" -> exists r c, s = r ++ String c "".
Proof.
  induction s as [|a s IH]; [contradiction|]. intros _.
  destruct s as [|b s].
  - exists "", a. reflexivity.
  - destruct IH as (r & c & Hr); [discriminate|].
    exists (String a r), c. rewrite string_app_cons, <- Hr. reflexivity.
Qed.

Lemma blank_snoc r c : blank (r ++ String c "") = true -> is_space c = true.
Proof.
  induction r as [|a r IH].
  - change ("" ++ String c "") with (String c ""). cbn [blank].
    rewrite andb_true_r. tauto.
  - rewrite string_app_cons. cbn [blank]. intros Hb.
    apply andb_true_iff in Hb. apply IH, Hb.
Qed.

(** What [trimEnd] leaves ends with a character that is not white space. *)
Lemma trimEnd_last s r c : trimEnd s = r ++ String c "" -> is_space c = false.
Proof.
  intros Hs. destruct (is_space c) eqn:Hc; [|reflexivity]. exfalso.
  assert (trimEnd (r ++ String c "") = trimEnd r) as Hdrop.
  { clear Hs. induction r as [|a r IH].
    - change ("" ++ String c "") with (String c ""). cbn [trimEnd]. rewrite Hc. reflexivity.
    - rewrite string_app_cons. cbn [trimEnd]. rewrite IH. reflexivity. }
  pose proof (trimEnd_idem s) as Hidem. rewrite Hs, Hdrop in Hidem.
  assert (forall x, String.length (trimEnd x) <= String.length x)%nat as Hlen.
  { induction x as [|a x IHx]; [reflexivity|]. cbn [trimEnd].
    destruct (trimEnd x); [destruct (is_space a)|]; cbn [String.length] in *; lia. }
  pose proof (Hlen r) as Hr. rewrite Hidem in Hr.
  assert (String.length (r ++ String c "") = S (String.length r)) as Hsn.
  { clear. induction r as [|a r IH]; [reflexivity|].
    rewrite string_app_cons. cbn [String.length]. rewrite IH. reflexivity. }
  lia.
Qed.

End Strings.

(* ===================================================================== *)
(** * Further properties: the token getters *)
(* ===================================================================== *)

Section TokenGetters.
Context `{Platform}.
Import JwtIdentity.

Lemma trimStart_before_word a t :
  t <> "" -> JS.no_space t = true ->
  JS.trimStart (a ++ String " " t) = t
  \/ exists c a', JS.trimStart (a ++ String " " t) = String c a' ++ String " " t.
Proof.
  intros Hne Hn. induction a as [|c a IH].
  - left. change ("" ++ String " " t) with (String " " t).
    cbn [JS.trimStart]. change (JS.is_space " ") with true. cbv iota.
    apply no_space_trimStart, Hn.
  - rewrite string_app_cons. cbn [JS.trimStart]. destruct (JS.is_space c); [exact IH|].
    right. exists c, a. reflexivity.
Qed.

Lemma trim_before_word a t :
  t <> "" -> JS.no_space t = true ->
  JS.trim (a ++ String " " t) = t
  \/ exists a', JS.trim (a ++ String " " t) = a' ++ String " " t.
Proof.
  intros Hne Hn. unfold JS.trim.
  destruct (trimStart_before_word a t Hne Hn) as [->|(c & a' & ->)].
  - left. apply no_space_trimEnd, Hn.
  - right. exists (String c a').
    assert (JS.trimEnd (String " " t) = String " " t) as Hend.
    { cbn [JS.trimEnd]. rewrite (no_space_trimEnd t Hn).
      destruct t; [contradiction|reflexivity]. }
    rewrite trimEnd_app; rewrite Hend; [reflexivity|discriminate].
Qed.

Lemma last_word_of_header a t :
  JS.no_space t = true ->
  default "undefined" (JS.lastItem (JS.split " " (a ++ String " " t))) = t.
Proof.
  intros Hn. unfold JS.lastItem.
  destruct (split_snoc_segment " " a t (no_space_split t Hn)) as (f & front & ->).
  change (f :: front ++ [t])%list with ((f :: front) ++ [t])%list.
  rewrite last_snoc. reflexivity.
Qed.

Lemma bearer_of_word t ck :
  t <> "" -> JS.no_space t = true ->
  getTokenFromAuthBearer (mkRequest (Some t) ck) = Token t.
Proof.
  intros Hne Hn. unfold getTokenFromAuthBearer. cbn [authorization].
  rewrite (no_space_trim t Hn).
  destruct (String.eqb_spec t "") as [|_]; [contradiction|].
  rewrite (no_space_split t Hn).
  change (default "undefined" (JS.lastItem [t])) with t.
  rewrite (no_space_trim t Hn). reflexivity.
Qed.

Lemma bearer_of_header a t ck :
  t <> "" -> JS.no_space t = true ->
  getTokenFromAuthBearer (mkRequest (Some (a ++ String " " t)) ck) = Token t.
Proof.
  intros Hne Hn. unfold getTokenFromAuthBearer. cbn [authorization]. cbv zeta.
  destruct (trim_before_word a t Hne Hn) as [->|[a' ->]].
  - destruct (String.eqb_spec t "") as [|_]; [contradiction|].
    rewrite (no_space_split t Hn).
    change (default "undefined" (JS.lastItem [t])) with t.
    rewrite (no_space_trim t Hn). reflexivity.
  - destruct (String.eqb_spec (a' ++ String " " t) "") as [Heq|_].
    + destruct a'; discriminate.
    + rewrite (last_word_of_header a' t Hn), (no_space_trim t Hn). reflexivity.
Qed.

Lemma bearer_blank h ck :
  JS.blank h = true ->
  getTokenFromAuthBearer (mkRequest (Some h) ck)
  = ErrorValue (AuthError "Token was empty" 400 "Bad Request").
Proof.
  intros Hb. unfold getTokenFromAuthBearer. cbn [authorization]. cbv zeta.
  rewrite (proj2 (trim_empty_iff h) Hb). reflexivity.
Qed.

Lemma bearer_not_blank h ck :
  JS.blank h = false ->
  exists t, getTokenFromAuthBearer (mkRequest (Some h) ck) = Token t.
Proof.
  intros Hb. unfold getTokenFromAuthBearer. cbn [authorization]. cbv zeta.
  destruct (String.eqb_spec (JS.trim h) "") as [Heq|_]; [|eauto].
  apply trim_empty_iff in Heq. congruence.
Qed.

Lemma bearer_ignores_cookie h ck ck' :
  getTokenFromAuthBearer (mkRequest h ck) = getTokenFromAuthBearer (mkRequest h ck').
Proof. reflexivity. Qed.

Lemma cookie_token_trimmed req t :
  getTokenFromCookie req = Token t -> t <> "" /\ JS.trim t = t.
Proof.
  unfold getTokenFromCookie. destruct (cookie req) as [header|]; [|discriminate].
  destruct (cookie_parse header !! "auth_token") as [raw|]; [|discriminate].
  cbv zeta. destruct (String.eqb_spec (JS.trim raw) "") as [|Hne]; [discriminate|].
  intros [= <-]. split; [exact Hne|apply trim_idem].
Qed.

Lemma bearer_token_trimmed req t :
  getTokenFromAuthBearer req = Token t -> t <> "" /\ JS.trim t = t.
Proof.
  unfold getTokenFromAuthBearer. destruct (authorization req) as [raw|]; [|discriminate].
  cbv zeta. destruct (String.eqb_spec (JS.trim raw) "") as [|Hne]; [discriminate|].
  intros [= <-]. split; [|apply trim_idem].
  destruct (nonempty_snoc _ Hne) as (r & c & Hr).
  pose proof (trimEnd_last _ r c Hr) as Hc. rewrite Hr.
  destruct (split_last_char " " r c (not_space_not_blank c Hc)) as (front & body & ->).
  unfold JS.lastItem. rewrite last_snoc. cbn [default].
  intros Hempty. apply trim_empty_iff in Hempty. apply blank_snoc in Hempty. congruence.
Qed.

End TokenGetters.

(** X1.  The bearer getter returns the last word of the [Authorization] header:
    for a non-empty token without white space, the header made of any
    prefix, a space and the token yields the token, and so does the token
    alone.  The prefix is not compared with [Bearer]: any scheme name, or
    none, is accepted. *)
Theorem bearer_header_yields_last_word (scheme t : string) (ck : option string) :
  t <> "" -> JS.no_space t = true ->
  JwtIdentity.getTokenFromAuthBearer (mkRequest (Some (scheme ++ " " ++ t)) ck)
    = JwtIdentity.Token t
  /\ JwtIdentity.getTokenFromAuthBearer (mkRequest (Some t) ck) = JwtIdentity.Token t.
Proof.
  intros Hne Hn. split.
  - apply (bearer_of_header scheme t ck Hne Hn).
  - apply (bearer_of_word t ck Hne Hn).
Qed.

(** X1, run: a header with the scheme [Basic] gives its last word as the token. *)
Lemma bearer_header_witness :
  JwtIdentity.getTokenFromAuthBearer (mkRequest (Some "Basic abc.def") None)
    = JwtIdentity.Token "abc.def"
  /\ JwtIdentity.getTokenFromAuthBearer (mkRequest (Some "abc.def") None)
    = JwtIdentity.Token "abc.def".
Proof.
  apply (bearer_header_yields_last_word "Basic" "abc.def" None).
  - discriminate.
  - reflexivity.
Defined.

(** X2.  A header that is not blank shadows the cookie: the result of
    [getTokenFromAll] does not depend on the cookie header then.  A blank
    header counts as no header: the cookie alone decides. *)
Theorem header_token_shadows_cookie `{Platform} (h : string) (ck ck' : option string) :
  (JS.blank h = false ->
   JwtIdentity.getTokenFromAll (mkRequest (Some h) ck)
   = JwtIdentity.getTokenFromAll (mkRequest (Some h) ck'))
  /\ (JS.blank h = true ->
      JwtIdentity.getTokenFromAll (mkRequest (Some h) ck)
      = JwtIdentity.getTokenFromAll (mkRequest None ck)).
Proof.
  split; intros Hb; unfold JwtIdentity.getTokenFromAll.
  - destruct (bearer_not_blank h ck Hb) as [t Ht].
    rewrite <- (bearer_ignores_cookie (Some h) ck ck'), Ht. reflexivity.
  - rewrite (bearer_blank h ck Hb). reflexivity.
Qed.

(** X2, run: with a token in the header the cookie is not read; with a blank
    header it is. *)
Lemma header_token_shadows_cookie_witness :
  JwtIdentity.getTokenFromAll (mkRequest (Some "Bearer abc") (Some "auth_token=xyz"))
  = JwtIdentity.getTokenFromAll (mkRequest (Some "Bearer abc") None)
  /\ JwtIdentity.getTokenFromAll (mkRequest (Some "  ") (Some "auth_token=xyz"))
     = JwtIdentity.getTokenFromAll (mkRequest None (Some "auth_token=xyz")).
Proof.
  split.
  - apply (proj1 (header_token_shadows_cookie "Bearer abc" (Some "auth_token=xyz") None)).
    reflexivity.
  - apply (proj2 (header_token_shadows_cookie "  " (Some "auth_token=xyz") None)).
    reflexivity.
Defined.

(** X3.  When [getTokenFromAll] returns an error object, it is the cookie
    getter's: 401 "Authorization required" when the request has no cookie
    header, 400 "Token was empty" when it has one.  The bearer getter's own
    error is never returned, and the authorization header, if there is one,
    is blank. *)
Theorem getTokenFromAll_reports_cookie_errors `{Platform} (req : Request) (e : exn) :
  JwtIdentity.getTokenFromAll req = JwtIdentity.ErrorValue e ->
  JwtIdentity.getTokenFromCookie req = JwtIdentity.ErrorValue e
  /\ (e = AuthError "Authorization required" 401 "Unauthorized" /\ cookie req = None
      \/ e = AuthError "Token was empty" 400 "Bad Request" /\ is_Some (cookie req))
  /\ e <> AuthError "Missing authorization header" 401 "Unauthorized"
  /\ (forall h, authorization req = Some h -> JS.blank h = true).
Proof.
  intros Hall.
  assert (JwtIdentity.getTokenFromCookie req = JwtIdentity.ErrorValue e
          /\ exists e', JwtIdentity.getTokenFromAuthBearer req = JwtIdentity.ErrorValue e')
    as [Hck [e' Hb]].
  { unfold JwtIdentity.getTokenFromAll in Hall.
    destruct (JwtIdentity.getTokenFromAuthBearer req) as [t|e'] eqn:Hb;
      [discriminate|]. eauto. }
  assert (e = AuthError "Authorization required" 401 "Unauthorized" /\ cookie req = None
          \/ e = AuthError "Token was empty" 400 "Bad Request" /\ is_Some (cookie req))
    as Hcases.
  { revert Hck. unfold JwtIdentity.getTokenFromCookie.
    destruct (cookie req) as [header|]; [|intros [= <-]; left; split; reflexivity].
    destruct (cookie_parse header !! "auth_token") as [raw|];
      [|intros [= <-]; right; split; [reflexivity|eauto]].
    cbv zeta. destruct (String.eqb (JS.trim raw) ""); [|discriminate].
    intros [= <-]. right. split; [reflexivity|eauto]. }
  split; [exact Hck|]. split; [exact Hcases|]. split.
  - destruct Hcases as [[-> _]|[-> _]]; discriminate.
  - intros h Hh. destruct req as [a c]. cbn [authorization] in Hh. subst a.
    destruct (JS.blank h) eqn:Hblank; [reflexivity|].
    destruct (bearer_not_blank h c Hblank) as [t Ht]. congruence.
Qed.

(** X3, run: a blank header and no cookie is answered with the cookie getter's
    401, not with the bearer getter's 400. *)
Lemma getTokenFromAll_errors_witness :
  let req := mkRequest (Some "  ") None in
  let e := AuthError "Authorization required" 401 "Unauthorized" in
  JwtIdentity.getTokenFromCookie req = JwtIdentity.ErrorValue e
  /\ (e = AuthError "Authorization required" 401 "Unauthorized" /\ cookie req = None
      \/ e = AuthError "Token was empty" 400 "Bad Request" /\ is_Some (cookie req))
  /\ e <> AuthError "Missing authorization header" 401 "Unauthorized"
  /\ (forall h, authorization req = Some h -> JS.blank h = true).
Proof.
  apply (getTokenFromAll_reports_cookie_errors (mkRequest (Some "  ") None)
           (AuthError "Authorization required" 401 "Unauthorized")).
  reflexivity.
Defined.

(** X4.  A token returned by [getTokenFromAll] is never empty, is not made of
    white space, and has no white space at either end. *)
Theorem extracted_token_is_trimmed `{Platform} (req : Request) (t : string) :
  JwtIdentity.getTokenFromAll req = JwtIdentity.Token t ->
  t <> "" /\ JS.trim t = t /\ JS.blank t = false.
Proof.
  intros Hall.
  assert (t <> "" /\ JS.trim t = t) as [Hne Htrim].
  { unfold JwtIdentity.getTokenFromAll in Hall.
    destruct (JwtIdentity.getTokenFromAuthBearer req) as [t'|e'] eqn:Hb.
    - injection Hall as <-. apply (bearer_token_trimmed req _ Hb).
    - apply (cookie_token_trimmed req t Hall). }
  split; [exact Hne|]. split; [exact Htrim|].
  destruct (JS.blank t) eqn:Hblank; [|reflexivity].
  apply trim_empty_iff in Hblank. congruence.
Qed.

(** X4, run: the token of a padded header. *)
Lemma extracted_token_witness :
  "abc.def" <> "" /\ JS.trim "abc.def" = "abc.def" /\ JS.blank "abc.def" = false.
Proof.
  apply (extracted_token_is_trimmed (H:=Reference.platform)
           (mkRequest (Some "Bearer  abc.def ") (Some "auth_token=xyz")) "abc.def").
  vm_compute. reflexivity.
Defined.

(** X5.  A request from which no token can be taken is resolved with the error
    object in place of the token: the verifier refuses it as 400 Bad
    Request, whatever the getter's own error was (a 401 when both headers
    are missing); the server state is left as it was and the store is not
    queried, and the hook sets the guest identity. *)
Theorem request_without_token_is_bad_request `{Platform}
    (cfg : Config) (now : Z) (s : Server) (req : Request) (e : exn) :
  JwtIdentity.getTokenFromAll req = JwtIdentity.ErrorValue e ->
  JwtIdentity.findIdentityByToken cfg now s (JwtIdentity.getTokenFromAll req)
    = (s, Throw (AuthError "jwt must be a string" 400 "Bad Request"))
  /\ AuthDecorator.onRequest cfg now s req = (AuthDecorator.set_user s guest_user, Ok tt).
Proof.
  intros Hall. unfold AuthDecorator.onRequest. rewrite Hall. split; reflexivity.
Qed.

(** X5, run: a request without headers on the booted reference server. *)
Lemma request_without_token_witness :
  let s := boot Reference.table in
  let req := mkRequest None None in
  JwtIdentity.findIdentityByToken Reference.cfg 1700000100 s
    (JwtIdentity.getTokenFromAll req)
    = (s, Throw (AuthError "jwt must be a string" 400 "Bad Request"))
  /\ AuthDecorator.onRequest Reference.cfg 1700000100 s req
     = (AuthDecorator.set_user s guest_user, Ok tt).
Proof.
  apply (request_without_token_is_bad_request Reference.cfg 1700000100
           (boot Reference.table) (mkRequest None None)
           (AuthError "Authorization required" 401 "Unauthorized")).
  reflexivity.
Defined.

(* ===================================================================== *)
(** * Further properties: the identity hook and the logout *)
(* ===================================================================== *)

Section Sessions.
Context `{Platform}.
Import Jwt JwtIdentity AuthDecorator.

Lemma findByAuthKey_key rows k m :
  findByAuthKey rows k = Some m -> User.authorization_key m = k /\ In m rows.
Proof.
  unfold findByAuthKey. intros Hf. apply find_some in Hf as [Hin Hk].
  apply String.eqb_eq in Hk. split; assumption.
Qed.

Lemma validate_ok m d m' d' :
  validate m d = Ok (m', d') ->
  m' = m /\ d' = d /\ User.status m = User.STATUS_ACTIVE
  /\ User.token_invalidate m = false /\ rol d = User.role m.
Proof.
  unfold validate, User.validateStatusOnLogin.
  destruct (Z.eqb_spec User.STATUS_ACTIVE (User.status m)) as [Hs|_]; [|discriminate].
  cbn [negb]. destruct (User.token_invalidate m); [discriminate|].
  destruct (Z.eqb_spec (rol d) (User.role m)) as [Hr|_]; [|discriminate].
  cbn [negb]. intros [= <- <-]. auto.
Qed.

Lemma validate_passes m d :
  User.status m = User.STATUS_ACTIVE -> User.token_invalidate m = false ->
  rol d = User.role m -> validate m d = Ok (m, d).
Proof.
  intros Hs Hi Hr. unfold validate, User.validateStatusOnLogin.
  rewrite Hs, Hi, Hr, !Z.eqb_refl. reflexivity.
Qed.

Lemma validate_invalidated m d :
  User.status m = User.STATUS_ACTIVE -> User.token_invalidate m = true ->
  validate m d
  = Throw (AuthError
             "Access token is expired, disabled, or deleted, or the user has globally signed out"
             400 "Bad Request").
Proof.
  intros Hs Hi. unfold validate, User.validateStatusOnLogin.
  rewrite Hs, Hi, Z.eqb_refl. reflexivity.
Qed.

(** A resolution on a reachable state: one store query for the key of the
    decoded token, and the checks on the row found. *)
Lemma findIdentityByToken_reachable cfg rows now s token d :
  reachable cfg rows s ->
  decodeToken cfg now token = Ok d ->
  findIdentityByToken cfg now s token =
    (fst (userFromDataLoader s (idt d)),
     match findByAuthKey (db s) (idt d) with
     | Some m => validate m d
     | None => Throw (AuthError "Token may invalidated or user not found" 404 "Not found")
     end).
Proof.
  intros Hr Hd. unfold findIdentityByToken. rewrite Hd.
  destruct (reachable_always_fetches cfg rows s (idt d) Hr) as [_ Hsnd].
  destruct (userFromDataLoader s (idt d)) as [s' model]. cbn [fst snd] in *.
  subst model. destruct (findByAuthKey (db s) (idt d)); reflexivity.
Qed.

Lemma findIdentityByToken_db cfg now s token :
  db (fst (findIdentityByToken cfg now s token)) = db s.
Proof.
  unfold findIdentityByToken. destruct (decodeToken cfg now token) as [d|e]; [|reflexivity].
  pose proof (userFromDataLoader_db s (idt d)) as Hdb.
  destruct (userFromDataLoader s (idt d)) as [s' [m|]]; exact Hdb.
Qed.

Lemma onRequest_db cfg now s req : db (fst (onRequest cfg now s req)) = db s.
Proof.
  unfold onRequest.
  pose proof (findIdentityByToken_db cfg now s (getTokenFromAll req)) as Hdb.
  destruct (findIdentityByToken cfg now s (getTokenFromAll req)) as [s' [[m d]|e]];
    exact Hdb.
Qed.

Lemma onRequest_fetches cfg now s req :
  fetches (fst (onRequest cfg now s req))
  = fetches (fst (findIdentityByToken cfg now s (getTokenFromAll req))).
Proof.
  unfold onRequest.
  destruct (findIdentityByToken cfg now s (getTokenFromAll req)) as [s' [[m d]|e]];
    reflexivity.
Qed.

Lemma onRequest_user_cases cfg rows now s req :
  reachable cfg rows s ->
  user (fst (onRequest cfg now s req)) = guest_user
  \/ exists m d,
       decodeToken cfg now (getTokenFromAll req) = Ok d
       /\ user (fst (onRequest cfg now s req))
          = {| isGuest := false; identity := Some m; user_id := Some (User.id m) |}
       /\ findByAuthKey (db s) (idt d) = Some m
       /\ User.status m = User.STATUS_ACTIVE
       /\ User.token_invalidate m = false
       /\ rol d = User.role m.
Proof.
  intros Hr. unfold onRequest.
  destruct (decodeToken cfg now (getTokenFromAll req)) as [d|e] eqn:Hd.
  - rewrite (findIdentityByToken_reachable cfg rows now s _ d Hr Hd).
    destruct (findByAuthKey (db s) (idt d)) as [m|] eqn:Hf; [|left; reflexivity].
    destruct (validate m d) as [[m' d']|e] eqn:Hv; [|left; reflexivity].
    apply validate_ok in Hv as (-> & -> & Hs & Hi & Hrol).
    right. exists m, d. auto 10.
  - unfold findIdentityByToken. rewrite Hd. left. reflexivity.
Qed.

Lemma findByAuthKey_save rows m :
  findByAuthKey rows (User.authorization_key m) = Some m ->
  findByAuthKey (Logout.save (Logout.invalidated m) rows) (User.authorization_key m)
  = Some (Logout.invalidated m).
Proof.
  unfold findByAuthKey, Logout.save.
  induction rows as [|u rows IH]; [discriminate|].
  cbn [find fmap list_fmap]. change (User.id (Logout.invalidated m)) with (User.id m).
  destruct (String.eqb_spec (User.authorization_key u) (User.authorization_key m))
    as [Hk|Hk].
  - intros [= ->]. rewrite Z.eqb_refl. cbn [User.authorization_key Logout.invalidated].
    rewrite String.eqb_refl. reflexivity.
  - intros Hrest. specialize (IH Hrest). destruct (User.id u =? User.id m).
    + cbn [User.authorization_key Logout.invalidated]. rewrite String.eqb_refl.
      reflexivity.
    + destruct (String.eqb_spec (User.authorization_key u) (User.authorization_key m));
        [contradiction|exact IH].
Qed.

(** On every reachable state [fastify.user] is the guest identity or an
    active user of the table. *)
Lemma reachable_identity_in_table cfg rows s :
  reachable cfg rows s -> identity_in_table s.
Proof.
  induction 1 as [|s now req Hr IH|s Hr IH].
  - left. reflexivity.
  - destruct (onRequest_user_cases cfg rows now s req Hr)
      as [Hg|(m & d & _ & Hu & Hf & Hs & _)].
    + left. exact Hg.
    + right. exists m. rewrite onRequest_db.
      destruct (findByAuthKey_key _ _ _ Hf) as [Hk _]. rewrite Hk. auto.
  - unfold Logout.logout. destruct IH as [Hg|(m & Hu & Hf & Hs)].
    + rewrite Hg. cbn [identity guest_user fst]. left. exact Hg.
    + rewrite Hu. cbn [identity isGuest user_id fst]. right.
      exists (Logout.invalidated m). cbn [user db]. split; [reflexivity|].
      split; [|exact Hs]. apply (findByAuthKey_save (db s) m Hf).
Qed.

Lemma serve_reachable cfg rows s reqs :
  reachable cfg rows s -> reachable cfg rows (serve cfg s reqs).
Proof.
  revert s. induction reqs as [|[now req] reqs IH]; intros s Hr; [exact Hr|].
  cbn [serve fold_left]. apply IH. apply reach_request. exact Hr.
Qed.

Lemma serve_db cfg s reqs : db (serve cfg s reqs) = db s.
Proof.
  revert s. induction reqs as [|[now req] reqs IH]; intros s; [reflexivity|].
  cbn [serve fold_left]. unfold serve in IH. rewrite IH. apply onRequest_db.
Qed.

Lemma userFromDataLoader_other_keys s k k' :
  plain_cache (authUsers s) -> k' <> k ->
  authUsers (fst (userFromDataLoader s k)) !! k' = authUsers s !! k'.
Proof.
  intros Hp Hne. rewrite (userFromDataLoader_plain s k Hp). cbn [fst authUsers].
  unfold DataLoader.prime. destruct (authUsers s !! k); [reflexivity|].
  apply lookup_insert_ne. congruence.
Qed.

End Sessions.







(** X9.  What the logout mutation changes for a signed-in identity [m]: the
    table keeps its length, every row with another id stays, and every row
    of the new table is the invalidated identity or an old row with another
    id; the loader entry under [m]'s authorization key is gone and no other
    entry changes; no store query is counted, and [fastify.user] still
    reads as signed in with the same id for the rest of the request. *)
Theorem logout_frame (s : Server) (m : User.t) :
  identity (user s) = Some m ->
  let s' := fst (Logout.logout s) in
  snd (Logout.logout s) = Ok true
  /\ length (db s') = length (db s)
  /\ (forall u, u ∈ db s -> User.id u <> User.id m -> u ∈ db s')
  /\ (forall u, u ∈ db s' ->
        u = Logout.invalidated m \/ (u ∈ db s /\ User.id u <> User.id m))
  /\ authUsers s' !! User.authorization_key m = None
  /\ (forall k, k <> User.authorization_key m -> authUsers s' !! k = authUsers s !! k)
  /\ fetches s' = fetches s
  /\ isGuest (user s') = isGuest (user s)
  /\ user_id (user s') = user_id (user s)
  /\ identity (user s') = Some (Logout.invalidated m).
Proof.
  intros Hid s'. subst s'. unfold Logout.logout. rewrite Hid. cbn [fst snd db authUsers
    fetches user isGuest user_id identity].
  split; [reflexivity|]. split; [apply length_fmap|]. split; [|split].
  - intros u Hu Hne. unfold Logout.save. apply list_elem_of_fmap. exists u.
    split; [|exact Hu]. change (User.id (Logout.invalidated m)) with (User.id m).
    destruct (Z.eqb_spec (User.id u) (User.id m)); [contradiction|reflexivity].
  - intros u Hu. unfold Logout.save in Hu. apply list_elem_of_fmap in Hu as (u0 & -> & Hu0).
    change (User.id (Logout.invalidated m)) with (User.id m).
    destruct (Z.eqb_spec (User.id u0) (User.id m)); [left; reflexivity|right; auto].
  - split; [apply lookup_delete_eq|]. split; [|auto].
    intros k Hk. apply lookup_delete_ne. congruence.
Qed.

(** X9, run: [alice] logs out on the reference server; [bob_blocked]'s row stays. *)
Lemma logout_frame_witness :
  let s := fst (AuthDecorator.onRequest Reference.cfg 1700000100 (boot Reference.table)
                  (Reference.bearer (Reference.token_for Reference.alice 3))) in
  Reference.bob_blocked ∈ db (fst (Logout.logout s))
  /\ authUsers (fst (Logout.logout s)) !! "key-alice" = None.
Proof.
  intros s.
  assert (identity (user s) = Some Reference.alice) as Hid by (vm_compute; reflexivity).
  destruct (logout_frame s Reference.alice Hid) as (_ & _ & Hkeep & _ & Hgone & _).
  split; [|exact Hgone].
  apply Hkeep; [|vm_compute; discriminate].
  vm_compute. right. left.
Defined.

(* ===================================================================== *)
(** * Further properties: the directives *)
(* ===================================================================== *)

Section Directives.

Lemma auth_validateArguments_guest {V} args ctx (details : gmap string V) :
  isGuest (app_user ctx) = true ->
  AuthDirective.validateArguments args ctx details = Ok tt
  \/ AuthDirective.validateArguments args ctx details
     = Throw (RequestError (request_t ctx "Not Authorized" []) "UNAUTHORIZED").
Proof.
  intros Hg. unfold AuthDirective.validateArguments.
  induction args as [|arg args IH]; [left; reflexivity|].
  cbn [forEach].
  destruct (bool_decide (is_Some (_authData arg))
            && bool_decide (is_Some (details !! name arg))).
  - right. rewrite (auth_checkPermission_guest ctx _ Hg). reflexivity.
  - exact IH.
Qed.

Lemma auth_wrapper_guest {W V A} objectType field fieldArgs (resolve : Resolver W V)
    (details : gmap string A) ctx w :
  isGuest (app_user ctx) = true ->
  is_Some (_authData objectType) \/ is_Some (_authData field) ->
  AuthDirective.wrapped_resolve objectType field fieldArgs resolve details ctx w
  = (w, Throw (RequestError (request_t ctx "Not Authorized" []) "UNAUTHORIZED")).
Proof.
  intros Hg Hrule. unfold AuthDirective.wrapped_resolve.
  assert (bool_decide (is_Some (_authData objectType))
          || bool_decide (is_Some (_authData field)) = true) as ->.
  { apply orb_true_iff. destruct Hrule as [Ho|Hf]; [left|right];
      apply bool_decide_eq_true_2; assumption. }
  rewrite (auth_checkPermission_guest ctx _ Hg).
  destruct (AuthDirective.nonempty fieldArgs); [|reflexivity].
  destruct (auth_validateArguments_guest fieldArgs ctx details Hg) as [->| ->];
    reflexivity.
Qed.

Lemma wrapper_outcome {W V} (checks : result unit) (resolve : Resolver W V) w :
  (exists e, match checks with Ok _ => resolve w | Throw e => (w, Throw e) end
             = (w, Throw e))
  \/ match checks with Ok _ => resolve w | Throw e => (w, Throw e) end = resolve w.
Proof. destruct checks as [u|e]; [right; reflexivity|left; eauto]. Qed.

Lemma guest_wrapper_signed_in {W V A} objectType field fieldArgs (resolve : Resolver W V)
    (details : gmap string A) ctx w :
  isGuest (app_user ctx) = false ->
  _guestOnly field || _guestOnly objectType = true ->
  exists e, GuestDirective.wrapped_resolve objectType field fieldArgs resolve details ctx w
            = (w, Throw e).
Proof.
  intros Hg Hrule. unfold GuestDirective.wrapped_resolve. rewrite Hrule.
  rewrite guest_checkPermission_eq, Hg.
  destruct (if AuthDirective.nonempty fieldArgs
            then GuestDirective.validateArguments fieldArgs ctx details else Ok tt)
    as [u|e]; cbn; eauto.
Qed.

Lemma checkPermission_errors ctx r e :
  AuthDirective.checkPermission ctx r = Throw e ->
  (exists msg code, e = RequestError msg code /\ code ∈ auth_codes)
  \/ (e = TypeError "Cannot read properties of null"
      /\ isGuest (app_user ctx) = false /\ identity (app_user ctx) = None).
Proof.
  destruct (identity (app_user ctx)) as [m|] eqn:Hid.
  - rewrite (auth_checkPermission_steps ctx r m Hid). intros Hthrow. left.
    unfold auth_codes.
    repeat match type of Hthrow with
           | (if ?c then _ else _) = _ => destruct c
           end; try discriminate; injection Hthrow as <-;
      eexists _, _; (split; [reflexivity|]); set_solver.
  - unfold AuthDirective.checkPermission, AuthDirective.identity_field. rewrite Hid.
    unfold auth_codes.
    destruct (isGuest (app_user ctx)).
    + intros [= <-]. left. eexists _, _. split; [reflexivity|set_solver].
    + destruct (AuthDirective.nonempty (ad_role r)); cbn;
        [intros [= <-]; right; auto|].
      destruct (AuthDirective.nonempty (ad_status r)); cbn;
        [intros [= <-]; right; auto|].
      destruct (AuthDirective.nonempty (ad_id r)
                && negb (AuthDirective.includes_id (ad_id r) (user_id (app_user ctx))));
        [|discriminate].
      intros [= <-]. left. eexists _, _. split; [reflexivity|set_solver].
Qed.

End Directives.

(* ===================================================================== *)
(** * Failures of the resolution and of the rules *)
(* ===================================================================== *)

Section Failures.
Context `{Platform}.
Import Jwt JwtIdentity AuthDecorator.

Lemma userFromDataLoader_over_table s k :
  userFromDataLoader_over (table_store (db s)) s k
  = (fst (userFromDataLoader s k), Ok (snd (userFromDataLoader s k))).
Proof.
  unfold userFromDataLoader_over, userFromDataLoader, table_store.
  destruct (DataLoader.load DataLoader.authUsers_batch (authUsers s) k) as [cache loaded].
  destruct (match loaded ≫= DataLoader.destructure_first with
            | Ok (Some m) => if User.token_invalidate m then None else Some m
            | Ok None => None
            | Throw _ => None
            end); reflexivity.
Qed.

(** Over the table of the server, which answers every query, the
    resolution is [findIdentityByToken]. *)
Lemma findIdentityByToken_over_table cfg now s token :
  findIdentityByToken_over (table_store (db s)) cfg now s token
  = findIdentityByToken cfg now s token.
Proof.
  unfold findIdentityByToken_over, findIdentityByToken.
  destruct (decodeToken cfg now token) as [d|e]; [|reflexivity].
  rewrite userFromDataLoader_over_table.
  destruct (userFromDataLoader s (idt d)) as [s' [m|]]; reflexivity.
Qed.

Lemma findIdentityByToken_over_failure query cfg now s token e :
  snd (findIdentityByToken_over query cfg now s token) = Throw e ->
  resolver_error e \/ exists key, query key = Throw e.
Proof.
  unfold findIdentityByToken_over.
  destruct (decodeToken cfg now token) as [d|e'] eqn:Hd.
  - unfold userFromDataLoader_over.
    destruct (DataLoader.load DataLoader.authUsers_batch (authUsers s) (idt d))
      as [cache loaded].
    destruct (match loaded ≫= DataLoader.destructure_first with
              | Ok (Some m) => if User.token_invalidate m then None else Some m
              | Ok None => None
              | Throw _ => None
              end) as [m|].
    + cbn [snd]. intros Hv. left. apply (validate_failure m d e Hv).
    + destruct (query (idt d)) as [[m|]|e'] eqn:Hq; cbn [snd].
      * intros Hv. left. apply (validate_failure m d e Hv).
      * intros [= <-]. left. exists "Token may invalidated or user not found". auto.
      * intros [= <-]. right. exists (idt d). exact Hq.
  - cbn [snd]. intros [= <-]. left.
    destruct (decodeToken_failure cfg now token e' Hd) as [msg ->].
    exists msg. auto.
Qed.

(** The exception of a store query leaves the resolution as it is. *)
Lemma findIdentityByToken_over_store_throws query cfg now s token d e :
  plain_cache (authUsers s) ->
  decodeToken cfg now token = Ok d ->
  query (idt d) = Throw e ->
  snd (findIdentityByToken_over query cfg now s token) = Throw e.
Proof.
  intros Hplain Hd Hq. unfold findIdentityByToken_over, userFromDataLoader_over.
  rewrite Hd, load_authUsers.
  destruct (authUsers s !! idt d) as [v|] eqn:Hv.
  - cbn [mbind result_bind]. rewrite (Hplain _ _ Hv), Hq. reflexivity.
  - cbn [mbind result_bind]. rewrite Hq. reflexivity.
Qed.

Lemma onRequest_over_settles query cfg now s req :
  snd (onRequest_over query cfg now s req) = Ok tt.
Proof.
  unfold onRequest_over.
  destruct (findIdentityByToken_over query cfg now s (getTokenFromAll req))
    as [s' [[m d]|e]]; reflexivity.
Qed.

Lemma onRequest_over_failure query cfg now s req e :
  snd (findIdentityByToken_over query cfg now s (getTokenFromAll req)) = Throw e ->
  user (fst (onRequest_over query cfg now s req)) = guest_user.
Proof.
  unfold onRequest_over.
  destruct (findIdentityByToken_over query cfg now s (getTokenFromAll req))
    as [s' [[m d]|e']]; [discriminate|reflexivity].
Qed.

Lemma auth_validateArguments_errors {V} args ctx (details : gmap string V) e :
  AuthDirective.validateArguments args ctx details = Throw e ->
  (exists msg code, e = RequestError msg code /\ code ∈ auth_codes)
  \/ (e = TypeError "Cannot read properties of null"
      /\ isGuest (app_user ctx) = false /\ identity (app_user ctx) = None).
Proof.
  unfold AuthDirective.validateArguments.
  apply (forEach_throw _ args
           (fun e => (exists msg code, e = RequestError msg code /\ code ∈ auth_codes)
                     \/ (e = TypeError "Cannot read properties of null"
                         /\ isGuest (app_user ctx) = false
                         /\ identity (app_user ctx) = None))).
  intros arg e'.
  destruct (bool_decide (is_Some (_authData arg))
            && bool_decide (is_Some (details !! name arg))); [|discriminate].
  apply checkPermission_errors.
Qed.

End Failures.









(** X12.  A rule on the field replaces the rule of its object type as a whole:
    the three lists checked are the field's own, also where they are empty,
    so the outcome of the wrapped field does not depend on the rule of the
    type. *)
Theorem field_rule_replaces_type_rule (objectType field : Decorated) (r : AuthData) :
  _authData field = Some r ->
  AuthDirective.funcArg objectType field = r
  /\ forall (W V A : Type) (other : Decorated) (fieldArgs : list Decorated)
            (resolve : Resolver W V) (details : gmap string A) (ctx : GraphQLContext)
            (w : W),
       AuthDirective.wrapped_resolve objectType field fieldArgs resolve details ctx w
       = AuthDirective.wrapped_resolve other field fieldArgs resolve details ctx w.
Proof.
  intros Hf.
  assert (forall o, AuthDirective.funcArg o field = r) as Harg.
  { intros o. unfold AuthDirective.funcArg, AuthDirective.getAuthProp. rewrite Hf.
    destruct r. reflexivity. }
  split; [apply Harg|].
  intros W V A other fieldArgs resolve details ctx w.
  unfold AuthDirective.wrapped_resolve. rewrite !Harg, Hf.
  rewrite (bool_decide_eq_true_2 (is_Some (Some r))) by eauto.
  rewrite !orb_true_r. reflexivity.
Qed.

(** X12, run: a bare [@auth] on a field of a type restricted to the role ADMIN
    lets the customer [alice] through to the handler. *)
Lemma field_rule_witness :
  let admin_only := mkDecorated "Query" (Some (mkAuthData ["ADMIN"] [] [])) false in
  let field := mkDecorated "me" (Some (mkAuthData [] [] [])) false in
  AuthDirective.funcArg admin_only field = mkAuthData [] [] []
  /\ AuthDirective.wrapped_resolve (W:=nat) (V:=bool) (A:=bool) admin_only field []
       (fun w => (S w, Ok true)) ∅ (signed_in Reference.alice) 0%nat
     = (1%nat, Ok true).
Proof.
  intros admin_only field.
  destruct (field_rule_replaces_type_rule admin_only field (mkAuthData [] [] []) eq_refl)
    as [Harg Hsame].
  split; [exact Harg|].
  rewrite (Hsame nat bool bool (mkDecorated "Query" None false)). reflexivity.
Defined.

(** X13.  A guest never reaches the handler of a field under an [@auth] rule: when
    the field or its object type carries the rule, the wrapped field fails
    with UNAUTHORIZED "Not Authorized" and leaves the world as it was,
    whatever the rule lists and whatever arguments were supplied. *)
Theorem auth_rule_stops_guests (W V A : Type) (objectType field : Decorated)
    (fieldArgs : list Decorated) (resolve : Resolver W V) (details : gmap string A)
    (ctx : GraphQLContext) (w : W) :
  isGuest (app_user ctx) = true ->
  is_Some (_authData objectType) \/ is_Some (_authData field) ->
  AuthDirective.wrapped_resolve objectType field fieldArgs resolve details ctx w
  = (w, Throw (RequestError (request_t ctx "Not Authorized" []) "UNAUTHORIZED")).
Proof. apply auth_wrapper_guest. Qed.

(** X13, run: a guest calls a field of a type under [@auth]. *)
Lemma auth_rule_stops_guests_witness :
  AuthDirective.wrapped_resolve (W:=nat) (V:=bool) (A:=bool)
    (mkDecorated "Mutation" (Some (mkAuthData [] [] [])) false)
    (mkDecorated "logout" None false) [] (fun w => (S w, Ok true)) ∅ guest_context 0%nat
  = (0%nat, Throw (RequestError "Not Authorized" "UNAUTHORIZED")).
Proof.
  apply (auth_rule_stops_guests nat bool bool
           (mkDecorated "Mutation" (Some (mkAuthData [] [] [])) false)
           (mkDecorated "logout" None false) [] (fun w => (S w, Ok true)) ∅
           guest_context 0%nat).
  - reflexivity.
  - left. eexists. reflexivity.
Defined.

(** X14.  A field under both an [@auth] rule and a guest-only rule cannot be
    called by anyone: with the two wrappers installed in either order, the
    call fails for every caller and the handler does not run. *)
Theorem auth_and_guest_rules_exclude_each_other (W V A : Type)
    (objectType field : Decorated) (fieldArgs : list Decorated) (resolve : Resolver W V)
    (details : gmap string A) (ctx : GraphQLContext) (w : W) :
  is_Some (_authData objectType) \/ is_Some (_authData field) ->
  _guestOnly field || _guestOnly objectType = true ->
  (exists e,
     AuthDirective.wrapped_resolve objectType field fieldArgs
       (GuestDirective.wrapped_resolve objectType field fieldArgs resolve details ctx)
       details ctx w = (w, Throw e))
  /\ (exists e,
        GuestDirective.wrapped_resolve objectType field fieldArgs
          (AuthDirective.wrapped_resolve objectType field fieldArgs resolve details ctx)
          details ctx w = (w, Throw e)).
Proof.
  intros Hauth Hguest. destruct (isGuest (app_user ctx)) eqn:Hg.
  - split.
    + rewrite (auth_wrapper_guest objectType field fieldArgs _ details ctx w Hg Hauth).
      eauto.
    + unfold GuestDirective.wrapped_resolve at 1.
      match goal with
      | |- exists e, match ?c with Ok _ => _ | Throw _ => _ end = _ =>
          destruct c as [u|e]; [|eauto]
      end.
      rewrite (auth_wrapper_guest objectType field fieldArgs _ details ctx w Hg Hauth).
      eauto.
  - split.
    + unfold AuthDirective.wrapped_resolve at 1.
      match goal with
      | |- exists e, match ?c with Ok _ => _ | Throw _ => _ end = _ =>
          destruct c as [u|e]; [|eauto]
      end.
      apply (guest_wrapper_signed_in objectType field fieldArgs _ details ctx w Hg Hguest).
    + apply (guest_wrapper_signed_in objectType field fieldArgs _ details ctx w Hg Hguest).
Qed.

(** X14, run: neither a guest nor [alice] reaches a field marked with both rules. *)
Lemma auth_and_guest_rules_witness :
  let field := mkDecorated "login" (Some (mkAuthData [] [] [])) true in
  let type := mkDecorated "Mutation" None false in
  let handler : Resolver nat bool := fun w => (S w, Ok true) in
  (exists e,
     AuthDirective.wrapped_resolve (A:=bool) type field []
       (GuestDirective.wrapped_resolve (A:=bool) type field [] handler ∅ guest_context)
       ∅ guest_context 0%nat = (0%nat, Throw e))
  /\ (exists e,
        GuestDirective.wrapped_resolve (A:=bool) type field []
          (AuthDirective.wrapped_resolve (A:=bool) type field [] handler ∅ guest_context)
          ∅ guest_context 0%nat = (0%nat, Throw e)).
Proof.
  intros field type handler.
  apply (auth_and_guest_rules_exclude_each_other nat bool bool type field [] handler ∅
           guest_context 0%nat).
  - right. eexists. reflexivity.
  - reflexivity.
Defined.

(* ===================================================================== *)
(** * Further properties: issued tokens *)
(* ===================================================================== *)

Section IssuedTokens.
Context `{Platform} `{!PlatformLaws H}.
Import Jwt JwtIdentity AuthDecorator.

Lemma verify_signed cfg now secret algorithm p :
  JwtLib.verify (jwt_secret cfg) now (JwtLib.sign secret algorithm p) (decode_options cfg)
  = if String.eqb algorithm "none" then inl "jwt signature is required"
    else if negb (String.eqb algorithm "HS512") then inl "invalid algorithm"
    else if negb (String.eqb secret (jwt_secret cfg)) then inl "invalid signature"
    else if now <? nbf p then inl "jwt not active"
    else if exp p <=? now then inl "jwt expired"
    else JwtLib.verify (jwt_secret cfg) now (JwtLib.sign secret algorithm p)
           (decode_options cfg).
Proof.
  unfold JwtLib.verify, JwtLib.sign.
  destruct (String.eqb_spec
              (jws_encode {| alg := algorithm; signed_with := secret; payload := p |}) "")
    as [Hempty|_]; [exfalso; exact (jws_encode_nonempty _ Hempty)|].
  rewrite jws_decode_encode. cbn [alg signed_with payload decode_options algorithms].
  destruct (String.eqb algorithm "none"); [reflexivity|].
  destruct (String.eqb_spec algorithm "HS512") as [->|Halg].
  - rewrite bool_decide_eq_true_2 by (left; reflexivity). cbn [negb].
    destruct (negb (String.eqb secret (jwt_secret cfg))); [reflexivity|].
    destruct (now <? nbf p); [reflexivity|].
    destruct (exp p <=? now); reflexivity.
  - rewrite bool_decide_eq_false_2; [reflexivity|].
    intros Hin. apply list_elem_of_singleton in Hin. contradiction.
Qed.

Lemma decodeToken_issued cfg t0 now authKey role :
  jti_agree cfg ->
  decodeToken cfg now
    (Token (JwtLib.sign (jwt_secret cfg) "HS512" (issued_claims cfg t0 authKey role)))
  = if now <? nbf (issued_claims cfg t0 authKey role)
    then Throw (AuthError "jwt not active" 400 "Bad Request")
    else if exp (issued_claims cfg t0 authKey role) <=? now
    then Throw (AuthError "jwt expired" 400 "Bad Request")
    else Ok (issued_claims cfg t0 authKey role).
Proof.
  intros Hjti.
  assert (String.eqb "HS512" "none" = false) as Hnone by reflexivity.
  destruct (Z.ltb_spec now (nbf (issued_claims cfg t0 authKey role))) as [Hearly|Hnbf];
    [|destruct (Z.leb_spec (exp (issued_claims cfg t0 authKey role)) now) as [Hlate|Hexp]].
  - unfold decodeToken.
    rewrite verify_signed, Hnone, !String.eqb_refl. cbn [negb].
    apply Z.ltb_lt in Hearly. rewrite Hearly. reflexivity.
  - unfold decodeToken.
    rewrite verify_signed, Hnone, !String.eqb_refl. cbn [negb].
    apply Z.ltb_ge in Hnbf. apply Z.leb_le in Hlate. rewrite Hnbf, Hlate. reflexivity.
  - apply roundtrip_when_jti_agree; [exact Hjti|lia].
Qed.

Lemma array_entry_lookup s k m rest :
  authUsers s !! k = Some (DataLoader.VArray (Some m :: rest)) ->
  userFromDataLoader s k =
    if User.token_invalidate m
    then ({| db := db s; authUsers := authUsers s; user := user s;
             fetches := k :: fetches s |},
          findByAuthKey (db s) k)
    else (s, Some m).
Proof.
  intros Hk. unfold userFromDataLoader. rewrite load_authUsers, Hk.
  cbn [mbind result_bind DataLoader.destructure_first head].
  change (mjoin (Some (Some m))) with (Some m). cbv iota beta.
  destruct (User.token_invalidate m).
  - unfold DataLoader.prime. rewrite Hk. reflexivity.
  - destruct s. reflexivity.
Qed.

End IssuedTokens.







(** X18.  The loader entry that the array pattern of [userFromDataLoader] fits:
    when the cache holds an array whose first element is a user who has not
    signed out, that user is returned with no store query and the server is
    left as it was; when the cached user has signed out, the store is
    queried for the key and the stale entry stays in the cache. *)
Theorem array_entry_is_served_from_cache `{Platform}
    (s : Server) (k : string) (m : User.t) (rest : list (option User.t)) :
  authUsers s !! k = Some (DataLoader.VArray (Some m :: rest)) ->
  (User.token_invalidate m = false -> JwtIdentity.userFromDataLoader s k = (s, Some m))
  /\ (User.token_invalidate m = true ->
      JwtIdentity.userFromDataLoader s k
      = ({| db := db s; authUsers := authUsers s; user := user s;
            fetches := k :: fetches s |},
         JwtIdentity.findByAuthKey (db s) k)).
Proof.
  intros Hk. rewrite (array_entry_lookup s k m rest Hk).
  split; intros ->; reflexivity.
Qed.

(** X18, run: a cache primed with a one-element array; the table is not read,
    although it has no row for the key. *)
Lemma array_entry_witness :
  let s := mkServer [] {["key-alice" := DataLoader.VArray [Some Reference.alice]]}
             guest_user [] in
  JwtIdentity.userFromDataLoader s "key-alice" = (s, Some Reference.alice).
Proof.
  intros s.
  apply (proj1 (array_entry_is_served_from_cache (H:=Reference.platform)
                  s "key-alice" Reference.alice [] (lookup_singleton_eq _ _))).
  reflexivity.
Defined.

(* ===================================================================== *)
(** * Further properties: the user model and its loaders *)
(* ===================================================================== *)

Section UserModel.
Import UserMethods UsersDataLoader.

Lemma filter_filter {A} (p q : A -> bool) (l : list A) :
  List.filter p (List.filter q l) = List.filter (fun x => p x && q x) l.
Proof.
  induction l as [|x l IH]; [reflexivity|]. cbn [List.filter].
  destruct (q x); cbn [List.filter]; rewrite ?andb_true_r, ?andb_false_r.
  - destruct (p x); rewrite IH; reflexivity.
  - exact IH.
Qed.

Lemma filter_ext_in {A} (p q : A -> bool) (l : list A) :
  (forall x, p x = q x) -> List.filter p l = List.filter q l.
Proof.
  intros Hpq. induction l as [|x l IH]; [reflexivity|].
  cbn [List.filter]. rewrite Hpq, IH. reflexivity.
Qed.

Lemma ownerUsers_entry table ids id :
  id ∈ ids ->
  List.filter (fun x => User.id x =? id) (findAll_active table ids)
  = List.filter (fun u => (User.id u =? id) && (User.status u =? User.STATUS_ACTIVE)) table.
Proof.
  intros Hin. unfold findAll_active. rewrite filter_filter. apply filter_ext_in.
  intros u. destruct (Z.eqb_spec (User.id u) id) as [->|_]; [|reflexivity].
  rewrite bool_decide_eq_true_2 by exact Hin. reflexivity.
Qed.

End UserModel.

(** X19.  [roleToAccountType] and [typeToRole] are inverse to each other, and
    [isRole] holds exactly for the role that the user's account type names;
    an account type without a role has none. *)
Theorem role_and_account_type_are_inverse (role : string) (type : Z) (m : User.t) :
  (UserMethods.roleToAccountType role = Some type <-> User.typeToRole type = Some role)
  /\ (UserMethods.isRole m role = true
      <-> UserMethods.roleToAccountType role = Some (User.role m))
  /\ (User.typeToRole (User.role m) = None -> UserMethods.isRole m role = false).
Proof.
  unfold UserMethods.roleToAccountType, UserMethods.isRole, User.typeToRole.
  split; [|split].
  - destruct (String.eqb_spec role User.ROLE_CUSTOMER) as [->|Hr];
      destruct (Z.eqb_spec type User.TYPE_CUSTOMER) as [->|Ht];
      split; intros Heq; try reflexivity; try discriminate; congruence.
  - rewrite bool_decide_eq_true.
    destruct (String.eqb_spec role User.ROLE_CUSTOMER) as [->|Hr];
      destruct (Z.eqb_spec (User.role m) User.TYPE_CUSTOMER) as [->|Ht];
      split; intros Heq; try reflexivity; try discriminate; congruence.
  - intros ->. apply bool_decide_eq_false_2. discriminate.
Qed.

(** X19, run: a user whose account type has no role. *)
Lemma role_and_account_type_witness :
  UserMethods.isRole (User.mk 9 "x@example.org" "key-x" 7 10 false) "CUSTOMER" = false.
Proof.
  apply (proj2 (proj2 (role_and_account_type_are_inverse "CUSTOMER" 3
                         (User.mk 9 "x@example.org" "key-x" 7 10 false)))).
  reflexivity.
Defined.

(** X20.  [getProperId] throws only for a guest who passes no id while guests are
    not allowed.  An explicit id other than zero is returned as it is; the
    id zero counts as no id and gives the current user's id, and for a
    guest it does so without the guest check, also when guests are not
    allowed. *)
Theorem getProperId_cases (u : FastifyIdentity) (userId : option Z) (allowGuest : bool) :
  ((exists message, UserMethods.getProperId u userId allowGuest = inl message)
   <-> isGuest u = true /\ userId = None /\ allowGuest = false)
  /\ (isGuest u = true -> userId = None -> allowGuest = false ->
      UserMethods.getProperId u userId allowGuest = inl "Guest user is not allowed")
  /\ (forall n, userId = Some n -> n <> 0 ->
        UserMethods.getProperId u userId allowGuest = inr (Some n))
  /\ (userId = Some 0 -> UserMethods.getProperId u userId allowGuest = inr (user_id u))
  /\ (userId = None -> isGuest u = false ->
      UserMethods.getProperId u userId allowGuest = inr (user_id u))
  /\ (userId = None -> isGuest u = true -> allowGuest = true ->
      UserMethods.getProperId u userId allowGuest = inr None).
Proof.
  unfold UserMethods.getProperId. split; [|split; [|split; [|split; [|split]]]].
  - destruct (isGuest u), userId as [n|], allowGuest; cbn; split;
      try (intros [msg Hm]; discriminate Hm);
      try (intros (Hg & Hn & Ha); discriminate);
      try (destruct n; intros [msg Hm]; discriminate Hm);
      eauto.
  - intros -> -> ->. reflexivity.
  - intros n -> Hn. rewrite andb_false_r. destruct n; [contradiction|reflexivity..].
  - intros ->. rewrite andb_false_r. reflexivity.
  - intros -> ->. reflexivity.
  - intros -> -> ->. reflexivity.
Qed.

(** X20, run: a guest passing the id zero while guests are not allowed gets
    [null] back instead of the error. *)
Lemma getProperId_witness :
  UserMethods.getProperId guest_user (Some 0) false = inr None
  /\ UserMethods.getProperId guest_user None false = inl "Guest user is not allowed".
Proof.
  split.
  - apply (proj1 (proj2 (proj2 (proj2 (getProperId_cases guest_user (Some 0) false))))).
    reflexivity.
  - apply (proj1 (proj2 (getProperId_cases guest_user None false))); reflexivity.
Defined.

(** X21.  The batch function of the [ownerUsers] loader answers with one array
    for each requested id, in the order of the ids: the active rows of the
    table with that id.  An id with no active row gets the empty array, and
    the rows fetched for the other ids do not matter.  The answer is an
    array with one value for each key, as the loader requires, and each
    value fits the array pattern of a caller. *)
Theorem ownerUsers_batch_entries (table : list User.t) (ids : list Z) :
  length (UsersDataLoader.ownerUsers_batch table ids) = length ids
  /\ (forall i id, ids !! i = Some id ->
        UsersDataLoader.ownerUsers_batch table ids !! i
        = Some (List.filter
                  (fun u => (User.id u =? id) && (User.status u =? User.STATUS_ACTIVE))
                  table))
  /\ (forall i id, ids !! i = Some id ->
        (forall u, u ∈ table -> User.id u = id -> User.status u <> User.STATUS_ACTIVE) ->
        UsersDataLoader.ownerUsers_batch table ids !! i = Some [])
  /\ (exists values,
        UsersDataLoader.ownerUsers_result table ids = DataLoader.BatchArray values
        /\ length values = length ids
        /\ forall v, v ∈ values -> exists first, DataLoader.destructure_first v = Ok first).
Proof.
  assert (forall i id, ids !! i = Some id ->
            UsersDataLoader.ownerUsers_batch table ids !! i
            = Some (List.filter
                      (fun u => (User.id u =? id) && (User.status u =? User.STATUS_ACTIVE))
                      table)) as Hentry.
  { intros i id Hi. unfold UsersDataLoader.ownerUsers_batch. cbv zeta.
    rewrite list_lookup_fmap, Hi. cbn [fmap option_fmap option_map]. f_equal.
    apply ownerUsers_entry. apply (list_elem_of_lookup_2 _ _ _ Hi). }
  split; [apply length_fmap|]. split; [exact Hentry|]. split.
  2:{ eexists. split; [reflexivity|]. split.
      - unfold UsersDataLoader.ownerUsers_batch. rewrite !length_fmap. reflexivity.
      - intros v Hv. apply list_elem_of_fmap in Hv as (entry & -> & _).
        cbn [DataLoader.destructure_first]. eauto. }
  intros i id Hi Hnone. rewrite (Hentry i id Hi). f_equal. clear Hentry.
  induction table as [|u table IH]; [reflexivity|]. cbn [List.filter].
  destruct (Z.eqb_spec (User.id u) id) as [Hid|_]; cbn [andb].
  - destruct (Z.eqb_spec (User.status u) User.STATUS_ACTIVE) as [Hs|_].
    + exfalso. apply (Hnone u); [left|exact Hid|exact Hs].
    + apply IH. intros u' Hu'. apply Hnone. right. exact Hu'.
  - apply IH. intros u' Hu'. apply Hnone. right. exact Hu'.
Qed.

(** X21, run: the ids of [alice] (active), [bob_blocked] and an unknown user on
    the reference table. *)
Lemma ownerUsers_batch_witness :
  UsersDataLoader.ownerUsers_batch Reference.table [2; 1; 99] !! 1%nat
  = Some [Reference.alice]
  /\ UsersDataLoader.ownerUsers_batch Reference.table [2; 1; 99] !! 0%nat = Some [].
Proof.
  split.
  - apply (proj1 (proj2 (ownerUsers_batch_entries Reference.table [2; 1; 99])) 1%nat 1).
    reflexivity.
  - apply (proj1 (proj2 (proj2 (ownerUsers_batch_entries Reference.table [2; 1; 99])))
             0%nat 2).
    + reflexivity.
    + intros u Hu Hid. unfold Reference.table in Hu.
      repeat match goal with
             | Hu : _ ∈ _ :: _ |- _ => apply elem_of_cons in Hu as [->|Hu]
             | Hu : _ ∈ [] |- _ => apply elem_of_nil in Hu; contradiction
             end; vm_compute in Hid |- *; first [discriminate Hid|discriminate].
Defined.

(* ===================================================================== *)
(** * Further properties: generating a password reset token *)
(* ===================================================================== *)

Section GeneratedToken.
Import JS UserSecurityTrait.

Lemma decimal_fuel_digits fuel n acc :
  Forall (fun d => (d < 10)%nat) acc ->
  Forall (fun d => (d < 10)%nat) (decimal_fuel fuel n acc).
Proof.
  revert n acc. induction fuel as [|fuel IH]; intros n acc Hacc; [exact Hacc|].
  cbn [decimal_fuel]. cbv zeta.
  assert (Forall (fun d => (d < 10)%nat) (Z.to_nat (n mod 10) :: acc)) as Hacc'.
  { constructor; [|exact Hacc].
    pose proof (Z.mod_pos_bound n 10 ltac:(lia)). lia. }
  destruct (n <? 10); [exact Hacc'|]. apply IH, Hacc'.
Qed.

Lemma decimal_fuel_nonempty fuel n acc : acc <> [] -> decimal_fuel fuel n acc <> [].
Proof.
  revert n acc. induction fuel as [|fuel IH]; intros n acc Hacc; [exact Hacc|].
  cbn [decimal_fuel]. cbv zeta. destruct (n <? 10); [discriminate|].
  apply IH. discriminate.
Qed.

Lemma decimal_fuel_value fuel n acc :
  0 <= n < 2 ^ Z.of_nat fuel ->
  fold_left (fun a d => 10 * a + d) (Z.of_nat <$> decimal_fuel fuel n acc) 0
  = fold_left (fun a d => 10 * a + d) (Z.of_nat <$> acc) n.
Proof.
  revert n acc. induction fuel as [|fuel IH]; intros n acc Hn.
  - cbn [decimal_fuel]. change (2 ^ Z.of_nat 0) with 1 in Hn.
    replace n with 0 by lia. reflexivity.
  - cbn [decimal_fuel]. cbv zeta.
    assert (0 <= n mod 10 < 10) as Hmod by (apply Z.mod_pos_bound; lia).
    destruct (Z.ltb_spec n 10) as [Hsmall|Hbig].
    + cbn [fmap list_fmap fold_left]. rewrite Z2Nat.id by lia.
      rewrite Z.mod_small by lia. reflexivity.
    + rewrite IH.
      * cbn [fmap list_fmap fold_left]. rewrite Z2Nat.id by lia.
        f_equal. pose proof (Z.div_mod n 10 ltac:(lia)). lia.
      * rewrite Nat2Z.inj_succ, Z.pow_succ_r in Hn by lia.
        split; [apply Z.div_pos; lia|].
        apply Z.div_lt_upper_bound; lia.
Qed.

Lemma decimal_digits n : Forall (fun d => (d < 10)%nat) (decimal n).
Proof. apply decimal_fuel_digits. constructor. Qed.

Lemma decimal_nonempty n : decimal n <> [].
Proof.
  unfold decimal. cbn [decimal_fuel]. cbv zeta.
  destruct (n <? 10); [discriminate|]. apply decimal_fuel_nonempty. discriminate.
Qed.

(** The decimal digits of a natural number spell that number. *)
Lemma decimal_value n : 0 <= n -> timestamp_value (decimal n) = n.
Proof.
  intros Hn. unfold timestamp_value, digits_value, decimal.
  rewrite decimal_fuel_value; [reflexivity|].
  split; [exact Hn|]. rewrite Nat2Z.inj_succ, Z2Nat.id by apply Z.log2_nonneg.
  destruct (Z.eq_dec n 0) as [->|Hz]; [reflexivity|].
  apply Z.log2_spec. lia.
Qed.

Lemma generated_is_reset_token code created :
  0 <= created ->
  generatePasswordResetToken code created = reset_token code (decimal created).
Proof.
  intros Hc. unfold generatePasswordResetToken, reset_token, toString_int.
  destruct (Z.ltb_spec created 0); [lia|reflexivity].
Qed.

End GeneratedToken.

(** X22.  Generate, then validate: the token that [generatePasswordResetToken]
    builds from any code (underscores and white space included) at time
    [created] is valid at time [now] exactly when [created] is not zero and
    [now] is before [created] plus the expiry window, 3600 seconds when the
    option is omitted.  Here [created] and its sum with the window are
    integers that a double holds exactly, at most [2^53] in absolute value;
    beyond, the sum is rounded. *)
Theorem generated_reset_token_is_valid_for_the_window
    (code : string) (created now : Z) (options : UserSecurityTrait.Options) :
  0 <= created <= 2 ^ 53 ->
  - 2 ^ 53 <= created + default 3600 (UserSecurityTrait.expire options) <= 2 ^ 53 ->
  UserSecurityTrait.isPasswordResetTokenValid now
    (UserSecurityTrait.generatePasswordResetToken code created) options
  = negb (created =? 0)
    && (now <? created + default 3600 (UserSecurityTrait.expire options)).
Proof.
  intros [Hc Hmax] Hsum. rewrite (generated_is_reset_token code created Hc).
  rewrite isPasswordResetTokenValid_number. cbv zeta.
  destruct (trim_reset_token code (JS.decimal created)
              (decimal_nonempty created) (decimal_digits created)) as [code' ->].
  rewrite (timestamp_of_reset_token code' _ (decimal_digits created)).
  rewrite (Number_digit_string _ (decimal_nonempty created) (decimal_digits created))
    by (rewrite (decimal_value created Hc); exact Hmax).
  rewrite (decimal_value created Hc).
  rewrite (add_int_exact _ _ Hsum), gt_int_inject. reflexivity.
Qed.

(** X22, run: a token generated at 1700000000 with a code that has underscores,
    checked one second before and at the end of the default window. *)
Lemma generated_reset_token_witness :
  UserSecurityTrait.isPasswordResetTokenValid 1700003599
    (UserSecurityTrait.generatePasswordResetToken "V1_x-_9" 1700000000)
    (UserSecurityTrait.mkOptions None) = true
  /\ UserSecurityTrait.isPasswordResetTokenValid 1700003600
       (UserSecurityTrait.generatePasswordResetToken "V1_x-_9" 1700000000)
       (UserSecurityTrait.mkOptions None) = false.
Proof.
  split.
  - rewrite (generated_reset_token_is_valid_for_the_window "V1_x-_9" 1700000000
               1700003599 (UserSecurityTrait.mkOptions None))
      by (vm_compute; split; discriminate).
    reflexivity.
  - rewrite (generated_reset_token_is_valid_for_the_window "V1_x-_9" 1700000000
               1700003600 (UserSecurityTrait.mkOptions None))
      by (vm_compute; split; discriminate).
    reflexivity.
Defined.

(* ===================================================================== *)
(** * Further properties: visiting the schema *)
(* ===================================================================== *)

Section Visitor.
Import SchemaVisitor.

Lemma unvisited_marks_agree o : unvisited o -> marks_agree o.
Proof.
  intros (Ha & Hg & Hl) f Hf. rewrite (Hl f Hf), Ha, Hg.
  split; [constructor|]. split; split; intros Hin; try discriminate;
    apply elem_of_nil in Hin; contradiction.
Qed.

Lemma ensureFieldsWrapped_marks_agree d o :
  marks_agree o -> marks_agree (ensureFieldsWrapped d o).
Proof.
  intros Hinv. destruct d as [args|]; cbn [ensureFieldsWrapped].
  - destruct (_authFieldsWrapped o) eqn:Hmark; [exact Hinv|].
    intros f Hf. cbn [getFields] in Hf.
    apply list_elem_of_fmap in Hf as (f0 & -> & Hf0).
    destruct (Hinv f0 Hf0) as (Hnd & Hauth & Hguest).
    cbn [wrap layers _authFieldsWrapped _guestFieldsWrapped]. split; [|split].
    + constructor; [|exact Hnd]. intros Hin. apply Hauth in Hin. congruence.
    + split; [reflexivity|]. intros _. left.
    + rewrite <- Hguest. rewrite elem_of_cons. split; [|auto].
      intros [Heq|Hin]; [discriminate|exact Hin].
  - destruct (_guestFieldsWrapped o) eqn:Hmark; [exact Hinv|].
    intros f Hf. cbn [getFields] in Hf.
    apply list_elem_of_fmap in Hf as (f0 & -> & Hf0).
    destruct (Hinv f0 Hf0) as (Hnd & Hauth & Hguest).
    cbn [wrap layers _authFieldsWrapped _guestFieldsWrapped]. split; [|split].
    + constructor; [|exact Hnd]. intros Hin. apply Hguest in Hin. congruence.
    + rewrite <- Hauth. rewrite elem_of_cons. split; [|auto].
      intros [Heq|Hin]; [discriminate|exact Hin].
    + split; [reflexivity|]. intros _. left.
Qed.

Lemma elem_of_alter_layers (g : Field -> Field) i (fields : list Field) f :
  (forall x, layers (g x) = layers x) ->
  f ∈ alter g i fields -> exists f0, f0 ∈ fields /\ layers f = layers f0.
Proof.
  intros Hg Hf. apply list_elem_of_lookup in Hf as [j Hj].
  destruct (decide (i = j)) as [->|Hij].
  - rewrite list_lookup_alter_eq in Hj.
    destruct (fields !! j) as [f0|] eqn:Hf0; [|discriminate].
    injection Hj as <-. exists f0. split; [|apply Hg].
    apply (list_elem_of_lookup_2 _ _ _ Hf0).
  - rewrite list_lookup_alter_ne in Hj by exact Hij.
    exists f. split; [|reflexivity]. apply (list_elem_of_lookup_2 _ _ _ Hj).
Qed.

Lemma apply_visit_marks_agree o v : marks_agree o -> marks_agree (apply_visit o v).
Proof.
  intros Hinv.
  pose proof (ensureFieldsWrapped_marks_agree (directive_of v) o Hinv) as Hinv'.
  unfold apply_visit. cbv zeta.
  destruct v as [d|d i|d i j]; intros f Hf;
    cbn [getFields with_fields _authFieldsWrapped _guestFieldsWrapped] in *.
  - apply Hinv', Hf.
  - apply elem_of_alter_layers in Hf as (f0 & Hf0 & ->); [|reflexivity].
    apply Hinv', Hf0.
  - apply elem_of_alter_layers in Hf as (f0 & Hf0 & ->); [|reflexivity].
    apply Hinv', Hf0.
Qed.

Lemma visitSchema_marks_agree o visits : marks_agree o -> marks_agree (visitSchema o visits).
Proof.
  revert o. induction visits as [|v visits IH]; intros o Hinv; [exact Hinv|].
  cbn [visitSchema fold_left]. apply IH, apply_visit_marks_agree, Hinv.
Qed.

Lemma ensureFieldsWrapped_mark l d o :
  wrapped_by l (ensureFieldsWrapped d o)
  = wrapped_by l o || bool_decide (layer_of d = l).
Proof.
  destruct l, d as [args|]; cbn [ensureFieldsWrapped wrapped_by layer_of];
    try (destruct (_authFieldsWrapped o) eqn:Ha);
    try (destruct (_guestFieldsWrapped o) eqn:Hg);
    cbn [_authFieldsWrapped _guestFieldsWrapped]; rewrite ?Ha, ?Hg;
    reflexivity.
Qed.

Lemma apply_visit_mark l o v :
  wrapped_by l (apply_visit o v)
  = wrapped_by l o || bool_decide (layer_of (directive_of v) = l).
Proof.
  rewrite <- ensureFieldsWrapped_mark. destruct v, l; reflexivity.
Qed.

Lemma visitSchema_mark l o visits :
  wrapped_by l (visitSchema o visits) = true
  <-> wrapped_by l o = true \/ exists v, v ∈ visits /\ layer_of (directive_of v) = l.
Proof.
  revert o. induction visits as [|v visits IH]; intros o.
  - cbn [visitSchema fold_left]. split; [auto|].
    intros [Hm|(v & Hv & _)]; [exact Hm|]. apply elem_of_nil in Hv. contradiction.
  - cbn [visitSchema fold_left]. unfold visitSchema in IH. rewrite IH, apply_visit_mark.
    rewrite orb_true_iff, bool_decide_eq_true. split.
    + intros [[Hm|Hv]|(v' & Hv' & Hl)]; [auto|right..].
      * exists v. split; [left|exact Hv].
      * exists v'. split; [right; exact Hv'|exact Hl].
    + intros [Hm|(v' & Hv' & Hl)]; [auto|].
      apply elem_of_cons in Hv' as [->|Hv']; [auto|]. right. eauto.
Qed.

Lemma ensureFieldsWrapped_length d o :
  length (getFields (ensureFieldsWrapped d o)) = length (getFields o).
Proof.
  destruct d as [args|]; cbn [ensureFieldsWrapped];
    [destruct (_authFieldsWrapped o)|destruct (_guestFieldsWrapped o)];
    cbn [getFields]; rewrite ?length_fmap; reflexivity.
Qed.

Lemma apply_visit_length o v :
  length (getFields (apply_visit o v)) = length (getFields o).
Proof.
  rewrite <- (ensureFieldsWrapped_length (directive_of v) o).
  destruct v; cbn [apply_visit getFields with_fields]; rewrite ?length_alter; reflexivity.
Qed.

Lemma visitSchema_length o visits :
  length (getFields (visitSchema o visits)) = length (getFields o).
Proof.
  revert o. induction visits as [|v visits IH]; intros o; [reflexivity|].
  cbn [visitSchema fold_left]. unfold visitSchema in IH.
  rewrite IH. apply apply_visit_length.
Qed.

End Visitor.

(** X23.  Every field is wrapped at most once by each directive, however many
    directives visit its type, its fields and their arguments: after the
    visits of a schema on a type that was not visited before, the wrappers
    of each field are distinct, the [@auth] wrapper is there exactly when
    some [@auth] directive visited the type or anything in it, and likewise
    the guest wrapper; no field is added or dropped. *)
Theorem fields_are_wrapped_once (o : SchemaVisitor.ObjectType)
    (visits : list SchemaVisitor.visit) (f : SchemaVisitor.Field) :
  SchemaVisitor.unvisited o ->
  f ∈ SchemaVisitor.getFields (SchemaVisitor.visitSchema o visits) ->
  NoDup (SchemaVisitor.layers f)
  /\ (SchemaVisitor.AuthLayer ∈ SchemaVisitor.layers f
      <-> exists v args, v ∈ visits
                         /\ SchemaVisitor.directive_of v = SchemaVisitor.Auth args)
  /\ (SchemaVisitor.GuestLayer ∈ SchemaVisitor.layers f
      <-> exists v, v ∈ visits /\ SchemaVisitor.directive_of v = SchemaVisitor.Guest)
  /\ length (SchemaVisitor.getFields (SchemaVisitor.visitSchema o visits))
     = length (SchemaVisitor.getFields o).
Proof.
  intros Hfresh Hf.
  destruct (visitSchema_marks_agree o visits (unvisited_marks_agree o Hfresh) f Hf)
    as (Hnd & Hauth & Hguest).
  destruct Hfresh as (Ha & Hg & _).
  split; [exact Hnd|]. split; [|split; [|apply visitSchema_length]].
  - rewrite Hauth.
    rewrite (visitSchema_mark SchemaVisitor.AuthLayer o visits).
    cbn [SchemaVisitor.wrapped_by]. rewrite Ha. split.
    + intros [Hm|(v & Hv & Hl)]; [discriminate|].
      destruct (SchemaVisitor.directive_of v) as [args|] eqn:Hd; [eauto|discriminate].
    + intros (v & args & Hv & Hd). right. exists v. rewrite Hd. auto.
  - rewrite Hguest.
    rewrite (visitSchema_mark SchemaVisitor.GuestLayer o visits).
    cbn [SchemaVisitor.wrapped_by]. rewrite Hg. split.
    + intros [Hm|(v & Hv & Hl)]; [discriminate|].
      destruct (SchemaVisitor.directive_of v) as [args|] eqn:Hd; [discriminate|eauto].
    + intros (v & Hv & Hd). right. exists v. rewrite Hd. auto.
Qed.

(** X23, run: a [Mutation] type whose [login] field is marked guest-only and
    whose [logout] field and the type itself carry [@auth]: after the three
    visits [login] is wrapped once by each directive. *)
Lemma fields_are_wrapped_once_witness :
  let login := SchemaVisitor.mkField (mkDecorated "login" None false)
                 [mkDecorated "input" None false] [] in
  let logout := SchemaVisitor.mkField (mkDecorated "logout" None false) [] [] in
  let type := SchemaVisitor.mkObjectType (mkDecorated "Mutation" None false)
                false false [login; logout] in
  let everyone := SchemaVisitor.Auth (SchemaVisitor.mkAuthArgs None None None) in
  let visits := [SchemaVisitor.VisitFieldDefinition SchemaVisitor.Guest 0;
                 SchemaVisitor.VisitFieldDefinition everyone 1;
                 SchemaVisitor.VisitObject everyone] in
  NoDup [SchemaVisitor.AuthLayer; SchemaVisitor.GuestLayer]
  /\ length (SchemaVisitor.getFields (SchemaVisitor.visitSchema type visits)) = 2%nat.
Proof.
  intros login logout type everyone visits.
  assert (SchemaVisitor.unvisited type) as Hfresh.
  { split; [reflexivity|]. split; [reflexivity|]. intros f Hf.
    unfold type in Hf. cbn [SchemaVisitor.getFields] in Hf.
    apply elem_of_cons in Hf as [->|Hf]; [reflexivity|].
    apply elem_of_cons in Hf as [->|Hf]; [reflexivity|].
    apply elem_of_nil in Hf. contradiction. }
  assert (SchemaVisitor.mkField (mkDecorated "login" None true)
            [mkDecorated "input" None false]
            [SchemaVisitor.AuthLayer; SchemaVisitor.GuestLayer]
          ∈ SchemaVisitor.getFields (SchemaVisitor.visitSchema type visits)) as Hf
    by (vm_compute; left).
  destruct (fields_are_wrapped_once type visits _ Hfresh Hf) as (Hnd & _ & _ & Hlen).
  split; [exact Hnd|exact Hlen].
Defined.

Section Guarded.
Import SchemaVisitor.
Variable P : Decorated -> Prop.
Hypothesis P_kept : forall d x, P x -> P (initRequiredParams d x).

Lemma ensureFieldsWrapped_type d o :
  type_object (ensureFieldsWrapped d o) = type_object o.
Proof.
  destruct d as [args|]; cbn [ensureFieldsWrapped];
    [destruct (_authFieldsWrapped o)|destruct (_guestFieldsWrapped o)]; reflexivity.
Qed.

Lemma ensureFieldsWrapped_field d o i f :
  getFields o !! i = Some f ->
  exists f', getFields (ensureFieldsWrapped d o) !! i = Some f'
             /\ field_object f' = field_object f /\ field_args f' = field_args f.
Proof.
  intros Hf. destruct d as [args|]; cbn [ensureFieldsWrapped];
    [destruct (_authFieldsWrapped o)|destruct (_guestFieldsWrapped o)];
    cbn [getFields]; rewrite ?list_lookup_fmap, ?Hf; eauto.
Qed.

Lemma apply_visit_keeps_type o v :
  P (type_object o) -> P (type_object (apply_visit o v)).
Proof.
  intros Hp. rewrite <- (ensureFieldsWrapped_type (directive_of v) o) in Hp.
  destruct v; cbn [apply_visit type_object with_fields]; auto.
Qed.

Lemma apply_visit_keeps_field o v i f :
  getFields o !! i = Some f -> P (field_object f) ->
  exists f', getFields (apply_visit o v) !! i = Some f' /\ P (field_object f').
Proof.
  intros Hf Hp.
  destruct (ensureFieldsWrapped_field (directive_of v) o i f Hf) as (f' & Hf' & Hobj & _).
  rewrite <- Hobj in Hp. unfold apply_visit. cbv zeta.
  destruct v as [d|d k|d k j]; cbn [getFields with_fields directive_of] in *.
  - eauto.
  - destruct (decide (k = i)) as [->|Hk].
    + rewrite list_lookup_alter_eq, Hf'. eexists. split; [reflexivity|].
      cbn [on_field field_object]. auto.
    + rewrite list_lookup_alter_ne by exact Hk. eauto.
  - destruct (decide (k = i)) as [->|Hk].
    + rewrite list_lookup_alter_eq, Hf'. eexists. split; [reflexivity|exact Hp].
    + rewrite list_lookup_alter_ne by exact Hk. eauto.
Qed.

Lemma visitSchema_keeps_type o visits :
  P (type_object o) -> P (type_object (visitSchema o visits)).
Proof.
  revert o. induction visits as [|v visits IH]; intros o Hp; [exact Hp|].
  cbn [visitSchema fold_left]. apply IH, apply_visit_keeps_type, Hp.
Qed.

Lemma visitSchema_keeps_field o visits i f :
  getFields o !! i = Some f -> P (field_object f) ->
  exists f', getFields (visitSchema o visits) !! i = Some f' /\ P (field_object f').
Proof.
  revert o f. induction visits as [|v visits IH]; intros o f Hf Hp; [eauto|].
  cbn [visitSchema fold_left].
  destruct (apply_visit_keeps_field o v i f Hf Hp) as (f' & Hf' & Hp').
  apply (IH _ f' Hf' Hp').
Qed.

Lemma visited_type_has d o visits :
  (forall x, P (initRequiredParams d x)) ->
  VisitObject d ∈ visits -> P (type_object (visitSchema o visits)).
Proof.
  intros Hd. revert o. induction visits as [|v visits IH]; intros o Hin.
  - apply elem_of_nil in Hin. contradiction.
  - cbn [visitSchema fold_left]. apply elem_of_cons in Hin as [<-|Hin].
    + apply visitSchema_keeps_type. cbn [apply_visit type_object]. apply Hd.
    + apply IH, Hin.
Qed.

Lemma visited_field_has d o visits i :
  (forall x, P (initRequiredParams d x)) ->
  (i < length (getFields o))%nat ->
  VisitFieldDefinition d i ∈ visits ->
  exists f, getFields (visitSchema o visits) !! i = Some f /\ P (field_object f).
Proof.
  intros Hd. revert o. induction visits as [|v visits IH]; intros o Hi Hin.
  - apply elem_of_nil in Hin. contradiction.
  - cbn [visitSchema fold_left]. apply elem_of_cons in Hin as [<-|Hin].
    + destruct (lookup_lt_is_Some_2 _ _ Hi) as [f Hf].
      destruct (ensureFieldsWrapped_field d o i f Hf) as (f' & Hf' & _).
      apply (visitSchema_keeps_field _ visits i
               (on_field (initRequiredParams d) f')).
      * cbn [apply_visit getFields with_fields directive_of].
        rewrite list_lookup_alter_eq, Hf'. reflexivity.
      * cbn [on_field field_object]. apply Hd.
    + apply IH; [|exact Hin]. rewrite apply_visit_length. exact Hi.
Qed.

End Guarded.

Section Layers.
Import SchemaVisitor.

Lemma guest_wrapper_guest {W V A} objectType field fieldArgs (resolve : Resolver W V)
    (details : gmap string A) ctx w :
  isGuest (app_user ctx) = true ->
  GuestDirective.wrapped_resolve objectType field fieldArgs resolve details ctx w
  = resolve w.
Proof.
  intros Hg. unfold GuestDirective.wrapped_resolve.
  assert (GuestDirective.validateArguments fieldArgs ctx details = Ok tt) as ->.
  { apply forEach_all_ok. intros arg _. rewrite Hg, andb_false_r. reflexivity. }
  rewrite guest_checkPermission_eq, Hg.
  destruct (AuthDirective.nonempty fieldArgs), (_guestOnly field || _guestOnly objectType);
    reflexivity.
Qed.

Lemma run_layers_guest {W V A} objectType field fieldArgs ls (resolve : Resolver W V)
    (details : gmap string A) ctx w :
  isGuest (app_user ctx) = true ->
  is_Some (_authData objectType) \/ is_Some (_authData field) ->
  AuthLayer ∈ ls ->
  run_layers objectType field fieldArgs ls resolve details ctx w
  = (w, Throw (RequestError (request_t ctx "Not Authorized" []) "UNAUTHORIZED")).
Proof.
  intros Hg Hrule. induction ls as [|l ls IH]; intros Hin.
  - apply elem_of_nil in Hin. contradiction.
  - destruct l; cbn [run_layers].
    + apply auth_wrapper_guest; assumption.
    + rewrite guest_wrapper_guest by exact Hg. apply IH.
      apply elem_of_cons in Hin as [Heq|Hin]; [discriminate|exact Hin].
Qed.

Lemma run_layers_signed_in {W V A} objectType field fieldArgs ls (resolve : Resolver W V)
    (details : gmap string A) ctx w :
  isGuest (app_user ctx) = false ->
  _guestOnly field || _guestOnly objectType = true ->
  GuestLayer ∈ ls ->
  exists e, run_layers objectType field fieldArgs ls resolve details ctx w = (w, Throw e).
Proof.
  intros Hg Hrule. induction ls as [|l ls IH]; intros Hin.
  - apply elem_of_nil in Hin. contradiction.
  - destruct l; cbn [run_layers].
    + unfold AuthDirective.wrapped_resolve at 1.
      match goal with
      | |- exists e, match ?c with Ok _ => _ | Throw _ => _ end = _ =>
          destruct c as [u|e]; [|eauto]
      end.
      apply IH. apply elem_of_cons in Hin as [Heq|Hin]; [discriminate|exact Hin].
    + apply guest_wrapper_signed_in; assumption.
Qed.

End Layers.

(** X24.  A directive on a type or on a field guards the field once the schema
    is built.  After the visits of a schema on a type not visited before:
    a field that an [@auth] directive visited, or whose type one visited,
    fails for every guest with UNAUTHORIZED and its handler is not run,
    whatever other directives were applied before or after and whatever the
    rule lists; a field that a guest-only directive visited, or whose type
    one visited, fails for every signed-in caller without running the
    handler. *)
Theorem visited_field_is_guarded (W V A : Type)
    (o : SchemaVisitor.ObjectType) (visits : list SchemaVisitor.visit)
    (i : nat) (f : SchemaVisitor.Field)
    (resolve : Resolver W V) (details : gmap string A) (ctx : GraphQLContext) (w : W) :
  SchemaVisitor.unvisited o ->
  SchemaVisitor.getFields (SchemaVisitor.visitSchema o visits) !! i = Some f ->
  let built := SchemaVisitor.visitSchema o visits in
  ((exists args, SchemaVisitor.VisitObject (SchemaVisitor.Auth args) ∈ visits
                 \/ SchemaVisitor.VisitFieldDefinition (SchemaVisitor.Auth args) i ∈ visits) ->
   isGuest (app_user ctx) = true ->
   SchemaVisitor.resolve_field built f resolve details ctx w
   = (w, Throw (RequestError (request_t ctx "Not Authorized" []) "UNAUTHORIZED")))
  /\ (SchemaVisitor.VisitObject SchemaVisitor.Guest ∈ visits
      \/ SchemaVisitor.VisitFieldDefinition SchemaVisitor.Guest i ∈ visits ->
      isGuest (app_user ctx) = false ->
      exists e, SchemaVisitor.resolve_field built f resolve details ctx w = (w, Throw e)).
Proof.
  intros Hfresh Hf built.
  assert (f ∈ SchemaVisitor.getFields built) as Hin
    by apply (list_elem_of_lookup_2 _ _ _ Hf).
  destruct (visitSchema_marks_agree o visits (unvisited_marks_agree o Hfresh) f Hin)
    as (_ & Hauth & Hguest).
  assert (i < length (SchemaVisitor.getFields o))%nat as Hi.
  { rewrite <- (visitSchema_length o visits). apply lookup_lt_is_Some_1. eauto. }
  split.
  - intros [args Hvisit] Hg. unfold SchemaVisitor.resolve_field.
    apply run_layers_guest; [exact Hg| |].
    + destruct Hvisit as [Hv|Hv].
      * left. apply (visited_type_has (fun x => is_Some (_authData x))
                       ltac:(intros [a|] x Hx; cbn; eauto)
                       (SchemaVisitor.Auth args) o visits); [cbn; eauto|exact Hv].
      * right.
        destruct (visited_field_has (fun x => is_Some (_authData x))
                    ltac:(intros [a|] x Hx; cbn; eauto)
                    (SchemaVisitor.Auth args) o visits i ltac:(cbn; eauto) Hi Hv)
          as (f' & Hf' & Hp).
        rewrite Hf in Hf'. injection Hf' as <-. exact Hp.
    + apply Hauth.
      apply (visitSchema_mark SchemaVisitor.AuthLayer o visits). right.
      destruct Hvisit as [Hv|Hv]; eexists; (split; [exact Hv|reflexivity]).
  - intros Hvisit Hg. unfold SchemaVisitor.resolve_field.
    apply run_layers_signed_in; [exact Hg| |].
    + apply orb_true_iff. destruct Hvisit as [Hv|Hv].
      * right. apply (visited_type_has (fun x => _guestOnly x = true)
                        ltac:(intros [a|] x Hx; cbn; auto)
                        SchemaVisitor.Guest o visits); [cbn; auto|exact Hv].
      * left.
        destruct (visited_field_has (fun x => _guestOnly x = true)
                    ltac:(intros [a|] x Hx; cbn; auto)
                    SchemaVisitor.Guest o visits i ltac:(cbn; auto) Hi Hv)
          as (f' & Hf' & Hp).
        rewrite Hf in Hf'. injection Hf' as <-. exact Hp.
    + apply Hguest.
      apply (visitSchema_mark SchemaVisitor.GuestLayer o visits). right.
      destruct Hvisit as [Hv|Hv]; eexists; (split; [exact Hv|reflexivity]).
Qed.

(** X24, run: on the [Mutation] type built from a guest-only [login] and an
    [@auth] on [logout], a guest cannot call [logout]. *)
Lemma visited_field_witness :
  let login := SchemaVisitor.mkField (mkDecorated "login" None false)
                 [mkDecorated "input" None false] [] in
  let logout := SchemaVisitor.mkField (mkDecorated "logout" None false) [] [] in
  let type := SchemaVisitor.mkObjectType (mkDecorated "Mutation" None false)
                false false [login; logout] in
  let everyone := SchemaVisitor.Auth (SchemaVisitor.mkAuthArgs None None None) in
  let visits := [SchemaVisitor.VisitFieldDefinition SchemaVisitor.Guest 0;
                 SchemaVisitor.VisitFieldDefinition everyone 1] in
  let built := SchemaVisitor.visitSchema type visits in
  let handler : Resolver nat bool := fun w => (S w, Ok true) in
  SchemaVisitor.resolve_field (A:=bool) built
    (SchemaVisitor.mkField
       (mkDecorated "logout" (Some (mkAuthData [] [] [])) false) []
       [SchemaVisitor.AuthLayer; SchemaVisitor.GuestLayer])
    handler ∅ guest_context 0%nat
  = (0%nat, Throw (RequestError "Not Authorized" "UNAUTHORIZED")).
Proof.
  intros login logout type everyone visits built handler.
  assert (SchemaVisitor.unvisited type) as Hfresh.
  { split; [reflexivity|]. split; [reflexivity|]. intros f Hf.
    unfold type in Hf. cbn [SchemaVisitor.getFields] in Hf.
    apply elem_of_cons in Hf as [->|Hf]; [reflexivity|].
    apply elem_of_cons in Hf as [->|Hf]; [reflexivity|].
    apply elem_of_nil in Hf. contradiction. }
  apply (proj1 (visited_field_is_guarded nat bool bool type visits 1%nat
                  (SchemaVisitor.mkField
                     (mkDecorated "logout" (Some (mkAuthData [] [] [])) false) []
                     [SchemaVisitor.AuthLayer; SchemaVisitor.GuestLayer])
                  handler ∅ guest_context 0%nat Hfresh eq_refl)).
  - exists (SchemaVisitor.mkAuthArgs None None None). right. right. left.
  - reflexivity.
Defined.

(* ===================================================================== *)
(** * Further properties: the login mutation *)
(* ===================================================================== *)

Section LoginProperties.
Context `{Platform}.
Import Jwt JwtIdentity AuthDecorator.

Lemma findByAuthKey_save_same rows m m' :
  User.id m' = User.id m ->
  User.authorization_key m' = User.authorization_key m ->
  findByAuthKey rows (User.authorization_key m) = Some m ->
  findByAuthKey (Logout.save m' rows) (User.authorization_key m) = Some m'.
Proof.
  intros Hid Hkey. unfold findByAuthKey, Logout.save. rewrite Hid.
  induction rows as [|u rows IH]; [discriminate|].
  cbn [find fmap list_fmap].
  destruct (String.eqb_spec (User.authorization_key u) (User.authorization_key m))
    as [Hk|Hk].
  - intros [= ->]. rewrite Z.eqb_refl, Hkey, String.eqb_refl. reflexivity.
  - intros Hrest. specialize (IH Hrest). destruct (User.id u =? User.id m).
    + rewrite Hkey, String.eqb_refl. reflexivity.
    + destruct (String.eqb_spec (User.authorization_key u) (User.authorization_key m));
        [contradiction|exact IH].
Qed.

Lemma plain_clear c k : plain_cache c -> plain_cache (DataLoader.clear c k).
Proof.
  intros Hp k' v Hv. unfold DataLoader.clear in Hv.
  apply lookup_delete_Some in Hv as [_ Hv]. apply (Hp k' v Hv).
Qed.

Lemma findIdentityByToken_plain cfg now s token d :
  plain_cache (authUsers s) ->
  decodeToken cfg now token = Ok d ->
  snd (findIdentityByToken cfg now s token) =
    match findByAuthKey (db s) (idt d) with
    | Some m => validate m d
    | None => Throw (AuthError "Token may invalidated or user not found" 404 "Not found")
    end.
Proof.
  intros Hp Hd. unfold findIdentityByToken.
  rewrite Hd, (userFromDataLoader_plain s (idt d) Hp).
  destruct (findByAuthKey (db s) (idt d)); reflexivity.
Qed.

Lemma login_success vp ap cfg now t s input s' data :
  Login.login vp ap cfg now t s input = (s', Ok data) ->
  exists found,
    Login.findIdentity vp ap t (db s) input = Ok found
    /\ Login.findByEmail (db s) (Login.input_email input) = Some found
    /\ User.status found = User.STATUS_ACTIVE
    /\ db s' = Logout.save (Login.validated found) (db s)
    /\ authUsers s'
       = DataLoader.prime (DataLoader.clear (authUsers s) (User.authorization_key found))
           (User.authorization_key found) (DataLoader.VModel (Login.validated found))
    /\ data = createToken cfg now (User.authorization_key found) (User.role found).
Proof.
  unfold Login.login.
  destruct (Login.findIdentity vp ap t (db s) input) as [found|e] eqn:Hfound;
    [|discriminate].
  cbv zeta. intros [= <- <-]. exists found. split; [reflexivity|].
  revert Hfound. unfold Login.findIdentity.
  destruct (Login.findByEmail (db s) (Login.input_email input)) as [model|];
    [|discriminate].
  destruct (User.status model =? User.STATUS_INACTIVE); [discriminate|].
  unfold User.validateStatusOnLogin.
  destruct (Z.eqb_spec User.STATUS_ACTIVE (User.status model)) as [Hs|_];
    [|discriminate].
  cbn [negb]. destruct (vp model (Login.input_password input)); [|discriminate].
  cbn [negb]. destruct (ap model); [discriminate|].
  intros [= <-]. auto 10.
Qed.

End LoginProperties.

(** X25.  The login checks the account before the password: when no active
    account has the given address, the outcome is the same for every
    password, the server is left as it was, and the error names the reason
    (UNKNOWN_EMAIL, PENDING_ACTIVATION or ACCESS_REVOKED); so the answer
    tells whether an address is registered, and the state of its account,
    to a caller who does not know the password. *)
Theorem login_checks_account_before_password `{Platform}
    (validatePassword : User.t -> string -> bool) (activation_pending : User.t -> bool)
    (cfg : Config) (now : Z) (t : string -> list string -> string) (s : Server)
    (email password password' : string) :
  (forall m, Login.findByEmail (db s) email = Some m ->
             User.status m <> User.STATUS_ACTIVE) ->
  Login.login validatePassword activation_pending cfg now t s
    (Login.mkInput email password)
  = Login.login validatePassword activation_pending cfg now t s
      (Login.mkInput email password')
  /\ fst (Login.login validatePassword activation_pending cfg now t s
            (Login.mkInput email password)) = s
  /\ exists msg code,
       snd (Login.login validatePassword activation_pending cfg now t s
              (Login.mkInput email password)) = Throw (RequestError msg code)
       /\ code ∈ ["UNKNOWN_EMAIL"; "PENDING_ACTIVATION"; "ACCESS_REVOKED"].
Proof.
  intros Hinactive. unfold Login.login, Login.findIdentity.
  cbn [Login.input_email Login.input_password].
  destruct (Login.findByEmail (db s) email) as [m|] eqn:Hm.
  - specialize (Hinactive m eq_refl).
    destruct (User.status m =? User.STATUS_INACTIVE).
    + split; [reflexivity|]. split; [reflexivity|].
      eexists _, _. split; [reflexivity|set_solver].
    + unfold User.validateStatusOnLogin.
      destruct (Z.eqb_spec User.STATUS_ACTIVE (User.status m)) as [Hs|_];
        [symmetry in Hs; contradiction|].
      split; [reflexivity|]. split; [reflexivity|].
      eexists _, _. split; [reflexivity|set_solver].
  - split; [reflexivity|]. split; [reflexivity|].
    eexists _, _. split; [reflexivity|set_solver].
Qed.

(** X25, run: the blocked account of the reference table, with two passwords. *)
Lemma login_checks_account_witness :
  let login password :=
    Login.login (H:=Reference.platform) (fun _ p => String.eqb p "secret")
      (fun _ => false) Reference.cfg 1700000000 (fun msg _ => msg)
      (boot Reference.table) (Login.mkInput "bob@example.test" password) in
  login "secret" = login "guess".
Proof.
  intros login.
  apply (login_checks_account_before_password (H:=Reference.platform)
           (fun _ p => String.eqb p "secret") (fun _ => false) Reference.cfg 1700000000
           (fun msg _ => msg) (boot Reference.table) "bob@example.test" "secret" "guess").
  intros m Hm. vm_compute in Hm. injection Hm as <-. vm_compute. discriminate.
Defined.

(** X26.  Log in, then present the token: when the login succeeds on a server
    whose cache holds no arrays, for an account that its authorization key
    identifies, and answers with a token that carries its time claims (the
    issue time, the not-before time and the expiry are dates of the years
    0000 to 9999), the next request that carries the issued token in its
    [Authorization] header, inside the token's window, is signed in by the
    hook as that account with the invalidation flag reset, also when the
    account had signed out everywhere before. *)
Theorem login_token_signs_in `{Platform} `{!PlatformLaws H}
    (validatePassword : User.t -> string -> bool) (activation_pending : User.t -> bool)
    (cfg : Config) (now now' : Z) (t : string -> list string -> string)
    (s s' : Server) (input : Login.Input) (data : JwtIdentity.TokenData)
    (scheme : string) (ck : option string) :
  jti_agree cfg ->
  plain_cache (authUsers s) ->
  Login.login validatePassword activation_pending cfg now t s input = (s', Ok (Some data)) ->
  (forall m, Login.findByEmail (db s) (Login.input_email input) = Some m ->
             JwtIdentity.findByAuthKey (db s) (User.authorization_key m) = Some m) ->
  JS.no_space (JwtIdentity.auth_token data) = true ->
  JwtIdentity.issued_at data
    + JwtIdentity.getConfig (session_jwt_notBeforeSeconds cfg) 0 <= now'
    < JwtIdentity.expires_at data ->
  exists m,
    Login.findByEmail (db s) (Login.input_email input) = Some m
    /\ user (fst (AuthDecorator.onRequest cfg now' s'
                    (mkRequest (Some (scheme ++ " " ++ JwtIdentity.auth_token data)) ck)))
       = {| isGuest := false; identity := Some (Login.validated m);
            user_id := Some (User.id m) |}.
Proof.
  intros Hjti Hplain Hlogin Hkey Hn Hwin.
  destruct (login_success _ _ _ _ _ _ _ _ _ Hlogin)
    as (m & _ & Hemail & Hs & Hdb & Hcache & Hdata).
  exists m. split; [exact Hemail|].
  symmetry in Hdata.
  destruct (createToken_Some cfg now _ _ data Hdata) as (-> & _).
  cbn [JwtIdentity.auth_token JwtIdentity.issued_at JwtIdentity.expires_at] in *.
  set (token := JwtLib.sign (jwt_secret cfg) "HS512"
                  (issued_claims cfg now (User.authorization_key m) (User.role m))) in *.
  set (req := mkRequest (Some (scheme ++ " " ++ token)) ck).
  assert (JwtIdentity.getTokenFromAll req = JwtIdentity.Token token) as Htok.
  { unfold JwtIdentity.getTokenFromAll, req.
    change (scheme ++ " " ++ token) with (scheme ++ String " " token).
    rewrite bearer_of_header; [reflexivity| |exact Hn].
    apply jws_encode_nonempty. }
  assert (JwtIdentity.decodeToken cfg now' (JwtIdentity.getTokenFromAll req)
          = Ok (issued_claims cfg now (User.authorization_key m) (User.role m))) as Hd.
  { rewrite Htok. apply roundtrip_when_jti_agree; [exact Hjti|exact Hwin]. }
  assert (plain_cache (authUsers s')) as Hplain'.
  { rewrite Hcache.
    apply (plain_prime _ _ (Some (Login.validated m))), plain_clear, Hplain. }
  apply (onRequest_success cfg now' s' req (Login.validated m)
           (issued_claims cfg now (User.authorization_key m) (User.role m))).
  rewrite (findIdentityByToken_plain cfg now' s' _ _ Hplain' Hd).
  cbn [issued_claims Jwt.idt]. rewrite Hdb.
  rewrite (findByAuthKey_save_same (db s) m (Login.validated m) eq_refl eq_refl
             (Hkey m Hemail)).
  apply validate_passes; [exact Hs|reflexivity|reflexivity].
Qed.

(** X26, run: [carol_signed_out], whose earlier tokens are refused, logs in, and
    her new token signs her in. *)
Lemma login_token_signs_in_witness :
  let vp : User.t -> string -> bool := fun _ p => String.eqb p "secret" in
  let ap : User.t -> bool := fun _ => false in
  let s := boot Reference.table in
  let input := Login.mkInput "carol@example.test" "secret" in
  let after := Login.login (H:=Reference.platform) vp ap Reference.cfg 1700000000
                 (fun msg _ => msg) s input in
  let token := JwtLib.sign (jwt_secret Reference.cfg) "HS512"
                 (issued_claims Reference.cfg 1700000000 "key-carol" 3) in
  exists m,
    Login.findByEmail (db s) "carol@example.test" = Some m
    /\ user (fst (AuthDecorator.onRequest Reference.cfg 1700000100 (fst after)
                    (mkRequest (Some ("Bearer" ++ " " ++ token)) None)))
       = {| isGuest := false; identity := Some (Login.validated m);
            user_id := Some (User.id m) |}.
Proof.
  intros vp ap s input after token.
  apply (login_token_signs_in (H:=Reference.platform) vp ap Reference.cfg
           1700000000 1700000100 (fun msg _ => msg) s (fst after) input
           {| JwtIdentity.auth_token := token;
              JwtIdentity.issued_at := 1700000000;
              JwtIdentity.expires_at := 1701296000 |}
           "Bearer" None).
  - intros Hgiven. vm_compute in Hgiven. discriminate Hgiven.
  - apply plain_empty.
  - vm_compute. reflexivity.
  - intros m Hm. vm_compute in Hm. injection Hm as <-. vm_compute. reflexivity.
  - vm_compute. reflexivity.
  - vm_compute. split; [discriminate|reflexivity].
Defined.


